(** * The BERT pre-training sample builder of libai

    A shallow embedding of [libai/data/bert_dataset.py]: the sentence-pair
    splitter, the pair truncator, token/type assembly, the n-gram masking
    planner and the serializer, followed by the properties the design
    document states about them and by further properties of the code.

    Conventions.
    - Python integers are [Z]; positions produced by [enumerate] are [nat].
    - Python floats are the kernel's binary64 floats.
    - A call that may raise returns a [result]; the exceptions are the
      ones the interpreter raises at that point of the source.
    - The numpy random state is an interface ([RandomState]); every
      function that draws threads the state explicitly. *)

From Stdlib Require Import ZArith String List Lia Permutation Sorted.
From Stdlib Require Import Floats.PrimFloat Floats.FloatOps Floats.SpecFloat.
From Stdlib Require Import Numbers.Cyclic.Int63.Uint63.
From stdpp Require Import base gmap strings list.

Local Open Scope Z_scope.

(** ** Python values, exceptions and sequences *)

Module Py.

(** The exceptions the module can raise.  An [AssertionError] carries
    the text of the asserted condition, as the traceback shows it. *)
Inductive exn : Type :=
| AssertionError (cond : string)
| NameError (name : string)
| UnboundLocalError (name : string)
| AttributeError (obj attr : string)
| IndexError
| KeyError (key : Z)
| ValueError
| OverflowError.

Inductive result (A : Type) : Type :=
| Ok (a : A)
| Raise (e : exn).
Arguments Ok {A} a.
Arguments Raise {A} e.

Definition bind {A B} (c : result A) (k : A -> result B) : result B :=
  match c with
  | Ok a => k a
  | Raise e => Raise e
  end.

Definition raises {A} (c : result A) : Prop := exists e, c = Raise e.

(** [assert cond] *)
Definition py_assert (b : bool) (cond : string) : result unit :=
  if b then Ok tt else Raise (AssertionError cond).

(** Reading a name that no enclosing scope binds. *)
Definition unbound_name {A} (name : string) : result A :=
  Raise (NameError name).

(** Reading a local variable above its first assignment. *)
Definition unbound_local {A} (name : string) : result A :=
  Raise (UnboundLocalError name).

(** Reading an attribute the object does not have. *)
Definition missing_attribute {A} (obj attr : string) : result A :=
  Raise (AttributeError obj attr).

(** [len(l)] *)
Definition len {A} (l : list A) : Z := Z.of_nat (length l).

(** The position a subscript [i] denotes in a sequence of length [n]:
    negative subscripts count from the end. *)
Definition norm_index (n i : Z) : option nat :=
  let j := if i <? 0 then i + n else i in
  if (0 <=? j) && (j <? n) then Some (Z.to_nat j) else None.

(** [l[i]] *)
Definition py_index {A} (l : list A) (i : Z) : result A :=
  match norm_index (len l) i with
  | Some j => match l !! j with Some x => Ok x | None => Raise IndexError end
  | None => Raise IndexError
  end.

(** [l[i] = x] *)
Definition py_setitem {A} (l : list A) (i : Z) (x : A) : result (list A) :=
  match norm_index (len l) i with
  | Some j => Ok (<[j := x]> l)
  | None => Raise IndexError
  end.

(** [[x] * n] *)
Definition py_repeat {A} (x : A) (n : Z) : list A := replicate (Z.to_nat n) x.

(** [range(lo, hi)] *)
Definition py_range (lo hi : Z) : list Z :=
  map (fun k => lo + Z.of_nat k) (seq 0 (Z.to_nat (hi - lo))).

(** [l[i:j]] for [0 <= i] *)
Definition py_slice {A} (l : list A) (i j : Z) : list A :=
  take (Z.to_nat (j - i)) (drop (Z.to_nat i) l).

(** [l.pop(0)] and [l.pop()], keeping the list that remains. *)
Definition pop_first {A} (l : list A) : result (list A) :=
  match l with
  | [] => Raise IndexError
  | _ :: l' => Ok l'
  end.

Definition pop_last {A} (l : list A) : result (list A) :=
  match l with
  | [] => Raise IndexError
  | _ :: _ => Ok (removelast l)
  end.

(** [np.array(l, dtype=np.int64)]: every entry must fit 64 signed bits. *)
Definition fits_int64 (v : Z) : bool := (- 2 ^ 63 <=? v) && (v <? 2 ^ 63).

Definition np_array_int64 (l : list Z) : result (list Z) :=
  if forallb fits_int64 l then Ok l else Raise OverflowError.

(** [int(b)] for a boolean *)
Definition int_of_bool (b : bool) : Z := if b then 1 else 0.

(** *** Floats *)

(** [float(n)] for a non-negative integer below [2^63], correctly
    rounded: lengths and the small constants of the module. *)
Definition float_of_int (n : Z) : float := PrimFloat.of_uint63 (Uint63.of_Z n).

(** [float(n)] for any integer, as [int * float] converts its left
    operand: the nearest float, ties going to the even one, and
    [OverflowError] when the magnitude is beyond the largest float. *)
Definition py_float (n : Z) : result float :=
  match binary_normalize prec emax n 0 false with
  | S754_infinity _ => Raise OverflowError
  | sf => Ok (SF2Prim sf)
  end.

(** The integer nearest to [m * 2^e], ties going to the even one. *)
Definition round_half_even (m e : Z) : Z :=
  if 0 <=? e then m * 2 ^ e
  else
    let d := 2 ^ (- e) in
    let q := m / d in
    let r := m mod d in
    match 2 * r ?= d with
    | Lt => q
    | Gt => q + 1
    | Eq => if Z.even q then q else q + 1
    end.

(** [int(round(x))]: the built-in [round] of a float. *)
Definition py_round (x : float) : result Z :=
  match Prim2SF x with
  | S754_nan => Raise ValueError
  | S754_infinity _ => Raise OverflowError
  | S754_zero _ => Ok 0
  | S754_finite s m e =>
      let v := round_half_even (Z.pos m) e in
      Ok (if s then - v else v)
  end.

(** [math.ceil(x)] *)
Definition py_ceil (x : float) : result Z :=
  match Prim2SF x with
  | S754_nan => Raise ValueError
  | S754_infinity _ => Raise OverflowError
  | S754_zero _ => Ok 0
  | S754_finite s m e =>
      if 0 <=? e then Ok ((if s then -1 else 1) * (Z.pos m * 2 ^ e))
      else
        let d := 2 ^ (- e) in
        if s then Ok (- (Z.pos m / d))
        else Ok (- ((- Z.pos m) / d))
  end.

End Py.
Export Py.

Declare Scope py_scope.
Delimit Scope py_scope with py.
Notation "x <- c1 ;; c2" := (bind c1 (fun x => c2))
  (at level 63, c1 at next level, right associativity) : py_scope.
Local Open Scope py_scope.

(** ** The numpy random state

    [np.random.RandomState] is an external collaborator.  Its methods are
    taken as an interface together with the part of numpy's contract the
    module relies on: [randint] stays inside its half-open range,
    [shuffle] permutes, [choice] picks one of the offered values and
    [geometric] is at least one. *)

Class RandomState (R : Type) : Type := {
  seed_state : Z -> R;
  random : R -> float * R;
  randint : Z -> Z -> R -> Z * R;
  shuffle : forall {A : Type}, list A -> R -> list A * R;
  choice : list Z -> list float -> R -> Z * R;
  geometric : float -> R -> Z * R;
  randint_range : forall lo hi g, lo < hi -> lo <= fst (randint lo hi g) < hi;
  shuffle_perm : forall (A : Type) (l : list A) g, Permutation l (fst (shuffle l g));
  choice_elem : forall a p g, a <> [] -> In (fst (choice a p g)) a;
  geometric_pos : forall p g, 1 <= fst (geometric p g)
}.

(** [np_rng.randint(lo, hi)] rejects an empty range. *)
Definition py_randint `{RandomState R} (lo hi : Z) (g : R) : result (Z * R) :=
  if lo <? hi then Ok (randint lo hi g) else Raise ValueError.

(** [np_rng.choice(a, p=p)] rejects an empty population. *)
Definition py_choice `{RandomState R} (a : list Z) (p : list float) (g : R)
  : result (Z * R) :=
  match a with
  | [] => Raise ValueError
  | _ :: _ => Ok (choice a p g)
  end.

(** The float literals of the module. *)
Definition f_0_5 : float := 0x1p-1%float.
Definition f_0_8 : float := 0x1.999999999999ap-1%float.
Definition f_0_2 : float := 0x1.999999999999ap-3%float.

(** ** The dataset object *)

Definition is_start_piece (piece : string) : bool :=
  negb (String.prefix "##" piece).

(** The attributes [__init__] stores on [self].  [samples_mapping] and
    [indexed_dataset] come from collaborators outside the module and are
    taken as data. *)
Record BertDataset : Type := {
  seed : Z;
  mask_lm_prob : float;
  max_seq_length : Z;
  binary_head : bool;
  max_preds_per_seq : Z;
  indexed_dataset : list (list Z);
  samples_mapping : list (Z * Z * Z);
  vocab_id_list : list Z;
  vocab_id_to_token_dict : gmap Z string;
  cls_id : Z;
  sep_id : Z;
  mask_id : Z;
  pad_id : Z
}.

(** [__init__]'s default for [max_preds_per_seq]:
    [math.ceil(max_seq_length * mask_lm_prob / 10) * 10]. *)
Definition default_max_preds_per_seq (max_seq_length : Z) (mask_lm_prob : float)
  : result Z :=
  x <- py_float max_seq_length ;;
  c <- py_ceil (x * mask_lm_prob / float_of_int 10)%float ;;
  Ok (c * 10).

(** ** The serializer *)

Section Serializer.

Variable self : BertDataset.

(** The loop of lines 316-319 over [zip(masked_positions, masked_labels)]. *)
Fixpoint fill_labels (num_tokens : Z) (pairs : list (Z * Z))
         (labels loss_mask : list Z) : result (list Z * list Z) :=
  match pairs with
  | [] => Ok (labels, loss_mask)
  | (idx, label) :: rest =>
      _ <- py_assert (idx <? num_tokens) "idx < num_tokens" ;;
      labels' <- py_setitem labels idx label ;;
      loss_mask' <- py_setitem loss_mask idx 1 ;;
      fill_labels num_tokens rest labels' loss_mask'
  end.

Definition pad_and_convert_to_numpy
           (tokens token_types masked_positions masked_labels : list Z)
  : result (list Z * list Z * list Z * list Z * list Z) :=
  let num_tokens := len tokens in
  let num_pad := max_seq_length self - num_tokens in
  _ <- py_assert (0 <=? num_pad) "num_pad >= 0" ;;
  _ <- py_assert (len token_types =? num_tokens) "len(token_types) == num_tokens" ;;
  _ <- py_assert (len masked_positions =? len masked_labels)
                 "len(masked_positions) == len(masked_labels)" ;;
  let filler := py_repeat (pad_id self) num_pad in
  tokens_np <- np_array_int64 (tokens ++ filler) ;;
  token_types_np <- np_array_int64 (token_types ++ filler) ;;
  padding_mask_np <- np_array_int64 (py_repeat 1 num_tokens ++ py_repeat 0 num_pad) ;;
  let labels := py_repeat (-1) (max_seq_length self) in
  let loss_mask := py_repeat 0 (max_seq_length self) in
  filled <- fill_labels num_tokens (zip masked_positions masked_labels)
                        labels loss_mask ;;
  let '(labels, loss_mask) := filled in
  labels_np <- np_array_int64 labels ;;
  loss_mask_np <- np_array_int64 loss_mask ;;
  Ok (tokens_np, token_types_np, labels_np, padding_mask_np, loss_mask_np).

End Serializer.

(** ** Splitting, truncation, assembly *)

Section Builder.

Context {R : Type} `{!RandomState R}.
Variable self : BertDataset.

(** [for j in js: acc.extend(sample[j])] *)
Fixpoint extend_from (sample : list (list Z)) (js : list Z) (acc : list Z)
  : result (list Z) :=
  match js with
  | [] => Ok acc
  | j :: js' => s <- py_index sample j ;; extend_from sample js' (acc ++ s)
  end.

(** Lines 127-144 of [create_random_sentence_pair]: the locals
    [tokens_a], [tokens_b], [is_next_random] on reaching the [return]. *)
Definition sentence_pair_locals (sample : list (list Z)) (np_rng : R)
  : result (list Z * list Z * bool * R) :=
  let num_sentences := len sample in
  _ <- py_assert (1 <? num_sentences) "num_sentences > 1" ;;
  d <- (if 3 <=? num_sentences then py_randint 1 num_sentences np_rng
        else Ok (1, np_rng)) ;;
  let '(a_end, np_rng) := d in
  tokens_a <- extend_from sample (py_range 0 a_end) [] ;;
  tokens_b <- extend_from sample (py_range a_end num_sentences) [] ;;
  let '(u, np_rng) := random np_rng in
  if (u <? f_0_5)%float
  then Ok (tokens_b, tokens_a, true, np_rng)
  else Ok (tokens_a, tokens_b, false, np_rng).

(** Line 146 returns [is_random_next]; the flag computed above is called
    [is_next_random], and no scope binds the other spelling. *)
Definition create_random_sentence_pair (sample : list (list Z)) (np_rng : R)
  : result (list Z * list Z * bool * R) :=
  l <- sentence_pair_locals sample np_rng ;;
  let '(tokens_a, tokens_b, is_next_random, np_rng) := l in
  is_random_next <- unbound_name "is_random_next" ;;
  Ok (tokens_a, tokens_b, is_random_next, np_rng).

(** The [while True] loop of [truncate_seq_pair].  Each turn pops one
    token, so [length tokens_a + length tokens_b] turns are enough
    ([fuel]; see [truncate_loop_fuel]).  Line 162 draws from [rng], a
    name that neither the function nor the module binds: the parameter is
    [np_rng]. *)
Fixpoint truncate_loop (fuel : nat) (tokens_a tokens_b : list Z)
         (len_a len_b max_num_tokens : Z) : result (list Z * list Z) :=
  let total_length := len_a + len_b in
  if total_length <=? max_num_tokens then Ok (tokens_a, tokens_b)
  else
    let trunc_a := len_b <? len_a in
    let trunc_tokens := if trunc_a then tokens_a else tokens_b in
    let len_a := if trunc_a then len_a - 1 else len_a in
    let len_b := if trunc_a then len_b else len_b - 1 in
    rng <- unbound_name (A := R) "rng" ;;
    let '(u, _) := random rng in
    trunc_tokens <- (if (u <? f_0_5)%float then pop_first trunc_tokens
                     else pop_last trunc_tokens) ;;
    let tokens_a := if trunc_a then trunc_tokens else tokens_a in
    let tokens_b := if trunc_a then tokens_b else trunc_tokens in
    match fuel with
    | O => Ok (tokens_a, tokens_b)
    | S fuel => truncate_loop fuel tokens_a tokens_b len_a len_b max_num_tokens
    end.

Definition truncate_seq_pair (tokens_a tokens_b : list Z) (max_num_tokens : Z)
           (np_rng : R) : result (list Z * list Z) :=
  truncate_loop (length tokens_a + length tokens_b) tokens_a tokens_b
                (len tokens_a) (len tokens_b) max_num_tokens.

Definition create_tokens_and_token_types (tokens_a tokens_b : list Z)
  : list Z * list Z :=
  let tokens := [cls_id self] ++ tokens_a ++ [sep_id self] ++ tokens_b ++ [sep_id self] in
  let token_types := py_repeat 0 (len tokens_a + 2) ++ py_repeat 1 (len tokens_b + 1) in
  (tokens, token_types).

(** ** The masking planner *)

(** [mask_token]: line 187 reads [np.rng], and numpy has no such
    attribute (the random state is [np_rng]). *)
Definition mask_token (idx : nat) (tokens : list Z) (np_rng : R)
  : result (list Z * Z * R) :=
  label <- py_index tokens (Z.of_nat idx) ;;
  let '(u, np_rng) := random np_rng in
  d <- (if (u <? f_0_8)%float then Ok (mask_id self, np_rng)
        else
          let '(v, np_rng) := random np_rng in
          if (v <? f_0_5)%float then Ok (label, np_rng)
          else
            np_dot_rng <- missing_attribute (A := R) "np" "rng" ;;
            k <- py_randint 0 (len (vocab_id_list self)) np_dot_rng ;;
            w <- py_index (vocab_id_list self) (fst k) ;;
            Ok (w, np_rng)) ;;
  let '(new_label, np_rng) := d in
  tokens <- py_setitem tokens (Z.of_nat idx) new_label ;;
  Ok (tokens, label, np_rng).

Definition is_special (token : Z) : bool :=
  (token =? cls_id self) || (token =? sep_id self).

(** [self.vocab_id_to_token_dict[token]] *)
Definition piece_of (token : Z) : result string :=
  match vocab_id_to_token_dict self !! token with
  | Some piece => Ok piece
  | None => Raise (KeyError token)
  end.

(** [cand_indexes[-1].append(i)] *)
Definition append_to_last (cand_indexes : list (list nat)) (i : nat)
  : result (list (list nat)) :=
  match last cand_indexes with
  | None => Raise IndexError
  | Some group => Ok (removelast cand_indexes ++ [group ++ [i]])
  end.

(** Lines 204-217: the scan that groups positions into words.  [i] is
    the position of the head of [tokens]. *)
Fixpoint cand_scan (do_whole_word_mask : bool) (i : nat) (tokens : list Z)
         (cand_indexes : list (list nat)) : result (list (list nat)) :=
  match tokens with
  | [] => Ok cand_indexes
  | token :: rest =>
      if is_special token then cand_scan do_whole_word_mask (S i) rest cand_indexes
      else
        continues <- (if do_whole_word_mask && (1 <=? len cand_indexes)
                      then piece <- piece_of token ;; Ok (negb (is_start_piece piece))
                      else Ok false) ;;
        cand_indexes <- (if continues : bool then append_to_last cand_indexes i
                         else Ok (cand_indexes ++ [[i]])) ;;
        cand_scan do_whole_word_mask (S i) rest cand_indexes
  end.

(** Line 221. *)
Definition num_to_predict (tokens : list Z) : result Z :=
  r <- py_round (float_of_int (len tokens) * mask_lm_prob self)%float ;;
  Ok (Z.min (max_preds_per_seq self) (Z.max 1 r)).

(** [np.arange(1, max_ngrams + 1)] *)
Definition ngrams_of (max_ngrams : Z) : list Z := py_range 1 (max_ngrams + 1).

(** [p / p.sum(keepdims=True)], summed left to right (numpy does so
    below eight entries; [max_ngrams] defaults to 3). *)
Definition normalise (p : list float) : list float :=
  let s := fold_left PrimFloat.add p 0%float in
  map (fun x => x / s)%float p.

(** Lines 226-229. *)
Definition pvals_of (max_ngrams : Z) (favor_longer_ngram : bool) : list float :=
  let pvals := normalise (map (fun k => 1 / float_of_int k)%float (ngrams_of max_ngrams)) in
  if favor_longer_ngram then rev pvals else pvals.

(** Lines 231-236. *)
Definition ngram_indexes_of (cand_indexes : list (list nat)) (ngrams : list Z)
  : list (list (list (list nat))) :=
  map (fun idx => map (fun n => py_slice cand_indexes idx (idx + n)) ngrams)
      (py_range 0 (len cand_indexes)).

(** The variables the main loop updates. *)
Record mask_state : Type := MaskState {
  output_tokens : list Z;
  masked_lms : list (nat * Z);
  covered_indexes : gset nat;
  rng_state : R
}.

(** The state after a draw that left the random state at [g]. *)
Definition set_rng (st : mask_state) (g : R) : mask_state :=
  MaskState (output_tokens st) (masked_lms st) (covered_indexes st) g.

(** Lines 248-251.  The [continue] belongs to the innermost loop, so the
    scan changes nothing; only the subscript [cand_index_set[0]] is
    evaluated. *)
Definition scan_first_ngram (cand_index_set : list (list (list nat)))
           (covered : gset nat) : result unit :=
  first <- py_index cand_index_set 0 ;;
  Ok (fold_left
        (fun u index_set =>
           fold_left (fun u index => if bool_decide (index ∈ covered) then u else u)
                     index_set u)
        first tt).

(** Lines 267-271: retry with shorter n-grams while the budget is
    exceeded.  [count] is [len(masked_lms)].  At most [n] turns run when
    [n >= 0], and a negative [n] runs off the list within
    [len(cand_index_set)] turns ([fuel]; see [shorten_fuel]). *)
Fixpoint shorten (fuel : nat) (cand_index_set : list (list (list nat)))
         (count num_to_predict : Z) (index_set : list nat) (n : Z)
  : result (list nat * Z) :=
  if num_to_predict <? count + len index_set then
    if n =? 0 then Ok (index_set, n)
    else
      s <- py_index cand_index_set (n - 1) ;;
      match fuel with
      | O => Ok (concat s, n - 1)
      | S fuel => shorten fuel cand_index_set count num_to_predict (concat s) (n - 1)
      end
  else Ok (index_set, n).

(** Lines 283-286. *)
Fixpoint commit (index_set : list nat) (st : mask_state) : result mask_state :=
  match index_set with
  | [] => Ok st
  | index :: rest =>
      m <- mask_token index (output_tokens st) (rng_state st) ;;
      let '(tokens, label, g) := m in
      commit rest (MaskState tokens (masked_lms st ++ [(index, label)])
                             ({[index]} ∪ covered_indexes st) g)
  end.

(** Lines 253-261: the draw of the n-gram length. *)
Definition draw_n (geometric_dist : bool) (max_ngrams : Z) (ngrams : list Z)
           (pvals : list float) (cand_index_set : list (list (list nat))) (g : R)
  : result (Z * R) :=
  if negb geometric_dist then
    let k := len cand_index_set in
    py_choice (py_slice ngrams 0 k) (normalise (py_slice pvals 0 k)) g
  else
    let '(v, g) := geometric f_0_2 g in
    Ok (Z.min v max_ngrams, g).

(** One turn of the loop of line 242, below its [break] test. *)
Definition process_candidate (geometric_dist : bool) (max_ngrams : Z)
           (ngrams : list Z) (pvals : list float) (num_to_predict : Z)
           (cand_index_set : list (list (list nat))) (st : mask_state)
  : result mask_state :=
  match cand_index_set with
  | [] => Ok st
  | _ :: _ =>
      _ <- scan_first_ngram cand_index_set (covered_indexes st) ;;
      d <- draw_n geometric_dist max_ngrams ngrams pvals cand_index_set (rng_state st) ;;
      let '(n, g) := d in
      let st := set_rng st g in
      s <- py_index cand_index_set (n - 1) ;;
      let index_set := concat s in
      let n := n - 1 in
      r <- shorten (Z.to_nat n + length cand_index_set) cand_index_set
                   (len (masked_lms st)) num_to_predict index_set n ;;
      let index_set := fst r in
      if num_to_predict <? len (masked_lms st) + len index_set then Ok st
      else if existsb (fun index => bool_decide (index ∈ covered_indexes st)) index_set
           then Ok st
           else commit index_set st
  end.

(** The loop of line 242. *)
Fixpoint mask_loop (geometric_dist : bool) (max_ngrams : Z) (ngrams : list Z)
         (pvals : list float) (num_to_predict : Z)
         (ngram_indexes : list (list (list (list nat)))) (st : mask_state)
  : result mask_state :=
  match ngram_indexes with
  | [] => Ok st
  | cand_index_set :: rest =>
      if num_to_predict <=? len (masked_lms st) then Ok st
      else
        st <- process_candidate geometric_dist max_ngrams ngrams pvals
                                num_to_predict cand_index_set st ;;
        mask_loop geometric_dist max_ngrams ngrams pvals num_to_predict rest st
  end.

(** [sorted(masked_lms, key=lambda x: x.index)]: a stable sort. *)
Fixpoint insert_by_index (p : nat * Z) (l : list (nat * Z)) : list (nat * Z) :=
  match l with
  | [] => [p]
  | q :: l' => if (fst p <=? fst q)%nat then p :: l else q :: insert_by_index p l'
  end.

Definition sorted_by_index (l : list (nat * Z)) : list (nat * Z) :=
  foldr insert_by_index [] l.

(** [create_masked_lm_predictions].  Line 202 returns [output_tokens],
    which the function assigns only at line 219. *)
Definition create_masked_lm_predictions (tokens : list Z) (np_rng : R)
           (max_ngrams : Z)
           (do_whole_word_mask favor_longer_ngram geometric_dist : bool)
  : result (list Z * list nat * list Z * R) :=
  let masked_positions : list nat := [] in
  let masked_labels : list Z := [] in
  if (mask_lm_prob self =? 0)%float then
    output_tokens <- unbound_local "output_tokens" ;;
    Ok (output_tokens, masked_positions, masked_labels, np_rng)
  else
    cand_indexes <- cand_scan do_whole_word_mask 0 tokens [] ;;
    num_to_predict <- num_to_predict tokens ;;
    let ngrams := ngrams_of max_ngrams in
    let pvals := if geometric_dist then [] else pvals_of max_ngrams favor_longer_ngram in
    let ngram_indexes := ngram_indexes_of cand_indexes ngrams in
    let '(ngram_indexes, np_rng) := shuffle ngram_indexes np_rng in
    (* output_tokens = list(tokens); masked_lms = []; covered_indexes = set() *)
    st <- mask_loop geometric_dist max_ngrams ngrams pvals num_to_predict ngram_indexes
                    (MaskState tokens [] ∅ np_rng) ;;
    let sorted_lms := sorted_by_index (masked_lms st) in
    Ok (output_tokens st, map fst sorted_lms, map snd sorted_lms, rng_state st).

(** ** Sample construction *)

(** The values of the returned dictionary. *)
Inductive value : Type :=
| Arr (a : list Z)
| Int (n : Z).

(** [create_training_sample].  The dictionary literal of lines 111-119
    lists seven keys; the last value reads [truncated], which nothing
    binds (and a stray closing brace follows the literal). *)
Definition create_training_sample (sample : list (list Z)) (target_seq_length : Z)
           (np_rng : R) : result (list (string * value)) :=
  _ <- (if binary_head self then py_assert (1 <? len sample) "len(sample) > 1"
        else Ok tt) ;;
  _ <- py_assert (target_seq_length <=? max_seq_length self)
                 "target_seq_length <= self.max_seq_length" ;;
  d <- (if binary_head self then create_random_sentence_pair sample np_rng
        else
          tokens_a <- extend_from sample (py_range 0 (len sample)) [] ;;
          Ok (tokens_a, [], false, np_rng)) ;;
  let '(tokens_a, tokens_b, is_next_random, np_rng) := d in
  let max_num_tokens := target_seq_length in
  t <- truncate_seq_pair tokens_a tokens_b max_num_tokens np_rng ;;
  let '(tokens_a, tokens_b) := t in
  let '(tokens, token_types) := create_tokens_and_token_types tokens_a tokens_b in
  m <- create_masked_lm_predictions tokens np_rng 3 true false false ;;
  let '(tokens, masked_positions, masked_labels, np_rng) := m in
  a <- pad_and_convert_to_numpy self tokens token_types
                                (map Z.of_nat masked_positions) masked_labels ;;
  let '(tokens_np, token_types_np, labels_np, padding_mask_np, loss_mask_np) := a in
  truncated <- unbound_name "truncated" ;;
  Ok [("text", Arr tokens_np);
      ("types", Arr token_types_np);
      ("labels", Arr labels_np);
      ("is_random", Int (int_of_bool is_next_random));
      ("loss_mask", Arr loss_mask_np);
      ("padding_mask", Arr padding_mask_np);
      ("truncated", Int (int_of_bool truncated))]%string.

(** [[self.indexed_dataset[i] for i in range(start_idx, end_idx)]] *)
Fixpoint gather (dataset : list (list Z)) (ids : list Z) : result (list (list Z)) :=
  match ids with
  | [] => Ok []
  | i :: ids' =>
      s <- py_index dataset i ;;
      rest <- gather dataset ids' ;;
      Ok (s :: rest)
  end.

(** [__getitem__] *)
Definition __getitem__ (idx : Z) : result (list (string * value)) :=
  row <- py_index (samples_mapping self) idx ;;
  let '(start_idx, end_idx, seq_length) := row in
  sample <- gather (indexed_dataset self) (py_range start_idx end_idx) ;;
  let np_rng := seed_state ((seed self + idx) mod 2 ^ 32) in
  create_training_sample sample seq_length np_rng.

End Builder.

(** ** A random state for running the builder

    A state that replays a tape of raw draws.  It meets the contract of
    [RandomState] and serves to run the functions above on concrete
    samples. *)

Module Tape.

Definition next (t : list Z) : Z * list Z :=
  match t with
  | [] => (0, [])
  | x :: t' => (x, t')
  end.

(** A draw [x] stands for the float [(x mod 1000) / 1000]. *)
Definition random (t : list Z) : float * list Z :=
  let '(x, t') := next t in
  ((float_of_int (x mod 1000) / float_of_int 1000)%float, t').

Definition randint (lo hi : Z) (t : list Z) : Z * list Z :=
  let '(x, t') := next t in (lo + x mod (hi - lo), t').

Fixpoint insert_at {A : Type} (k : nat) (x : A) (l : list A) : list A :=
  match k, l with
  | S k', y :: l' => y :: insert_at k' x l'
  | _, _ => x :: l
  end.

(** Each element is inserted at a drawn position among the ones already
    placed. *)
Fixpoint shuffle {A : Type} (l : list A) (t : list Z) : list A * list Z :=
  match l with
  | [] => ([], t)
  | x :: l' =>
      let '(s, t1) := shuffle l' t in
      let '(d, t2) := next t1 in
      (insert_at (Z.to_nat (d mod (len s + 1))) x s, t2)
  end.

Definition choice (a : list Z) (p : list float) (t : list Z) : Z * list Z :=
  let '(x, t') := next t in (nth (Z.to_nat (x mod len a)) a 0, t').

Definition geometric (p : float) (t : list Z) : Z * list Z :=
  let '(x, t') := next t in (1 + Z.abs x, t').

Definition seed_state (s : Z) : list Z :=
  map (fun k => (s * 1103515245 + 12345 * Z.of_nat k) mod 2 ^ 31) (seq 0 64).

End Tape.

(** ** A small dataset

    The two-sentence document of the design document's example, with a
    word-piece vocabulary: [cls=1], [sep=2], [mask=3], [pad=0],
    [max_seq_length=20] and [mask_lm_prob=0.15]. *)

Module Demo.

Definition vocab : gmap Z string :=
  list_to_map
    [(0, "[PAD]"); (1, "[CLS]"); (2, "[SEP]"); (3, "[MASK]");
     (101, "play"); (102, "##ing"); (103, "the");
     (201, "gui"); (202, "##tar"); (203, "##s"); (204, "now")]%string.

Definition dataset (binary : bool) (prob : float) : BertDataset := {|
  seed := 1234;
  mask_lm_prob := prob;
  max_seq_length := 20;
  binary_head := binary;
  max_preds_per_seq := 20;
  indexed_dataset := [[101; 102; 103]; [201; 202; 203; 204]];
  samples_mapping := [(0, 2, 10); (0, 1, 10)];
  vocab_id_list := [0; 1; 2; 3; 101; 102; 103; 201; 202; 203; 204];
  vocab_id_to_token_dict := vocab;
  cls_id := 1;
  sep_id := 2;
  mask_id := 3;
  pad_id := 0
|}.

Definition f_0_15 : float := 0x1.3333333333333p-3%float.

Definition bert : BertDataset := dataset true f_0_15.

(** [[CLS] play ##ing the [SEP] gui ##tar ##s now [SEP]] *)
Definition tokens : list Z := [1; 101; 102; 103; 2; 201; 202; 203; 204; 2].
Definition token_types : list Z := [0; 0; 0; 0; 0; 1; 1; 1; 1; 1].

(** Draws under which the planner masks [the] and [now]. *)
Definition tape : list Z := [3; 1; 2; 5; 1; 100; 900; 100; 2; 100; 200; 300].

(** Draws that keep the candidates in order, draw the 3-gram starting at
    [play] and mask with [mask_id]: the budget of two positions forces
    the 1-gram [play ##ing]. *)
Definition tape_shorten : list Z := [0; 0; 0; 0; 2; 0; 0; 5].

(** The same document with half of the tokens to predict (a budget of
    five), and draws under which the 2-gram [play ##ing the] is
    committed, [the] is then skipped as covered, [gui ##tar ##s] is
    skipped as over budget and [now] is committed unchanged. *)
Definition half : BertDataset := dataset true 0x1p-1%float.
Definition tape_overlap : list Z := [0; 0; 0; 0; 1; 0; 0; 0; 0; 0; 0; 900; 100; 7].

(** A word whose continuation piece follows the separator:
    [[CLS] play [SEP] ##ing the [SEP]]. *)
Definition straddling : list Z := [1; 101; 2; 102; 103; 2].

End Demo.

(** ** Notions used in the statements *)

(** A label and its loss-mask entry agree. *)
Definition aligned (label m : Z) : Prop :=
  (m = 1 <-> label <> -1) /\ (m = 0 <-> label = -1).

Section Notions.

Context {R : Type} `{!RandomState R}.
Variable self : BertDataset.

(** Position [q] holds a token other than [cls] and [sep]. *)
Definition candidate_pos (tokens : list Z) (q : nat) : Prop :=
  exists token, tokens !! q = Some token /\ is_special self token = false.

(** Position [q] holds a continuation piece of a word: a token other
    than [cls] and [sep] whose surface piece is not a start piece. *)
Definition continuation (tokens : list Z) (q : nat) : Prop :=
  exists token piece,
    tokens !! q = Some token /\ is_special self token = false
    /\ vocab_id_to_token_dict self !! token = Some piece
    /\ is_start_piece piece = false.

(** What the scan has established on reaching position [i]. *)
Record scan_inv (tokens : list Z) (whole_word : bool) (i : nat)
       (c : list (list nat)) : Prop := {
  inv_below : Forall (fun q => (q < i)%nat) (concat c);
  inv_cand : Forall (candidate_pos tokens) (concat c);
  inv_nodup : NoDup (concat c);
  inv_front : forall c1 g, c = c1 ++ [g] -> Forall (fun p => (S p < i)%nat) (concat c1);
  inv_word : whole_word = true ->
             forall g p, g ∈ c -> p ∈ g -> (S p < i)%nat ->
                         continuation tokens (S p) -> S p ∈ g
}.

(** A run of consecutive word groups. *)
Definition span (c s : list (list nat)) : Prop :=
  exists m k, s = take k (drop m c).

(** The masked positions, in the order they were committed. *)
Definition positions (st : mask_state (R := R)) : list nat := map fst (masked_lms st).

(** What holds of the plan between any two commits: the output differs
    from the input only at masked positions; no position is masked
    twice; the covered set is the set of masked positions; every masked
    position belongs to a word group; every label is the original id. *)
Record plan_inv (tokens : list Z) (c : list (list nat)) (st : mask_state (R := R))
  : Prop := {
  plan_length : length (output_tokens st) = length tokens;
  plan_frame : forall q, q ∉ positions st -> output_tokens st !! q = tokens !! q;
  plan_nodup : NoDup (positions st);
  plan_covered : forall q, q ∈ positions st <-> q ∈ covered_indexes st;
  plan_groups : forall q, q ∈ positions st -> q ∈ concat c;
  plan_labels : forall p l, (p, l) ∈ masked_lms st -> tokens !! p = Some l
}.

(** Turns the loop of lines 267-271 can still take from [n]. *)
Definition turns_left (len_set n : Z) : nat :=
  Z.to_nat (if 0 <=? n then n else len_set + n).

(** Some position of [index_set] is already covered. *)
Definition overlaps (index_set : list nat) (covered : gset nat) : Prop :=
  exists q, q ∈ index_set /\ q ∈ covered.

(** A turn that drew the length [N], leaving the random state at [g],
    and settled on the [M]-gram [s]: [M] is at most [N]; every length
    between them was tried and exceeded the budget [B]; the turn changes
    nothing but the random state when [s] exceeds the budget too (then
    [M = 1]) or overlaps the covered set; otherwise it commits every
    position of [s]. *)
Record turn (B : Z) (cis : list (list (list nat))) (st st' : mask_state (R := R))
       (N : Z) (g : R) (M : Z) (s : list (list nat)) : Prop := {
  turn_range : 1 <= M <= N /\ N <= len cis;
  turn_span : py_index cis (M - 1) = Ok s;
  turn_longer : forall K, M < K <= N ->
                          exists s', py_index cis (K - 1) = Ok s'
                                     /\ B < len (masked_lms st) + len (concat s');
  turn_last : B < len (masked_lms st) + len (concat s) -> M = 1;
  turn_skip : B < len (masked_lms st) + len (concat s)
              \/ overlaps (concat s) (covered_indexes st) ->
              st' = set_rng st g;
  turn_commit : ~ B < len (masked_lms st) + len (concat s) ->
                ~ overlaps (concat s) (covered_indexes st) ->
                commit self (concat s) (set_rng st g) = Ok st'
}.

(** [plan_inv], the budget (which a negative [B] cannot make smaller
    than the empty plan), and whole words: a group with one masked
    position has all its positions masked. *)
Record loop_inv (tokens : list Z) (c : list (list nat)) (B : Z)
       (st : mask_state (R := R)) : Prop := {
  loop_plan : plan_inv tokens c st;
  loop_budget : len (masked_lms st) <= Z.max 0 B;
  loop_whole : forall grp p q, grp ∈ c -> p ∈ grp -> q ∈ grp ->
                               p ∈ positions st -> q ∈ positions st
}.

End Notions.

(** ** Notions used in further statements *)

(** [__len__] *)
Definition __len__ (self : BertDataset) : Z := len (samples_mapping self).

Section MoreNotions.

Variable self : BertDataset.

(** The positions, counted from [i], at which [tokens] holds neither
    [cls] nor [sep], in ascending order. *)
Fixpoint candidate_positions (i : nat) (tokens : list Z) : list nat :=
  match tokens with
  | [] => []
  | token :: rest =>
      if is_special self token then candidate_positions (S i) rest
      else i :: candidate_positions (S i) rest
  end.

(** The tokens other than [cls] and [sep], in order. *)
Definition candidate_tokens (tokens : list Z) : list Z :=
  List.filter (fun token => negb (is_special self token)) tokens.

(** The vocabulary has a surface piece for [token]. *)
Definition has_piece (token : Z) : Prop :=
  is_Some (vocab_id_to_token_dict self !! token).

(** Position [h] holds a token whose surface piece is a start piece. *)
Definition start_piece_at (tokens : list Z) (h : nat) : Prop :=
  exists token piece,
    tokens !! h = Some token
    /\ vocab_id_to_token_dict self !! token = Some piece
    /\ is_start_piece piece = true.

(** No position before [h] holds a candidate token. *)
Definition first_candidate (tokens : list Z) (h : nat) : Prop :=
  forall q, (q < h)%nat -> ~ candidate_pos self tokens q.

(** A word group: a head that opens a word (a start piece, or the very
    first candidate) followed by continuation pieces. *)
Definition word_group (tokens : list Z) (g : list nat) : Prop :=
  exists h tl,
    g = h :: tl
    /\ Forall (continuation self tokens) tl
    /\ (first_candidate tokens h \/ start_piece_at tokens h).

End MoreNotions.

Section PlanNotions.

Context {R : Type} `{!RandomState R}.
Variable self : BertDataset.

(** Every token of the output is the input token or [mask_id]. *)
Definition written (tokens : list Z) (st : mask_state (R := R)) : Prop :=
  forall q, output_tokens st !! q = tokens !! q
            \/ output_tokens st !! q = Some (mask_id self).

End PlanNotions.

(** The number of entries of a mask that are 1. *)
Fixpoint count_ones (l : list Z) : nat :=
  match l with
  | [] => 0
  | v :: l' => if v =? 1 then S (count_ones l') else count_ones l'
  end.

(** * Properties *)

(** ** The tape meets the contract of the random state *)

Lemma tape_randint_range lo hi (t : list Z) :
  lo < hi -> lo <= fst (Tape.randint lo hi t) < hi.
Proof.
  intros Hlt. unfold Tape.randint. destruct (Tape.next t) as [x t']. simpl.
  pose proof (Z.mod_pos_bound x (hi - lo)). lia.
Qed.

Lemma insert_at_perm {A : Type} (k : nat) (x : A) (l : list A) :
  Permutation (x :: l) (Tape.insert_at k x l).
Proof.
  revert k. induction l as [|y l IH]; intros [|k]; simpl; try reflexivity.
  rewrite <- IH. apply perm_swap.
Qed.

Lemma tape_shuffle_perm (A : Type) (l : list A) (t : list Z) :
  Permutation l (fst (Tape.shuffle l t)).
Proof.
  revert t. induction l as [|x l IH]; intros t; simpl; [reflexivity|].
  specialize (IH t). destruct (Tape.shuffle l t) as [s t1].
  destruct (Tape.next t1) as [d t2]. simpl in *.
  rewrite <- insert_at_perm. now constructor.
Qed.

Lemma tape_choice_elem (a : list Z) (p : list float) (t : list Z) :
  a <> [] -> In (fst (Tape.choice a p t)) a.
Proof.
  intros Ha. unfold Tape.choice. destruct (Tape.next t) as [x t']. simpl.
  apply nth_In. unfold len.
  assert (0 < Z.of_nat (length a)) by (destruct a; [congruence | simpl; lia]).
  pose proof (Z.mod_pos_bound x (Z.of_nat (length a))). lia.
Qed.

Lemma tape_geometric_pos (p : float) (t : list Z) :
  1 <= fst (Tape.geometric p t).
Proof.
  unfold Tape.geometric. destruct (Tape.next t) as [x t']. simpl. lia.
Qed.

#[export] Instance tape_random_state : RandomState (list Z) := {|
  seed_state := Tape.seed_state;
  random := Tape.random;
  randint := Tape.randint;
  shuffle := @Tape.shuffle;
  choice := Tape.choice;
  geometric := Tape.geometric;
  randint_range := tape_randint_range;
  shuffle_perm := tape_shuffle_perm;
  choice_elem := tape_choice_elem;
  geometric_pos := tape_geometric_pos
|}.

(** ** Reading results *)

Lemma bind_Ok {A B : Type} (c : result A) (k : A -> result B) (b : B) :
  bind c k = Ok b -> exists a, c = Ok a /\ k a = Ok b.
Proof. destruct c as [a|e]; simpl; [eauto | discriminate]. Qed.

Lemma py_assert_Ok (b : bool) (cond : string) (u : unit) :
  py_assert b cond = Ok u -> b = true.
Proof. destruct b; [reflexivity | discriminate]. Qed.

Lemma np_array_int64_Ok (l l' : list Z) : np_array_int64 l = Ok l' -> l' = l.
Proof. unfold np_array_int64. destruct (forallb fits_int64 l); congruence. Qed.

(** Split [H : bind c k = Ok b] into the two steps it stands for. *)
Ltac inv_bind H :=
  let a := fresh "a" in
  let Ha := fresh "Ha" in
  apply bind_Ok in H; destruct H as (a & Ha & H).

Lemma norm_index_lt (n i : Z) (j : nat) :
  norm_index n i = Some j -> Z.of_nat j < n.
Proof.
  unfold norm_index. intros Hn.
  destruct (i <? 0) eqn:Hi;
    destruct ((0 <=? _) && (_ <? n)) eqn:Hb; try discriminate;
    apply andb_prop in Hb as [H0 H1]; injection Hn as <-; lia.
Qed.

Lemma norm_index_of_nat (n : Z) (i : nat) :
  norm_index n (Z.of_nat i) = if Z.of_nat i <? n then Some i else None.
Proof.
  unfold norm_index.
  replace (Z.of_nat i <? 0) with false by (symmetry; apply Z.ltb_ge; lia).
  replace (0 <=? Z.of_nat i) with true by (symmetry; apply Z.leb_le; lia).
  simpl. rewrite Nat2Z.id. reflexivity.
Qed.

Lemma py_index_nat {A : Type} (l : list A) (i : nat) (x : A) :
  py_index l (Z.of_nat i) = Ok x <-> l !! i = Some x.
Proof.
  unfold py_index, len. rewrite norm_index_of_nat.
  destruct (Z.of_nat i <? Z.of_nat (length l)) eqn:Hlt.
  - destruct (l !! i); split; congruence.
  - apply Z.ltb_ge in Hlt. rewrite lookup_ge_None_2 by lia. split; discriminate.
Qed.

Lemma py_index_In {A : Type} (l : list A) (i : Z) (x : A) :
  py_index l i = Ok x -> In x l.
Proof.
  unfold py_index. destruct (norm_index (len l) i) as [j|]; [|discriminate].
  destruct (l !! j) as [y|] eqn:Hj; [|discriminate].
  intros [= <-]. apply list_elem_of_In. eapply list_elem_of_lookup_2; eauto.
Qed.

Lemma py_setitem_nat {A : Type} (l l' : list A) (i : nat) (x : A) :
  py_setitem l (Z.of_nat i) x = Ok l' -> l' = <[i := x]> l /\ (i < length l)%nat.
Proof.
  unfold py_setitem, len. rewrite norm_index_of_nat.
  destruct (Z.of_nat i <? Z.of_nat (length l)) eqn:Hlt; [|discriminate].
  apply Z.ltb_lt in Hlt. intros [= <-]. split; [reflexivity | lia].
Qed.

Lemma elem_of_concat {A : Type} (ls : list (list A)) (x : A) :
  x ∈ concat ls <-> exists l, l ∈ ls /\ x ∈ l.
Proof.
  rewrite list_elem_of_In, in_concat. split; intros (l & Hl & Hx); exists l.
  - rewrite !list_elem_of_In. auto.
  - rewrite <- !list_elem_of_In. auto.
Qed.

(** ** The serializer (C1) *)

Lemma fill_labels_aligned (num_tokens : Z) (pairs : list (Z * Z)) :
  forall labels loss_mask labels' loss_mask',
    Forall (fun p => 0 <= snd p) pairs ->
    Forall2 aligned labels loss_mask ->
    fill_labels num_tokens pairs labels loss_mask = Ok (labels', loss_mask') ->
    Forall2 aligned labels' loss_mask' /\ length labels' = length labels.
Proof.
  induction pairs as [|[idx label] rest IH]; intros labels loss_mask labels' loss_mask' Hp Hal H.
  - simpl in H. injection H as <- <-. auto.
  - simpl in H. inv_bind H. inv_bind H. inv_bind H.
    apply Forall_cons in Hp as [Hlabel Hrest]. simpl in Hlabel.
    unfold py_setitem in Ha0, Ha1.
    pose proof (Forall2_length _ _ _ Hal) as Hlen.
    unfold len in *. rewrite <- Hlen in Ha1.
    destruct (norm_index (Z.of_nat (length labels)) idx) as [j|]; [|discriminate].
    injection Ha0 as <-. injection Ha1 as <-.
    apply IH in H; [| assumption |].
    + destruct H as [H1 H2]. split; [assumption|]. rewrite H2. apply length_insert.
    + apply Forall2_insert; [assumption|]. unfold aligned. lia.
Qed.

(** The loss mask is set exactly at the positions the subscripts of the
    pairs denote. *)
Lemma fill_labels_marks (num_tokens : Z) (pairs : list (Z * Z)) :
  forall labels loss_mask labels' loss_mask',
    length labels = length loss_mask ->
    fill_labels num_tokens pairs labels loss_mask = Ok (labels', loss_mask') ->
    forall i,
      loss_mask' !! i = Some 1
      <-> (loss_mask !! i = Some 1
           \/ exists p, p ∈ pairs /\ norm_index (len labels) (fst p) = Some i).
Proof.
  induction pairs as [|[idx label] rest IH];
    intros labels loss_mask labels' loss_mask' Hlen H i.
  - simpl in H. injection H as <- <-. split; [auto|].
    intros [Hi|(p & Hp & _)]; [exact Hi | inversion Hp].
  - simpl in H. inv_bind H. inv_bind H. inv_bind H.
    unfold py_setitem, len in Ha0, Ha1. rewrite <- Hlen in Ha1.
    destruct (norm_index (Z.of_nat (length labels)) idx) as [j|] eqn:Hj; [|discriminate].
    injection Ha0 as <-. injection Ha1 as <-.
    pose proof (norm_index_lt _ _ _ Hj) as Hjlt.
    assert (Hlen' : length (<[j := label]> labels) = length (<[j := 1]> loss_mask))
      by (rewrite !length_insert; exact Hlen).
    rewrite (IH _ _ _ _ Hlen' H i).
    unfold len. rewrite length_insert, list_lookup_insert_Some.
    split.
    + intros [[(-> & _ & _)|(_ & Hi)]|(p & Hp & Hn)].
      * right. exists (idx, label). split; [left | exact Hj].
      * left. exact Hi.
      * right. exists p. split; [right; exact Hp | exact Hn].
    + intros [Hi|(p & Hp & Hn)].
      * destruct (decide (j = i)) as [->|Hne]; left; [left | right; auto].
        repeat split; auto. lia.
      * apply elem_of_cons in Hp as [->|Hp].
        -- simpl in Hn. unfold len in Hn. rewrite Hj in Hn. injection Hn as ->.
           left. left. repeat split; auto. lia.
        -- right. exists p. auto.
Qed.

Lemma Forall2_replicate_aligned (n : nat) :
  Forall2 aligned (replicate n (-1)) (replicate n 0).
Proof. induction n; simpl; constructor; [unfold aligned; lia | assumption]. Qed.

(** C1.  Whenever the serializer returns, its five arrays have length
    [max_seq_length]; the padding mask is a run of ones over the real
    tokens followed by zeros over the padding (and the tokens are the
    real tokens followed by [pad_id]); the loss mask is 1 exactly at
    the positions the given subscripts denote; and, the recorded labels
    being non-negative token ids, [loss_mask[i] = 1] exactly where
    [labels[i] <> -1] (elsewhere the mask is 0 and the label is -1). *)
Theorem serializer_arrays_aligned
        (self : BertDataset)
        (tokens token_types masked_positions masked_labels : list Z)
        (tokens_np token_types_np labels_np padding_mask_np loss_mask_np : list Z) :
  pad_and_convert_to_numpy self tokens token_types masked_positions masked_labels
  = Ok (tokens_np, token_types_np, labels_np, padding_mask_np, loss_mask_np) ->
  Forall (fun label => 0 <= label) masked_labels ->
  let L := Z.to_nat (max_seq_length self) in
  let n := length tokens in
  (len tokens_np = max_seq_length self /\ len token_types_np = max_seq_length self
   /\ len labels_np = max_seq_length self /\ len padding_mask_np = max_seq_length self
   /\ len loss_mask_np = max_seq_length self)
  /\ (n <= L)%nat
  /\ padding_mask_np = replicate n 1 ++ replicate (L - n) 0
  /\ tokens_np = tokens ++ replicate (L - n) (pad_id self)
  /\ (forall i, loss_mask_np !! i = Some 1
                <-> exists idx, idx ∈ masked_positions
                                /\ norm_index (max_seq_length self) idx = Some i)
  /\ (forall i, (i < L)%nat ->
       exists label m,
         labels_np !! i = Some label /\ loss_mask_np !! i = Some m
         /\ (m = 1 <-> label <> -1) /\ (m = 0 <-> label = -1)).
Proof.
  intros H Hlabels L n. unfold pad_and_convert_to_numpy in H.
  inv_bind H. apply py_assert_Ok, Z.leb_le in Ha.
  inv_bind H. apply py_assert_Ok, Z.eqb_eq in Ha0.
  inv_bind H. apply py_assert_Ok, Z.eqb_eq in Ha1.
  inv_bind H. apply np_array_int64_Ok in Ha2. subst a2.
  inv_bind H. apply np_array_int64_Ok in Ha2. subst a2.
  inv_bind H. apply np_array_int64_Ok in Ha2. subst a2.
  inv_bind H. destruct a2 as [labels loss_mask].
  inv_bind H. apply np_array_int64_Ok in Ha3. subst a2.
  inv_bind H. apply np_array_int64_Ok in Ha3. subst a2.
  injection H as <- <- <- <- <-.
  unfold len, py_repeat in *.
  assert (Hpad : Z.to_nat (max_seq_length self - Z.of_nat (length tokens)) = (L - n)%nat)
    by (subst L n; lia).
  assert (Hn : (n <= L)%nat) by (subst L n; lia).
  assert (HL : Z.of_nat L = max_seq_length self) by (subst L; lia).
  assert (Hinit : length (replicate (Z.to_nat (max_seq_length self)) (-1))
                  = length (replicate (Z.to_nat (max_seq_length self)) 0))
    by (rewrite !length_replicate; reflexivity).
  pose proof (fill_labels_marks _ _ _ _ _ _ Hinit Ha2) as Hmarks. clear Hinit.
  apply fill_labels_aligned in Ha2 as [Hal Hlen].
  - rewrite length_replicate in Hlen. fold L in Hlen.
    pose proof (Forall2_length _ _ _ Hal) as Hlen2.
    rewrite Hpad, Nat2Z.id. fold n.
    repeat rewrite length_app. repeat rewrite length_replicate. fold n.
    split; [repeat split; lia|]. split; [exact Hn|]. split; [reflexivity|].
    split; [reflexivity|]. split.
    { intros i. rewrite (Hmarks i). unfold len. rewrite length_replicate. fold L.
      rewrite HL. split.
      - intros [Hrep|([idx label] & Hp & Hidx)].
        + apply lookup_replicate in Hrep as [? _]. discriminate.
        + exists idx. split; [eapply elem_of_zip_l; eauto | exact Hidx].
      - intros (idx & Hidx & Hnorm). right.
        apply list_elem_of_lookup in Hidx as [k Hk].
        destruct (lookup_lt_is_Some_2 masked_labels k) as [label Hlabel].
        { apply lookup_lt_Some in Hk. lia. }
        exists (idx, label). split; [|exact Hnorm].
        eapply (elem_of_lookup_zip_with_2 pair); eauto. }
    intros i Hi.
    destruct (lookup_lt_is_Some_2 labels i) as [label Hl]; [lia|].
    destruct (lookup_lt_is_Some_2 loss_mask i) as [m Hm]; [lia|].
    exists label, m. pose proof (Forall2_lookup_lr _ _ _ _ _ _ Hal Hl Hm) as [? ?].
    auto.
  - clear -Hlabels Ha1. revert masked_positions Ha1.
    induction Hlabels as [|label ls Hl Hls IH]; intros [|p ps] Hlen; simpl in *;
      try constructor; auto.
    apply IH. lia.
  - apply Forall2_replicate_aligned.
Qed.

(** A run of the serializer on the demo sample with [the] and [now]
    masked. *)
Lemma serializer_arrays_aligned_witness :
  let tokens_np := [1; 101; 102; 3; 2; 201; 202; 203; 3; 2; 0; 0; 0; 0; 0; 0; 0; 0; 0; 0] in
  let labels_np := [-1; -1; -1; 103; -1; -1; -1; -1; 204; -1; -1; -1; -1; -1; -1; -1; -1; -1; -1; -1] in
  let loss_mask_np := [0; 0; 0; 1; 0; 0; 0; 0; 1; 0; 0; 0; 0; 0; 0; 0; 0; 0; 0; 0] in
  (len tokens_np = 20 /\ len labels_np = 20 /\ len loss_mask_np = 20)
  /\ (forall i, (i < 20)%nat ->
       exists label m,
         labels_np !! i = Some label /\ loss_mask_np !! i = Some m
         /\ (m = 1 <-> label <> -1) /\ (m = 0 <-> label = -1)).
Proof.
  intros tokens_np labels_np loss_mask_np.
  pose proof (serializer_arrays_aligned Demo.bert
                [1; 101; 102; 3; 2; 201; 202; 203; 3; 2] Demo.token_types
                [3; 8] [103; 204]
                tokens_np
                [0; 0; 0; 0; 0; 1; 1; 1; 1; 1; 0; 0; 0; 0; 0; 0; 0; 0; 0; 0]
                labels_np
                [1; 1; 1; 1; 1; 1; 1; 1; 1; 1; 0; 0; 0; 0; 0; 0; 0; 0; 0; 0]
                loss_mask_np eq_refl) as H.
  destruct H as (Hlen & _ & _ & _ & _ & Hal).
  - repeat constructor; lia.
  - split; [|exact Hal]. destruct Hlen as (H1 & _ & H3 & _ & H5). auto.
Defined.

(** ** Word groups built by the scan *)

Section Planner.

Context {R : Type} `{!RandomState R}.
Variable self : BertDataset.

Lemma append_to_last_Ok (c c' : list (list nat)) (i : nat) :
  append_to_last c i = Ok c' ->
  exists c1 g, c = c1 ++ [g] /\ c' = c1 ++ [g ++ [i]].
Proof.
  unfold append_to_last. destruct (last c) as [g|] eqn:Hl; [|discriminate].
  apply last_Some in Hl as [c1 ->]. rewrite removelast_last.
  intros [= <-]. eauto.
Qed.

Lemma scan_inv_nil (tokens : list Z) (whole_word : bool) :
  scan_inv self tokens whole_word 0 [].
Proof.
  split; simpl; try constructor.
  - intros [|] ? [=].
  - intros _ g p Hg. inversion Hg.
Qed.

Lemma scan_inv_special (tokens : list Z) (whole_word : bool) (i : nat)
      (c : list (list nat)) (token : Z) :
  tokens !! i = Some token -> is_special self token = true ->
  scan_inv self tokens whole_word i c -> scan_inv self tokens whole_word (S i) c.
Proof.
  intros Hi Hsp [Hb Hc Hn Hf Hw]. split; auto.
  - eapply Forall_impl; [exact Hb | simpl; lia].
  - intros c1 g Hc1. eapply Forall_impl; [exact (Hf c1 g Hc1) | simpl; lia].
  - intros Hww g p Hg Hp Hlt Hcont.
    destruct (decide (S p = i)) as [Heq|Hne].
    + subst i. destruct Hcont as (token' & piece & Hi' & Hsp' & _). congruence.
    + apply Hw; auto. lia.
Qed.

Lemma scan_inv_new_group (tokens : list Z) (whole_word : bool) (i : nat)
      (c : list (list nat)) (token : Z) :
  tokens !! i = Some token -> is_special self token = false ->
  (whole_word = true -> c <> [] -> ~ continuation self tokens i) ->
  scan_inv self tokens whole_word i c -> scan_inv self tokens whole_word (S i) (c ++ [[i]]).
Proof.
  intros Hi Hsp Hnc [Hb Hc Hn Hf Hw].
  assert (Hcat : concat (c ++ [[i]]) = concat c ++ [i])
    by (rewrite concat_app; reflexivity).
  split.
  - rewrite Hcat. apply Forall_app. split.
    + eapply Forall_impl; [exact Hb | simpl; lia].
    + repeat constructor.
  - rewrite Hcat. apply Forall_app. split; [assumption|].
    repeat constructor. exists token. auto.
  - rewrite Hcat. apply NoDup_app. repeat split; [assumption | | apply NoDup_singleton].
    intros q Hq Hq'. apply list_elem_of_singleton in Hq'. subst q.
    rewrite Forall_forall in Hb. specialize (Hb _ Hq). lia.
  - intros c1 g Heq. apply app_inj_tail in Heq as [<- _].
    eapply Forall_impl; [exact Hb | simpl; lia].
  - intros Hww g p Hg Hp Hlt Hcont.
    apply elem_of_app in Hg as [Hg|Hg].
    + destruct (decide (S p = i)) as [Heq|Hne].
      * subst i. exfalso. apply Hnc; auto. intros ->. inversion Hg.
      * apply Hw; auto. lia.
    + apply list_elem_of_singleton in Hg. subst g.
      apply list_elem_of_singleton in Hp. subst p. lia.
Qed.

Lemma scan_inv_append (tokens : list Z) (i : nat) (c1 : list (list nat))
      (g : list nat) (token : Z) :
  tokens !! i = Some token -> is_special self token = false ->
  scan_inv self tokens true i (c1 ++ [g]) ->
  scan_inv self tokens true (S i) (c1 ++ [g ++ [i]]).
Proof.
  intros Hi Hsp [Hb Hc Hn Hf Hw].
  assert (Hcat : concat (c1 ++ [g ++ [i]]) = concat (c1 ++ [g]) ++ [i]).
  { rewrite !concat_app. simpl. rewrite !app_nil_r, app_assoc. reflexivity. }
  split.
  - rewrite Hcat. apply Forall_app. split.
    + eapply Forall_impl; [exact Hb | simpl; lia].
    + repeat constructor.
  - rewrite Hcat. apply Forall_app. split; [assumption|].
    repeat constructor. exists token. auto.
  - rewrite Hcat. apply NoDup_app. repeat split; [assumption | | apply NoDup_singleton].
    intros q Hq Hq'. apply list_elem_of_singleton in Hq'. subst q.
    rewrite Forall_forall in Hb. specialize (Hb _ Hq). lia.
  - intros c1' g' Heq. apply app_inj_tail in Heq as [<- _].
    eapply Forall_impl; [exact (Hf c1 g eq_refl) | simpl; lia].
  - intros _ g' p Hg Hp Hlt Hcont.
    apply elem_of_app in Hg as [Hg|Hg].
    + assert (Hfront : (S p < i)%nat).
      { specialize (Hf c1 g eq_refl). rewrite Forall_forall in Hf. apply Hf.
        apply elem_of_concat. eauto. }
      apply Hw; auto. apply elem_of_app. auto.
    + apply list_elem_of_singleton in Hg. subst g'.
      apply elem_of_app in Hp as [Hp|Hp].
      * destruct (decide (S p = i)) as [Heq|Hne].
        -- subst i. apply elem_of_app. right. apply list_elem_of_singleton. reflexivity.
        -- apply elem_of_app. left. apply (Hw eq_refl g p); auto; [|lia].
           apply elem_of_app. right. apply list_elem_of_singleton. reflexivity.
      * apply list_elem_of_singleton in Hp. subst p. lia.
Qed.

Lemma cand_scan_inv (tokens : list Z) (whole_word : bool) :
  forall (rest pre : list Z) (c c' : list (list nat)),
    tokens = pre ++ rest ->
    scan_inv self tokens whole_word (length pre) c ->
    cand_scan self whole_word (length pre) rest c = Ok c' ->
    scan_inv self tokens whole_word (length tokens) c'.
Proof.
  induction rest as [|token rest IH]; intros pre c c' Htok Hinv H.
  - simpl in H. injection H as <-. rewrite app_nil_r in Htok. subst pre. assumption.
  - assert (Hi : tokens !! length pre = Some token).
    { subst tokens. rewrite lookup_app_r by lia. rewrite Nat.sub_diag. reflexivity. }
    assert (Htok' : tokens = (pre ++ [token]) ++ rest)
      by (rewrite <- app_assoc; exact Htok).
    assert (Hlen : length (pre ++ [token]) = S (length pre))
      by (rewrite length_app; simpl; lia).
    simpl in H. destruct (is_special self token) eqn:Hsp.
    + rewrite <- Hlen in H. eapply IH; [exact Htok' | | exact H].
      rewrite Hlen. eapply scan_inv_special; eauto.
    + inv_bind H. inv_bind H. rewrite <- Hlen in H.
      eapply IH; [exact Htok' | | exact H]. rewrite Hlen. clear H IH.
      destruct a as [|].
      * (* the token joins the last group *)
        destruct (whole_word && (1 <=? len c)) eqn:Hcond; [|discriminate].
        apply andb_prop in Hcond as [-> _].
        apply append_to_last_Ok in Ha0 as (c1 & g & -> & ->).
        eapply scan_inv_append; eauto.
      * (* the token opens a group *)
        injection Ha0 as <-. eapply scan_inv_new_group; eauto.
        intros -> Hne (token' & piece & Hi' & _ & Hpiece & Hstart).
        assert (token' = token) by congruence. subst token'.
        assert (Hlen1 : (1 <=? len c) = true).
        { apply Z.leb_le. unfold len. destruct c; [congruence | simpl; lia]. }
        rewrite Hlen1 in Ha. simpl in Ha. unfold piece_of in Ha.
        rewrite Hpiece in Ha. simpl in Ha. rewrite Hstart in Ha. discriminate.
Qed.

Lemma cand_scan_groups (tokens : list Z) (whole_word : bool) (c : list (list nat)) :
  cand_scan self whole_word 0 tokens [] = Ok c ->
  scan_inv self tokens whole_word (length tokens) c.
Proof.
  intros H. apply (cand_scan_inv tokens whole_word tokens [] [] c); auto.
  apply scan_inv_nil.
Qed.

(** ** N-gram spans *)

Lemma ngram_span (c : list (list nat)) (ngrams : list Z)
      (cand_index_set : list (list (list nat))) (s : list (list nat)) :
  cand_index_set ∈ ngram_indexes_of c ngrams -> s ∈ cand_index_set -> span c s.
Proof.
  unfold ngram_indexes_of. intros Hc Hs.
  apply list_elem_of_fmap in Hc as (idx & -> & _).
  apply list_elem_of_fmap in Hs as (n & -> & _).
  unfold py_slice. eexists _, _. reflexivity.
Qed.

Lemma ngram_length (c : list (list nat)) (ngrams : list Z)
      (cand_index_set : list (list (list nat))) :
  cand_index_set ∈ ngram_indexes_of c ngrams ->
  length cand_index_set = length ngrams.
Proof.
  unfold ngram_indexes_of. intros Hc.
  apply list_elem_of_fmap in Hc as (idx & -> & _). apply length_map.
Qed.

Lemma span_group (c s : list (list nat)) (g : list nat) :
  span c s -> g ∈ s -> g ∈ c.
Proof.
  intros (m & k & ->) Hg. apply (subseteq_drop m c), (subseteq_take k _), Hg.
Qed.

Lemma span_elem (c s : list (list nat)) (q : nat) :
  span c s -> q ∈ concat s -> q ∈ concat c.
Proof.
  intros Hs Hq. apply elem_of_concat in Hq as (g & Hg & Hq).
  apply elem_of_concat. exists g. split; [eapply span_group; eauto | exact Hq].
Qed.

Lemma span_NoDup (c s : list (list nat)) :
  NoDup (concat c) -> span c s -> NoDup (concat s).
Proof.
  intros Hn (m & k & ->).
  rewrite <- (take_drop m c), concat_app in Hn. apply NoDup_app in Hn as (_ & _ & Hn).
  rewrite <- (take_drop k (drop m c)), concat_app in Hn.
  apply NoDup_app in Hn as (Hn & _ & _). exact Hn.
Qed.

(** Two groups that share a position are the same group. *)
Lemma group_unique (c : list (list nat)) (g g' : list nat) (p : nat) :
  NoDup (concat c) -> g ∈ c -> g' ∈ c -> p ∈ g -> p ∈ g' -> g = g'.
Proof.
  induction c as [|h t IH]; intros Hn Hg Hg' Hp Hp'; [inversion Hg|].
  simpl in Hn. apply NoDup_app in Hn as (_ & Hdis & Hn).
  apply elem_of_cons in Hg as [->|Hg]; apply elem_of_cons in Hg' as [->|Hg'].
  - reflexivity.
  - exfalso. apply (Hdis p Hp). apply elem_of_concat. eauto.
  - exfalso. apply (Hdis p Hp'). apply elem_of_concat. eauto.
  - auto.
Qed.

(** ** Masking one position, and one block of positions *)

Lemma mask_token_Ok (idx : nat) (tokens tokens' : list Z) (label : Z) (g g' : R) :
  mask_token self idx tokens g = Ok (tokens', label, g') ->
  tokens !! idx = Some label /\ exists v, tokens' = <[idx := v]> tokens.
Proof.
  unfold mask_token. intros H. inv_bind H. apply py_index_nat in Ha.
  destruct (random g) as [u g1]. inv_bind H. destruct a0 as [new_label g2].
  inv_bind H. apply py_setitem_nat in Ha1 as [-> _]. injection H as <- <- <-.
  eauto.
Qed.

Lemma commit_Ok (tokens : list Z) (c : list (list nat)) :
  forall (index_set : list nat) (st st' : mask_state),
    plan_inv tokens c st ->
    NoDup index_set ->
    (forall q, q ∈ index_set -> q ∉ covered_indexes st) ->
    (forall q, q ∈ index_set -> q ∈ concat c) ->
    commit self index_set st = Ok st' ->
    plan_inv tokens c st' /\ positions st' = positions st ++ index_set.
Proof.
  induction index_set as [|index rest IH]; intros st st' Hinv Hnd Hfresh Hin H.
  - simpl in H. injection H as <-. rewrite app_nil_r. auto.
  - simpl in H. inv_bind H. destruct a as [[toks label] g'].
    apply mask_token_Ok in Ha as [Hlab [v ->]].
    apply NoDup_cons in Hnd as [Hnotin Hnd].
    destruct Hinv as [Hlen Hframe Hnodup Hcov Hgr Hlabels].
    assert (Hidx : index ∉ positions st).
    { intros Hq. apply Hcov in Hq. apply (Hfresh index); [left | exact Hq]. }
    set (st1 := MaskState (<[index := v]> (output_tokens st))
                          (masked_lms st ++ [(index, label)])
                          ({[index]} ∪ covered_indexes st) g') in *.
    assert (Hpos1 : positions st1 = positions st ++ [index])
      by (unfold positions, st1; cbn [masked_lms]; apply map_app).
    apply IH in H; auto.
    + destruct H as [Hinv' Hpos]. split; [exact Hinv'|].
      rewrite Hpos, Hpos1, <- app_assoc. reflexivity.
    + split; rewrite ?Hpos1.
      * unfold st1; cbn [output_tokens]. rewrite length_insert. exact Hlen.
      * intros q Hq. unfold st1; cbn [output_tokens].
        rewrite list_lookup_insert_ne.
        -- apply Hframe. intros Hq'. apply Hq. apply elem_of_app. auto.
        -- intros ->. apply Hq. apply elem_of_app. right. left.
      * apply NoDup_app. repeat split; auto.
        -- intros q Hq Hq'. apply list_elem_of_singleton in Hq'. subst q. auto.
        -- apply NoDup_singleton.
      * intros q. rewrite elem_of_app, list_elem_of_singleton.
        unfold st1; cbn [covered_indexes].
        rewrite elem_of_union, elem_of_singleton, Hcov. tauto.
      * intros q. rewrite elem_of_app, list_elem_of_singleton.
        intros [Hq| ->]; [auto | apply Hin; left].
      * intros p l Hpl. unfold st1 in Hpl; cbn [masked_lms] in Hpl.
        apply elem_of_app in Hpl as [Hpl|Hpl]; [auto|].
        apply list_elem_of_singleton in Hpl. injection Hpl as -> ->.
        rewrite <- Hframe; auto.
    + intros q Hq. unfold st1; cbn [covered_indexes].
      rewrite elem_of_union, elem_of_singleton.
      intros [->|Hq']; [auto|]. apply (Hfresh q); [right; exact Hq | exact Hq'].
    + intros q Hq. apply Hin. right. exact Hq.
Qed.

(** ** Shortening an n-gram to the budget *)

Lemma py_index_bounds {A : Type} (l : list A) (i : Z) (x : A) :
  py_index l i = Ok x -> - len l <= i < len l.
Proof.
  unfold py_index, norm_index. intros H.
  destruct (i <? 0) eqn:Hi;
    destruct ((0 <=? _) && (_ <? len l)) eqn:Hb; try discriminate;
    apply andb_prop in Hb as [H0 H1]; lia.
Qed.

Lemma shorten_fuel_S (cis : list (list (list nat))) (count B : Z) :
  forall (fuel : nat) (index_set : list nat) (n : Z),
    (turns_left (len cis) n <= fuel)%nat ->
    shorten (S fuel) cis count B index_set n = shorten fuel cis count B index_set n.
Proof.
  induction fuel as [|fuel IH]; intros index_set n Hfuel.
  - simpl. destruct (B <? count + len index_set); [|reflexivity].
    destruct (n =? 0) eqn:Hn; [reflexivity|]. apply Z.eqb_neq in Hn.
    destruct (py_index cis (n - 1)) as [s|e] eqn:Hs; [|reflexivity].
    exfalso. apply py_index_bounds in Hs. unfold turns_left in Hfuel.
    destruct (0 <=? n) eqn:Hpos; [apply Z.leb_le in Hpos | apply Z.leb_gt in Hpos]; lia.
  - change (shorten (S (S fuel)) cis count B index_set n)
      with (if B <? count + len index_set
            then if n =? 0 then Ok (index_set, n)
                 else s <- py_index cis (n - 1) ;;
                      shorten (S fuel) cis count B (concat s) (n - 1)
            else Ok (index_set, n)).
    change (shorten (S fuel) cis count B index_set n)
      with (if B <? count + len index_set
            then if n =? 0 then Ok (index_set, n)
                 else s <- py_index cis (n - 1) ;;
                      shorten fuel cis count B (concat s) (n - 1)
            else Ok (index_set, n)).
    destruct (B <? count + len index_set); [|reflexivity].
    destruct (n =? 0) eqn:Hn; [reflexivity|]. apply Z.eqb_neq in Hn.
    destruct (py_index cis (n - 1)) as [s|e] eqn:Hs; [|reflexivity].
    simpl. apply IH. apply py_index_bounds in Hs. unfold turns_left in *.
    destruct (0 <=? n) eqn:Hpos; [apply Z.leb_le in Hpos | apply Z.leb_gt in Hpos].
    + replace (0 <=? n - 1) with true by (symmetry; apply Z.leb_le; lia). lia.
    + replace (0 <=? n - 1) with false by (symmetry; apply Z.leb_gt; lia). lia.
Qed.

(** The fuel [process_candidate] passes is enough: more changes nothing. *)
Lemma shorten_fuel (cis : list (list (list nat))) (count B : Z)
      (index_set : list nat) (n : Z) (extra : nat) :
  shorten (extra + (Z.to_nat n + length cis)) cis count B index_set n
  = shorten (Z.to_nat n + length cis) cis count B index_set n.
Proof.
  induction extra as [|extra IH]; [reflexivity|].
  rewrite Nat.add_succ_l, shorten_fuel_S; [exact IH|].
  unfold turns_left, len. destruct (0 <=? n) eqn:Hpos; lia.
Qed.

Lemma shorten_Ok (cis : list (list (list nat))) (count B : Z) :
  forall (fuel : nat) (index_set index_set' : list nat) (n n' : Z),
    0 <= n -> (Z.to_nat n <= fuel)%nat ->
    shorten fuel cis count B index_set n = Ok (index_set', n') ->
    0 <= n' <= n
    /\ (n' = n -> index_set' = index_set)
    /\ (n' < n -> exists s, py_index cis n' = Ok s /\ index_set' = concat s)
    /\ (n' < n -> B < count + len index_set)
    /\ (forall k, n' < k < n ->
                  exists s, py_index cis k = Ok s /\ B < count + len (concat s))
    /\ (B < count + len index_set' -> n' = 0).
Proof.
  induction fuel as [|fuel IH]; intros index_set index_set' n n' Hn Hfuel H.
  - assert (n = 0) by lia. subst n. simpl in H.
    destruct (B <? count + len index_set) eqn:Hover; injection H as <- <-;
      repeat split; try lia; try congruence.
  - simpl in H. destruct (B <? count + len index_set) eqn:Hover.
    + apply Z.ltb_lt in Hover. destruct (n =? 0) eqn:Hn0.
      * injection H as <- <-. repeat split; try lia; congruence.
      * apply Z.eqb_neq in Hn0. inv_bind H. rename a into s.
        apply IH in H; [|lia|lia].
        destruct H as (Hr & Hsame & Hshort & Hfirst & Hall & Hlast).
        repeat split; try lia; auto.
        -- intros _. destruct (Z.eq_dec n' (n - 1)) as [->|Hne].
           ++ exists s. split; [exact Ha | auto].
           ++ apply Hshort. lia.
        -- intros k Hk. destruct (Z.eq_dec k (n - 1)) as [->|Hne].
           ++ exists s. split; [exact Ha | apply Hfirst; lia].
           ++ apply Hall. lia.
    + apply Z.ltb_ge in Hover. injection H as <- <-.
      repeat split; try lia; congruence.
Qed.

(** ** The draw of the n-gram length *)

Lemma elem_of_py_range (lo hi x : Z) : x ∈ py_range lo hi -> lo <= x < hi.
Proof.
  unfold py_range. intros Hx. apply list_elem_of_fmap in Hx as (k & -> & Hk).
  apply elem_of_seq in Hk. lia.
Qed.

Lemma length_ngrams_of (max_ngrams : Z) :
  length (ngrams_of max_ngrams) = Z.to_nat max_ngrams.
Proof.
  unfold ngrams_of, py_range. rewrite length_map, length_seq. f_equal. lia.
Qed.

Lemma draw_n_range (geometric_dist : bool) (max_ngrams : Z) (pvals : list float)
      (cis : list (list (list nat))) (g g' : R) (N : Z) :
  cis <> [] -> length cis = length (ngrams_of max_ngrams) ->
  draw_n geometric_dist max_ngrams (ngrams_of max_ngrams) pvals cis g = Ok (N, g') ->
  1 <= N <= len cis.
Proof.
  intros Hne Hlen H. rewrite length_ngrams_of in Hlen.
  assert (Hcis : len cis = max_ngrams /\ 1 <= max_ngrams).
  { unfold len. destruct cis; [congruence|]. simpl in *. lia. }
  destruct Hcis as [Hcis Hmax]. rewrite Hcis.
  unfold draw_n in H. destruct geometric_dist; simpl in H.
  - pose proof (geometric_pos f_0_2 g) as Hpos.
    destruct (geometric f_0_2 g) as [v g1]. simpl in Hpos.
    injection H as <- <-. lia.
  - unfold py_choice in H.
    destruct (py_slice (ngrams_of max_ngrams) 0 (len cis)) as [|a0 a] eqn:Ha;
      [discriminate|].
    injection H as H.
    pose proof (choice_elem (a0 :: a) (normalise (py_slice pvals 0 (len cis))) g
                            ltac:(discriminate)) as Hin.
    rewrite H in Hin. simpl fst in Hin. rewrite <- Ha in Hin.
    apply list_elem_of_In in Hin. unfold py_slice in Hin.
    apply (subseteq_take _ _), (subseteq_drop _ _) in Hin.
    apply elem_of_py_range in Hin. lia.
Qed.

(** ** One turn of the main loop *)

Lemma existsb_overlaps (index_set : list nat) (covered : gset nat) :
  existsb (fun index => bool_decide (index ∈ covered)) index_set = true
  <-> overlaps index_set covered.
Proof.
  rewrite existsb_exists. unfold overlaps.
  split; intros (q & Hq & Hc); exists q.
  - apply list_elem_of_In in Hq. apply bool_decide_eq_true in Hc. auto.
  - rewrite <- list_elem_of_In, bool_decide_eq_true. auto.
Qed.

Lemma process_candidate_Ok (geometric_dist : bool) (max_ngrams : Z)
      (pvals : list float) (B : Z) (cis : list (list (list nat)))
      (st st' : mask_state) :
  cis <> [] -> length cis = length (ngrams_of max_ngrams) ->
  process_candidate self geometric_dist max_ngrams (ngrams_of max_ngrams) pvals B cis st
  = Ok st' ->
  exists N g M s,
    draw_n geometric_dist max_ngrams (ngrams_of max_ngrams) pvals cis (rng_state st)
    = Ok (N, g)
    /\ turn self B cis st st' N g M s.
Proof.
  intros Hne Hlen H. unfold process_candidate in H.
  destruct cis as [|s1 rest] eqn:Hcis; [congruence|]. rewrite <- Hcis in *.
  inv_bind H. clear Ha a. inv_bind H. destruct a as [N g].
  pose proof (draw_n_range _ _ _ _ _ _ _ Hne Hlen Ha) as HN.
  inv_bind H. rename a into s0. rename Ha0 into Hs0.
  inv_bind H. destruct a as [index_set n']. cbn [fst masked_lms set_rng] in *.
  apply shorten_Ok in Ha0; [|lia|lia].
  destruct Ha0 as (Hr & Hsame & Hshort & Hfirst & Hall & Hlast).
  assert (Hs : exists s, py_index cis n' = Ok s /\ index_set = concat s).
  { destruct (Z.eq_dec n' (N - 1)) as [->|Hne']; [eauto | apply Hshort; lia]. }
  destruct Hs as (s & Hs & ->).
  exists N, g, (n' + 1), s. split; [exact Ha|]. split.
  - lia.
  - replace (n' + 1 - 1) with n' by lia. exact Hs.
  - intros K HK. destruct (Z.eq_dec (K - 1) (N - 1)) as [Heq|Hne'].
    + rewrite Heq. exists s0. split; [exact Hs0 | apply Hfirst; lia].
    + apply Hall. lia.
  - intros Hover. apply Hlast in Hover. lia.
  - intros Hskip.
    destruct (B <? len (masked_lms st) + len (concat s)) eqn:Hover; [congruence|].
    apply Z.ltb_ge in Hover.
    destruct (existsb _ (concat s)) eqn:Hex; [congruence|].
    exfalso. destruct Hskip as [Hskip|Hskip]; [lia|].
    apply existsb_overlaps in Hskip.
    change (covered_indexes (set_rng st g)) with (covered_indexes st) in Hex.
    congruence.
  - intros Hfit Hfree.
    destruct (B <? len (masked_lms st) + len (concat s)) eqn:Hover;
      [apply Z.ltb_lt in Hover; lia|].
    destruct (existsb _ (concat s)) eqn:Hex; [|exact H].
    exfalso. apply Hfree. apply existsb_overlaps. exact Hex.
Qed.

(** ** The loop invariant *)

Lemma plan_inv_set_rng (tokens : list Z) (c : list (list nat))
      (st : mask_state) (g : R) :
  plan_inv tokens c st -> plan_inv tokens c (set_rng st g).
Proof. intros [? ? ? ? ? ?]. split; assumption. Qed.

Lemma loop_inv_set_rng (tokens : list Z) (c : list (list nat)) (B : Z)
      (st : mask_state) (g : R) :
  loop_inv tokens c B st -> loop_inv tokens c B (set_rng st g).
Proof.
  intros [Hp Hb Hw]. split; [apply plan_inv_set_rng| |]; assumption.
Qed.

Lemma len_masked_lms (st : mask_state (R := R)) :
  len (masked_lms st) = len (positions st).
Proof. unfold len, positions. rewrite length_map. reflexivity. Qed.

Lemma process_candidate_inv (tokens : list Z) (c : list (list nat))
      (geometric_dist : bool) (max_ngrams : Z) (pvals : list float) (B : Z)
      (cis : list (list (list nat))) (st st' : mask_state) :
  NoDup (concat c) ->
  cis ∈ ngram_indexes_of c (ngrams_of max_ngrams) ->
  loop_inv tokens c B st ->
  process_candidate self geometric_dist max_ngrams (ngrams_of max_ngrams) pvals B cis st
  = Ok st' ->
  loop_inv tokens c B st'.
Proof.
  intros Hnd Hcis Hinv H.
  destruct cis as [|s1 rest] eqn:Heq; [simpl in H; congruence|]. rewrite <- Heq in *.
  assert (Hne : cis <> []) by (subst cis; discriminate). clear Heq s1 rest.
  apply process_candidate_Ok in H; [|exact Hne|eapply ngram_length; eauto].
  destruct H as (N & g & M & s & _ & [_ Hspan _ _ Hskip Hcommit]).
  destruct (decide (B < len (masked_lms st) + len (concat s))) as [Hover|Hfit].
  { rewrite Hskip by auto. apply loop_inv_set_rng, Hinv. }
  destruct (existsb (fun index => bool_decide (index ∈ covered_indexes st)) (concat s))
    eqn:Hex.
  { apply existsb_overlaps in Hex. rewrite Hskip by auto.
    apply loop_inv_set_rng, Hinv. }
  assert (Hfree : ~ overlaps (concat s) (covered_indexes st)).
  { intros Hov. apply existsb_overlaps in Hov. congruence. }
  pose proof (Hcommit Hfit Hfree) as Hc. clear Hskip Hcommit Hex.
  assert (Hs : span c s).
  { eapply ngram_span; [exact Hcis|]. apply list_elem_of_In. eapply py_index_In; eauto. }
  destruct Hinv as [Hplan Hbudget Hwhole].
  apply (commit_Ok tokens c) in Hc.
  - destruct Hc as [Hplan' Hpos].
    assert (Hpos0 : positions (set_rng st g) = positions st) by reflexivity.
    rewrite Hpos0 in Hpos. split; [exact Hplan'| |].
    + rewrite len_masked_lms, Hpos. rewrite len_masked_lms in Hfit.
      unfold len in *. rewrite length_app. lia.
    + intros grp p q Hgrp Hp Hq. rewrite Hpos, !elem_of_app.
      intros [Hm|Hm]; [left; eapply Hwhole; eauto|]. right.
      apply elem_of_concat in Hm as (grp' & Hgrp' & Hp').
      assert (Hgrp'c : grp' ∈ c) by (eapply span_group; eauto).
      assert (grp = grp') by (apply (group_unique c grp grp' p); assumption).
      subst grp'. apply elem_of_concat. eauto.
  - apply plan_inv_set_rng, Hplan.
  - eapply span_NoDup; eauto.
  - intros q Hq Hcov. apply Hfree. exists q. auto.
  - intros q Hq. eapply span_elem; eauto.
Qed.

Lemma mask_loop_inv (tokens : list Z) (c : list (list nat))
      (geometric_dist : bool) (max_ngrams : Z) (pvals : list float) (B : Z) :
  NoDup (concat c) ->
  forall (ngram_indexes : list (list (list (list nat)))) (st st' : mask_state),
    (forall cis, cis ∈ ngram_indexes -> cis ∈ ngram_indexes_of c (ngrams_of max_ngrams)) ->
    loop_inv tokens c B st ->
    mask_loop self geometric_dist max_ngrams (ngrams_of max_ngrams) pvals B
              ngram_indexes st = Ok st' ->
    loop_inv tokens c B st'.
Proof.
  intros Hnd. induction ngram_indexes as [|cis rest IH]; intros st st' Hall Hinv H.
  - simpl in H. injection H as <-. exact Hinv.
  - simpl in H. destruct (B <=? len (masked_lms st)).
    + injection H as <-. exact Hinv.
    + inv_bind H. eapply IH; [| |exact H].
      * intros cis' Hin. apply Hall. right. exact Hin.
      * eapply process_candidate_inv; eauto. apply Hall. left.
Qed.

(** ** Sorting the plan *)

Lemma insert_by_index_perm (p : nat * Z) (l : list (nat * Z)) :
  Permutation (insert_by_index p l) (p :: l).
Proof.
  induction l as [|q l IH]; simpl; [reflexivity|].
  destruct (fst p <=? fst q)%nat; [reflexivity|].
  rewrite IH. apply perm_swap.
Qed.

Lemma sorted_by_index_perm (l : list (nat * Z)) :
  Permutation (sorted_by_index l) l.
Proof.
  induction l as [|p l IH]; simpl; [reflexivity|].
  rewrite insert_by_index_perm. constructor. exact IH.
Qed.

Lemma insert_by_index_sorted (p : nat * Z) (l : list (nat * Z)) :
  StronglySorted (fun a b => (fst a <= fst b)%nat) l ->
  StronglySorted (fun a b => (fst a <= fst b)%nat) (insert_by_index p l).
Proof.
  induction l as [|q l IH]; intros Hs; simpl.
  - repeat constructor.
  - apply StronglySorted_inv in Hs as [Hs Hq].
    destruct (fst p <=? fst q)%nat eqn:Hle.
    + apply Nat.leb_le in Hle. constructor; [constructor; assumption|].
      constructor; [exact Hle|]. eapply Forall_impl; [exact Hq|]. simpl. lia.
    + apply Nat.leb_gt in Hle. constructor; [apply IH; exact Hs|].
      rewrite insert_by_index_perm. constructor; [lia | exact Hq].
Qed.

Lemma sorted_by_index_sorted (l : list (nat * Z)) :
  StronglySorted (fun a b => (fst a <= fst b)%nat) (sorted_by_index l).
Proof.
  induction l as [|p l IH]; simpl; [constructor|].
  apply insert_by_index_sorted, IH.
Qed.

Lemma sorted_keys_ascending (l : list (nat * Z)) :
  StronglySorted (fun a b => (fst a <= fst b)%nat) l ->
  NoDup (map fst l) ->
  StronglySorted lt (map fst l).
Proof.
  induction l as [|p l IH]; intros Hs Hnd; simpl; [constructor|].
  apply StronglySorted_inv in Hs as [Hs Hp].
  simpl in Hnd. apply NoDup_cons in Hnd as [Hnotin Hnd].
  constructor; [apply IH; assumption|].
  apply Forall_forall. intros k Hk.
  apply list_elem_of_fmap in Hk as (q & -> & Hq).
  rewrite Forall_forall in Hp. specialize (Hp q Hq).
  assert (fst p <> fst q).
  { intros Heq. apply Hnotin. rewrite Heq. apply list_elem_of_fmap. eauto. }
  lia.
Qed.

(** ** What a returned plan satisfies *)

Lemma planner_Ok (tokens : list Z) (g : R) (max_ngrams : Z)
      (whole_word favor_longer_ngram geometric_dist : bool)
      (out : list Z) (pos : list nat) (labs : list Z) (g' : R) :
  create_masked_lm_predictions self tokens g max_ngrams whole_word
                               favor_longer_ngram geometric_dist
  = Ok (out, pos, labs, g') ->
  exists c B (st : mask_state (R := R)),
    cand_scan self whole_word 0 tokens [] = Ok c
    /\ num_to_predict self tokens = Ok B
    /\ loop_inv tokens c B st
    /\ out = output_tokens st
    /\ Permutation pos (positions st)
    /\ Permutation (zip pos labs) (masked_lms st)
    /\ pos = map fst (sorted_by_index (masked_lms st))
    /\ labs = map snd (sorted_by_index (masked_lms st)).
Proof.
  unfold create_masked_lm_predictions. intros H.
  destruct (mask_lm_prob self =? 0)%float; [discriminate|].
  inv_bind H. rename a into c. inv_bind H. rename a into B.
  destruct (shuffle (ngram_indexes_of c (ngrams_of max_ngrams)) g) as [shuffled g1] eqn:Hsh.
  inv_bind H. rename a into st. injection H as <- <- <- <-.
  pose proof (cand_scan_groups _ _ _ Ha) as [_ _ Hnd _ _].
  exists c, B, st.
  split; [exact Ha|]. split; [exact Ha0|].
  split; [|split; [reflexivity|split; [|split; [|split; reflexivity]]]].
  - eapply mask_loop_inv; [exact Hnd | | | exact Ha1].
    + intros cis Hin.
      pose proof (shuffle_perm _ (ngram_indexes_of c (ngrams_of max_ngrams)) g) as Hperm.
      rewrite Hsh in Hperm. simpl in Hperm. rewrite Hperm. exact Hin.
    + split.
      * split; cbn [output_tokens masked_lms covered_indexes positions]; simpl; auto.
        -- constructor.
        -- intros q. split; intros Hq; [inversion Hq | set_solver].
        -- intros q Hq. inversion Hq.
        -- intros p l Hq. inversion Hq.
      * unfold len. simpl. lia.
      * intros grp p q _ _ _ Hq. inversion Hq.
  - unfold positions. apply (Permutation_map fst). apply sorted_by_index_perm.
  - rewrite zip_fst_snd. apply sorted_by_index_perm.
Qed.

Lemma commit_positions :
  forall (index_set : list nat) (st st' : mask_state),
    commit self index_set st = Ok st' ->
    positions st' = positions st ++ index_set.
Proof.
  induction index_set as [|index rest IH]; intros st st' H.
  - simpl in H. injection H as <-. rewrite app_nil_r. reflexivity.
  - simpl in H. inv_bind H. destruct a as [[toks label] g'].
    apply IH in H. rewrite H. unfold positions. cbn [masked_lms].
    rewrite map_app, <- app_assoc. reflexivity.
Qed.

(** The n-gram a turn settles on is determined: the longest length up
    to the drawn one whose n-gram fits the budget, or 1 when none does. *)
Lemma turn_settled_unique (B : Z) (cis : list (list (list nat)))
      (st st' : mask_state) (N : Z) (g : R) (M M' : Z) (s s' : list (list nat)) :
  turn self B cis st st' N g M s -> turn self B cis st st' N g M' s' ->
  M' = M /\ s' = s.
Proof.
  intros [[HM HN] Hs Hlonger Hlast _ _] [[HM' HN'] Hs' Hlonger' Hlast' _ _].
  assert (Heq : M' = M).
  { destruct (Z.lt_trichotomy M M') as [Hlt|[Heq|Hgt]]; [|auto|].
    - destruct (Hlonger M' ltac:(lia)) as (s'' & Hs'' & Hover).
      rewrite Hs' in Hs''. injection Hs'' as <-. apply Hlast' in Hover. lia.
    - destruct (Hlonger' M ltac:(lia)) as (s'' & Hs'' & Hover).
      rewrite Hs in Hs''. injection Hs'' as <-. apply Hlast in Hover. lia. }
  subst M'. split; [reflexivity | congruence].
Qed.

(** ** The masking planner: whole words (C2) *)

(** C2.  In whole-word mode a returned plan never splits a word: when
    position [p] is masked and position [p+1] holds a continuation piece
    (a token other than [cls]/[sep] whose piece is not a start piece),
    [p+1] is masked too.  More generally the masked positions are a
    union of whole candidate groups of the scan: every masked position
    lies in a group, and a group with one masked position is masked
    throughout, wherever its pieces lie relative to the separator.
    When the pieces of [cls] and [sep] are start pieces, as ["[CLS]"]
    and ["[SEP]"] are, the first statement holds of any token at [p+1]
    whose piece is not a start piece. *)
Theorem whole_words_never_split
        (tokens : list Z) (g : R) (max_ngrams : Z)
        (favor_longer_ngram geometric_dist : bool)
        (out : list Z) (pos : list nat) (labs : list Z) (g' : R) :
  create_masked_lm_predictions self tokens g max_ngrams true
                               favor_longer_ngram geometric_dist
  = Ok (out, pos, labs, g') ->
  (forall p, p ∈ pos -> continuation self tokens (S p) -> S p ∈ pos)
  /\ (exists c,
        cand_scan self true 0 tokens [] = Ok c
        /\ (forall p, p ∈ pos -> exists grp, grp ∈ c /\ p ∈ grp)
        /\ (forall grp p q, grp ∈ c -> p ∈ grp -> q ∈ grp -> p ∈ pos -> q ∈ pos))
  /\ ((forall token piece,
          is_special self token = true ->
          vocab_id_to_token_dict self !! token = Some piece ->
          is_start_piece piece = true) ->
      forall p token piece,
        p ∈ pos -> tokens !! S p = Some token ->
        vocab_id_to_token_dict self !! token = Some piece ->
        is_start_piece piece = false -> S p ∈ pos).
Proof.
  intros H. apply planner_Ok in H as (c & B & st & Hc & _ & Hinv & _ & Hperm & _).
  destruct Hinv as [Hplan _ Hwhole].
  pose proof (cand_scan_groups _ _ _ Hc) as [_ _ _ _ Hword].
  assert (Hgroup : forall p, p ∈ pos -> exists grp, grp ∈ c /\ p ∈ grp).
  { intros p Hp. rewrite Hperm in Hp. apply (plan_groups _ _ _ Hplan) in Hp.
    apply elem_of_concat in Hp. exact Hp. }
  assert (Hclosed : forall grp p q, grp ∈ c -> p ∈ grp -> q ∈ grp -> p ∈ pos -> q ∈ pos).
  { intros grp p q Hgrp Hp Hq. rewrite Hperm. eapply Hwhole; eauto. }
  assert (Hnext : forall p, p ∈ pos -> continuation self tokens (S p) -> S p ∈ pos).
  { intros p Hp Hcont. destruct (Hgroup p Hp) as (grp & Hgrp & Hin).
    apply (Hclosed grp p (S p)); auto.
    apply Hword; auto.
    destruct Hcont as (token & _ & Hlook & _). eapply lookup_lt_Some; eauto. }
  split; [exact Hnext|]. split; [exists c; auto|].
  intros Hvocab p token piece Hp Hlook Hpiece Hstart.
  apply Hnext; [exact Hp|]. exists token, piece. repeat split; auto.
  destruct (is_special self token) eqn:Hsp; [|reflexivity].
  rewrite (Hvocab token piece Hsp Hpiece) in Hstart. discriminate.
Qed.

(** ** The masking planner: disjoint positions (C3) *)

(** C3.  The positions of a returned plan are pairwise distinct and lie
    below the number of tokens given to the planner.  Every turn of the
    main loop is a [turn]: it draws a length [N] and settles on one
    n-gram [s] of the candidate, the [M]-gram for the longest [M <= N]
    that fits the budget (or [M = 1]), and no other.  When some position
    of that [s] is already covered the candidate is skipped entirely:
    the turn changes nothing but the random state, so the plan, the
    output tokens and the covered set are as they were.  Otherwise, when
    [s] fits the budget, the turn commits exactly the positions of [s],
    none of which was covered; no turn commits part of an n-gram. *)
Theorem masked_positions_disjoint
        (tokens : list Z) (g : R) (max_ngrams : Z)
        (whole_word favor_longer_ngram geometric_dist : bool)
        (out : list Z) (pos : list nat) (labs : list Z) (g' : R) :
  create_masked_lm_predictions self tokens g max_ngrams whole_word
                               favor_longer_ngram geometric_dist
  = Ok (out, pos, labs, g') ->
  NoDup pos
  /\ Forall (fun q => (q < length tokens)%nat) pos
  /\ (forall (pvals : list float) (B : Z) (cis : list (list (list nat)))
             (st st' : mask_state),
        cis <> [] -> length cis = length (ngrams_of max_ngrams) ->
        process_candidate self geometric_dist max_ngrams (ngrams_of max_ngrams)
                          pvals B cis st = Ok st' ->
        exists N g1 M s,
          draw_n geometric_dist max_ngrams (ngrams_of max_ngrams) pvals cis (rng_state st)
          = Ok (N, g1)
          /\ turn self B cis st st' N g1 M s
          /\ s ∈ cis
          /\ (forall M' s', turn self B cis st st' N g1 M' s' -> M' = M /\ s' = s)
          /\ (overlaps (concat s) (covered_indexes st) ->
              st' = set_rng st g1
              /\ masked_lms st' = masked_lms st
              /\ output_tokens st' = output_tokens st
              /\ covered_indexes st' = covered_indexes st)
          /\ (~ B < len (masked_lms st) + len (concat s) ->
              ~ overlaps (concat s) (covered_indexes st) ->
              commit self (concat s) (set_rng st g1) = Ok st'
              /\ positions st' = positions st ++ concat s)
          /\ (masked_lms st' = masked_lms st
              \/ (positions st' = positions st ++ concat s
                  /\ ~ overlaps (concat s) (covered_indexes st)))).
Proof.
  intros H. apply planner_Ok in H as (c & B & st & Hc & _ & Hinv & _ & Hperm & _).
  destruct Hinv as [Hplan _ _].
  pose proof (cand_scan_groups _ _ _ Hc) as [_ Hcand _ _ _].
  split; [|split].
  - rewrite Hperm. apply (plan_nodup _ _ _ Hplan).
  - apply Forall_forall. intros q Hq. rewrite Hperm in Hq.
    apply (plan_groups _ _ _ Hplan) in Hq.
    rewrite Forall_forall in Hcand. destruct (Hcand q Hq) as (token & Hlook & _).
    eapply lookup_lt_Some; eauto.
  - clear. intros pvals B cis st st' Hne Hlen H.
    apply process_candidate_Ok in H as (N & g & M & s & Hdraw & Hturn); auto.
    pose proof Hturn as [_ Hspan _ _ Hskip Hcommit].
    exists N, g, M, s. split; [exact Hdraw|]. split; [exact Hturn|].
    split; [apply list_elem_of_In; eapply py_index_In; eauto|].
    split; [intros M' s' Hturn'; eapply turn_settled_unique; eauto|].
    split; [intros Hov; rewrite Hskip by auto; auto|].
    split.
    { intros Hfit Hfree. split; [auto|].
      pose proof (Hcommit Hfit Hfree) as Hc. apply commit_positions in Hc. exact Hc. }
    destruct (decide (B < len (masked_lms st) + len (concat s))) as [Hover|Hfit].
    { left. rewrite Hskip by auto. reflexivity. }
    destruct (existsb (fun index => bool_decide (index ∈ covered_indexes st)) (concat s))
      eqn:Hex.
    { apply existsb_overlaps in Hex. left. rewrite Hskip by auto. reflexivity. }
    assert (Hfree : ~ overlaps (concat s) (covered_indexes st)).
    { intros Hov. apply existsb_overlaps in Hov. congruence. }
    right. split; [|exact Hfree].
    apply commit_positions in Hcommit; auto.
Qed.

(** ** The masking planner: the budget (C4) *)

(** C4.  A returned plan holds at most
    [num_to_predict = min(max_preds_per_seq, max(1, round(len(tokens) *
    mask_lm_prob)))] positions (for a cap below zero, which bounds
    nothing, the plan is empty).  Every turn of the main loop is a
    [turn]: with [N] the length drawn, it settles on an [M]-gram [s]
    with [M <= N]; each length above [M] up to [N] was tried and
    exceeded the budget, so [M] is the longest length up to [N] that
    fits, and no length above [N] is ever taken.  When the [M]-gram
    exceeds the budget as well then [M = 1] and the candidate is
    skipped: the turn changes nothing but the random state.  When it
    fits (and overlaps nothing covered) the turn goes on with that
    shortened n-gram: it commits the positions of [s] and no others.
    A turn never takes the plan over the budget. *)
Theorem masking_budget_respected
        (tokens : list Z) (g : R) (max_ngrams : Z)
        (whole_word favor_longer_ngram geometric_dist : bool)
        (out : list Z) (pos : list nat) (labs : list Z) (g' : R) :
  create_masked_lm_predictions self tokens g max_ngrams whole_word
                               favor_longer_ngram geometric_dist
  = Ok (out, pos, labs, g') ->
  (exists r,
      py_round (float_of_int (len tokens) * mask_lm_prob self)%float = Ok r
      /\ num_to_predict self tokens = Ok (Z.min (max_preds_per_seq self) (Z.max 1 r))
      /\ (0 <= max_preds_per_seq self ->
          len pos <= Z.min (max_preds_per_seq self) (Z.max 1 r))
      /\ (max_preds_per_seq self < 0 -> pos = [])
      /\ len pos <= Z.max 0 (Z.min (max_preds_per_seq self) (Z.max 1 r)))
  /\ (forall (pvals : list float) (B : Z) (cis : list (list (list nat)))
             (st st' : mask_state),
        cis <> [] -> length cis = length (ngrams_of max_ngrams) ->
        process_candidate self geometric_dist max_ngrams (ngrams_of max_ngrams)
                          pvals B cis st = Ok st' ->
        exists N g1 M s,
          draw_n geometric_dist max_ngrams (ngrams_of max_ngrams) pvals cis (rng_state st)
          = Ok (N, g1)
          /\ turn self B cis st st' N g1 M s
          /\ 1 <= M <= N
          /\ py_index cis (M - 1) = Ok s
          /\ (forall K, M < K <= N ->
                        exists s', py_index cis (K - 1) = Ok s'
                                   /\ B < len (masked_lms st) + len (concat s'))
          /\ (forall K s', 1 <= K <= N -> py_index cis (K - 1) = Ok s' ->
                           ~ B < len (masked_lms st) + len (concat s') -> K <= M)
          /\ (B < len (masked_lms st) + len (concat s) ->
              M = 1 /\ st' = set_rng st g1
              /\ masked_lms st' = masked_lms st
              /\ output_tokens st' = output_tokens st)
          /\ (~ B < len (masked_lms st) + len (concat s) ->
              ~ overlaps (concat s) (covered_indexes st) ->
              commit self (concat s) (set_rng st g1) = Ok st'
              /\ positions st' = positions st ++ concat s)
          /\ (len (masked_lms st) <= B -> len (masked_lms st') <= B)).
Proof.
  intros H. split.
  - apply planner_Ok in H as (c & B & st & _ & HB & Hinv & _ & Hperm & _).
    destruct Hinv as [_ Hbudget _].
    unfold num_to_predict in *. inv_bind HB. rename a into r. injection HB as <-.
    rewrite len_masked_lms in Hbudget. unfold len in *.
    rewrite <- (Permutation_length Hperm) in Hbudget.
    exists r. split; [exact Ha|]. split; [rewrite Ha; reflexivity|]. split; [|split].
    + intros Hcap. lia.
    + intros Hcap. destruct pos; [reflexivity | simpl in Hbudget; lia].
    + exact Hbudget.
  - clear. intros pvals B cis st st' Hne Hlen H.
    apply process_candidate_Ok in H as (N & g & M & s & Hdraw & Hturn); auto.
    pose proof Hturn as [[HM _] Hspan Hlonger Hlast Hskip Hcommit].
    exists N, g, M, s. repeat (split; [assumption|]). split; [|split; [|split]].
    + intros K s' HK Hs' Hfit. destruct (Z_le_gt_dec K M) as [Hle|Hgt]; [exact Hle|].
      destruct (Hlonger K ltac:(lia)) as (s'' & Hs'' & Hover).
      rewrite Hs' in Hs''. injection Hs'' as <-. contradiction.
    + intros Hover. rewrite Hskip by auto. auto.
    + intros Hfit Hfree. split; [auto|].
      pose proof (Hcommit Hfit Hfree) as Hc. apply commit_positions in Hc. exact Hc.
    + intros Hle.
      destruct (decide (B < len (masked_lms st) + len (concat s))) as [Hover|Hfit].
      { rewrite Hskip by auto. exact Hle. }
      destruct (existsb (fun index => bool_decide (index ∈ covered_indexes st)) (concat s))
        eqn:Hex.
      { apply existsb_overlaps in Hex. rewrite Hskip by auto. exact Hle. }
      assert (Hfree : ~ overlaps (concat s) (covered_indexes st)).
      { intros Hov. apply existsb_overlaps in Hov. congruence. }
      apply commit_positions in Hcommit; auto.
      change (positions (set_rng st g)) with (positions st) in Hcommit.
      rewrite len_masked_lms, Hcommit. rewrite len_masked_lms in Hfit.
      unfold len in *. rewrite length_app. lia.
Qed.

(** ** The masking planner: the frame (C10) *)

(** C10.  The token sequence a returned plan carries has the length of
    the input and agrees with it at every position outside the returned
    masked positions; [cls] and [sep] positions are never masked and
    keep their token. *)
Theorem unmasked_tokens_unchanged
        (tokens : list Z) (g : R) (max_ngrams : Z)
        (whole_word favor_longer_ngram geometric_dist : bool)
        (out : list Z) (pos : list nat) (labs : list Z) (g' : R) :
  create_masked_lm_predictions self tokens g max_ngrams whole_word
                               favor_longer_ngram geometric_dist
  = Ok (out, pos, labs, g') ->
  length out = length tokens
  /\ (forall q, q ∉ pos -> out !! q = tokens !! q)
  /\ (forall q token, tokens !! q = Some token -> is_special self token = true ->
                      (q ∉ pos) /\ (out !! q = Some token)).
Proof.
  intros H. apply planner_Ok in H as (c & B & st & Hc & _ & Hinv & -> & Hperm & _).
  destruct Hinv as [Hplan _ _].
  pose proof (cand_scan_groups _ _ _ Hc) as [_ Hcand _ _ _].
  assert (Hframe : forall q, q ∉ pos -> output_tokens st !! q = tokens !! q).
  { intros q Hq. apply (plan_frame _ _ _ Hplan). rewrite <- Hperm. exact Hq. }
  split; [apply (plan_length _ _ _ Hplan)|]. split; [exact Hframe|].
  intros q token Hlook Hsp.
  assert (Hq : q ∉ pos).
  { intros Hq. rewrite Hperm in Hq. apply (plan_groups _ _ _ Hplan) in Hq.
    rewrite Forall_forall in Hcand. destruct (Hcand q Hq) as (token' & Hlook' & Hsp').
    congruence. }
  split; [exact Hq|]. rewrite Hframe; auto.
Qed.

(** ** The masking planner: order and labels *)

(** The labels of a plan are ids of the input: when no input id is
    negative, no label is, which is what the serializer needs to tell a
    label from its filler -1. *)
Lemma plan_labels_nonnegative
      (tokens : list Z) (g : R) (max_ngrams : Z)
      (whole_word favor_longer_ngram geometric_dist : bool)
      (out : list Z) (pos : list nat) (labs : list Z) (g' : R) :
  create_masked_lm_predictions self tokens g max_ngrams whole_word
                               favor_longer_ngram geometric_dist
  = Ok (out, pos, labs, g') ->
  Forall (fun token => 0 <= token) tokens ->
  Forall (fun label => 0 <= label) labs.
Proof.
  intros H Htok.
  apply planner_Ok in H as (c & B & st & _ & _ & Hinv & _ & _ & _ & _ & ->).
  destruct Hinv as [Hplan _ _].
  apply Forall_forall. intros l Hl.
  apply list_elem_of_fmap in Hl as ([p l'] & -> & Hin). simpl.
  rewrite (sorted_by_index_perm (masked_lms st)) in Hin.
  apply (plan_labels _ _ _ Hplan) in Hin.
  rewrite Forall_forall in Htok. apply Htok.
  eapply list_elem_of_lookup_2; eauto.
Qed.

(** X1.  The positions of a returned plan are strictly ascending, there is
    one label per position, and each label is the id the input holds at
    its position, whatever was written there. *)
Theorem plan_sorted_with_original_labels
        (tokens : list Z) (g : R) (max_ngrams : Z)
        (whole_word favor_longer_ngram geometric_dist : bool)
        (out : list Z) (pos : list nat) (labs : list Z) (g' : R) :
  create_masked_lm_predictions self tokens g max_ngrams whole_word
                               favor_longer_ngram geometric_dist
  = Ok (out, pos, labs, g') ->
  StronglySorted lt pos
  /\ length labs = length pos
  /\ (forall i p l, pos !! i = Some p -> labs !! i = Some l -> tokens !! p = Some l).
Proof.
  intros H.
  apply planner_Ok in H as (c & B & st & _ & _ & Hinv & _ & Hperm & _ & Hpos & Hlabs).
  destruct Hinv as [Hplan _ _].
  split; [|split].
  - rewrite Hpos. apply sorted_keys_ascending; [apply sorted_by_index_sorted|].
    rewrite <- Hpos, Hperm. apply (plan_nodup _ _ _ Hplan).
  - rewrite Hpos, Hlabs, !length_map. reflexivity.
  - intros i p l Hp Hl. subst pos labs.
    change (map fst ?x) with (fst <$> x) in Hp.
    change (map snd ?x) with (snd <$> x) in Hl.
    rewrite list_lookup_fmap in Hp. rewrite list_lookup_fmap in Hl.
    destruct (sorted_by_index (masked_lms st) !! i) as [[p' l']|] eqn:Hi;
      [|discriminate].
    simpl in Hp, Hl. injection Hp as <-. injection Hl as <-.
    apply (plan_labels _ _ _ Hplan).
    rewrite <- (sorted_by_index_perm (masked_lms st)).
    eapply list_elem_of_lookup_2; eauto.
Qed.

End Planner.

(** ** Truncation, splitting and sample construction *)

Section Construction.

Context {R : Type} `{!RandomState R}.
Variable self : BertDataset.

(** *** Token and type assembly *)

(** X2.  The assembled sequence is [[CLS] A [SEP] B [SEP]], of length
    [len(A) + len(B) + 3]; the types are 0 through the first separator
    and 1 from there on, one per token. *)
Theorem assembly_shape (tokens_a tokens_b : list Z) :
  let '(tokens, token_types) := create_tokens_and_token_types self tokens_a tokens_b in
  tokens = cls_id self :: tokens_a ++ sep_id self :: tokens_b ++ [sep_id self]
  /\ token_types = replicate (length tokens_a + 2) 0 ++ replicate (length tokens_b + 1) 1
  /\ length tokens = (length tokens_a + length tokens_b + 3)%nat
  /\ length token_types = length tokens.
Proof.
  unfold create_tokens_and_token_types, py_repeat, len.
  replace (Z.to_nat (Z.of_nat (length tokens_a) + 2)) with (length tokens_a + 2)%nat by lia.
  replace (Z.to_nat (Z.of_nat (length tokens_b) + 1)) with (length tokens_b + 1)%nat by lia.
  repeat split.
  - simpl. rewrite !length_app. simpl. rewrite !length_app. simpl. lia.
  - simpl. rewrite !length_app, !length_replicate. simpl.
    rewrite !length_app. simpl. lia.
Qed.

(** *** The truncator (C5) *)

Lemma truncate_loop_eq (fuel : nat) (tokens_a tokens_b : list Z)
      (len_a len_b max_num_tokens : Z) :
  truncate_loop (R := R) fuel tokens_a tokens_b len_a len_b max_num_tokens
  = if len_a + len_b <=? max_num_tokens then Ok (tokens_a, tokens_b)
    else Raise (NameError "rng").
Proof. destruct fuel; simpl; destruct (len_a + len_b <=? max_num_tokens); reflexivity. Qed.

(** The fuel of [truncate_seq_pair] is enough: the result does not depend
    on it. *)
Lemma truncate_loop_fuel (fuel fuel' : nat) (tokens_a tokens_b : list Z)
      (len_a len_b max_num_tokens : Z) :
  truncate_loop (R := R) fuel tokens_a tokens_b len_a len_b max_num_tokens
  = truncate_loop (R := R) fuel' tokens_a tokens_b len_a len_b max_num_tokens.
Proof. rewrite !truncate_loop_eq. reflexivity. Qed.

(** C5, on the code.  A pair within the budget is returned unchanged; a
    pair over the budget never gets truncated: the first turn of the loop
    reads [rng], which is unbound, and the call raises [NameError]. *)
Theorem truncate_seq_pair_unbound_rng
        (tokens_a tokens_b : list Z) (max_num_tokens : Z) (np_rng : R) :
  truncate_seq_pair tokens_a tokens_b max_num_tokens np_rng
  = if len tokens_a + len tokens_b <=? max_num_tokens
    then Ok (tokens_a, tokens_b)
    else Raise (NameError "rng").
Proof. unfold truncate_seq_pair. apply truncate_loop_eq. Qed.

(** *** The splitter (C6) *)

Lemma py_range_nat (a b : nat) :
  py_range (Z.of_nat a) (Z.of_nat b) = map Z.of_nat (seq a (b - a)).
Proof.
  unfold py_range. replace (Z.to_nat (Z.of_nat b - Z.of_nat a)) with (b - a)%nat by lia.
  generalize (b - a)%nat as n. intros n.
  replace (seq a n) with (seq (a + 0) n) by (f_equal; lia).
  generalize 0%nat as s. induction n as [|n IH]; intros s; simpl; [reflexivity|].
  f_equal; [lia|]. rewrite IH. f_equal. f_equal. lia.
Qed.

Lemma extend_from_seq (sample : list (list Z)) :
  forall (n a : nat) (acc : list Z),
    (a + n <= length sample)%nat ->
    extend_from sample (map Z.of_nat (seq a n)) acc
    = Ok (acc ++ concat (take n (drop a sample))).
Proof.
  induction n as [|n IH]; intros a acc Hle; simpl.
  - rewrite app_nil_r. reflexivity.
  - destruct (lookup_lt_is_Some_2 sample a) as [x Hx]; [lia|].
    assert (Hidx : py_index sample (Z.of_nat a) = Ok x) by (apply py_index_nat; exact Hx).
    rewrite Hidx. simpl. rewrite IH by lia.
    rewrite (drop_S _ _ _ Hx). simpl. rewrite <- app_assoc. reflexivity.
Qed.

(** On a sample of at least two sentences the locals of the splitter
    are what the design describes: a split point [a_end] in
    [[1, num_sentences - 1]] (drawn by [randint] from three sentences
    on, 1 otherwise), the sentences before it and from it on, and the
    two segments exchanged exactly when the draw is below 0.5. *)
Lemma sentence_pair_locals_Ok (sample : list (list Z)) (np_rng : R) :
  (2 <= length sample)%nat ->
  exists (a_end : nat) (g1 g2 : R) (u : float),
    (1 <= a_end < length sample)%nat
    /\ (if 3 <=? len sample
        then randint 1 (len sample) np_rng = (Z.of_nat a_end, g1)
        else a_end = 1%nat /\ g1 = np_rng)
    /\ random g1 = (u, g2)
    /\ sentence_pair_locals sample np_rng
       = Ok (if (u <? f_0_5)%float
             then (concat (drop a_end sample), concat (take a_end sample), true, g2)
             else (concat (take a_end sample), concat (drop a_end sample), false, g2)).
Proof.
  intros Hlen. unfold sentence_pair_locals.
  replace (1 <? len sample) with true by (symmetry; apply Z.ltb_lt; unfold len; lia).
  simpl.
  assert (Hdraw : exists (a_end : nat) (g1 : R),
             (1 <= a_end < length sample)%nat
             /\ (if 3 <=? len sample
                 then randint 1 (len sample) np_rng = (Z.of_nat a_end, g1)
                 else a_end = 1%nat /\ g1 = np_rng)
             /\ (if 3 <=? len sample then py_randint 1 (len sample) np_rng
                 else Ok (1, np_rng)) = Ok (Z.of_nat a_end, g1)).
  { destruct (3 <=? len sample) eqn:H3.
    - apply Z.leb_le in H3. unfold py_randint.
      replace (1 <? len sample) with true by (symmetry; apply Z.ltb_lt; lia).
      pose proof (randint_range 1 (len sample) np_rng ltac:(lia)) as Hr.
      destruct (randint 1 (len sample) np_rng) as [a g1] eqn:Hrand. simpl in Hr.
      exists (Z.to_nat a), g1. unfold len in *.
      rewrite Z2Nat.id by lia. repeat split; try reflexivity; lia.
    - exists 1%nat, np_rng. repeat split; try reflexivity; lia. }
  destruct Hdraw as (a_end & g1 & Hrange & Hrand & ->). simpl.
  exists a_end, g1. destruct (random g1) as [u g2] eqn:Hu. exists g2, u.
  split; [exact Hrange|]. split; [exact Hrand|]. split; [reflexivity|].
  change 0 with (Z.of_nat 0). unfold len.
  rewrite !py_range_nat, !extend_from_seq by lia. simpl.
  rewrite Nat.sub_0_r, drop_0, take_ge by (rewrite length_drop; lia).
  destruct (u <? f_0_5)%float; reflexivity.
Qed.

(** C6, on the code.  On every sample of at least two sentences the
    splitter raises [NameError]: its [return] reads [is_random_next],
    and the flag was computed under the name [is_next_random]. *)
Theorem create_random_sentence_pair_unbound_flag
        (sample : list (list Z)) (np_rng : R) :
  (2 <= length sample)%nat ->
  create_random_sentence_pair sample np_rng = Raise (NameError "is_random_next").
Proof.
  intros Hlen. unfold create_random_sentence_pair.
  destruct (sentence_pair_locals_Ok sample np_rng Hlen)
    as (a_end & g1 & g2 & u & _ & _ & _ & ->).
  destruct (u <? f_0_5)%float; reflexivity.
Qed.

(** *** A zero masking probability (C7) *)

(** C7, on the code.  With [mask_lm_prob == 0] the planner raises
    [UnboundLocalError]: the early [return] reads [output_tokens] above
    the line that assigns it. *)
Theorem zero_mask_prob_unbound_output
        (tokens : list Z) (np_rng : R) (max_ngrams : Z)
        (do_whole_word_mask favor_longer_ngram geometric_dist : bool) :
  (mask_lm_prob self =? 0)%float = true ->
  create_masked_lm_predictions self tokens np_rng max_ngrams do_whole_word_mask
                               favor_longer_ngram geometric_dist
  = Raise (UnboundLocalError "output_tokens").
Proof.
  intros Hzero. unfold create_masked_lm_predictions. rewrite Hzero. reflexivity.
Qed.

(** *** The returned record (C8) *)

(** C8, on the code.  Sample construction returns on no input: the
    dictionary it builds has a seventh entry, ["truncated"], whose value
    reads a name that nothing binds, so whatever got that far ends in
    [NameError]; [__getitem__] passes the exception on. *)
Theorem create_training_sample_never_returns
        (sample : list (list Z)) (target_seq_length : Z) (np_rng : R) (idx : Z) :
  raises (create_training_sample self sample target_seq_length np_rng)
  /\ raises (__getitem__ (R := R) self idx).
Proof.
  assert (Hcore : forall sample target_seq_length (np_rng : R),
             raises (create_training_sample self sample target_seq_length np_rng)).
  { clear. intros sample target_seq_length np_rng.
    destruct (create_training_sample self sample target_seq_length np_rng)
      as [d|e] eqn:H; [exfalso | exists e; reflexivity].
    unfold create_training_sample in H.
    inv_bind H. inv_bind H. inv_bind H.
    destruct a1 as [[[tokens_a tokens_b] is_next_random] g1].
    inv_bind H. destruct a1 as [tokens_a' tokens_b'].
    destruct (create_tokens_and_token_types self tokens_a' tokens_b')
      as [tokens token_types].
    inv_bind H. destruct a1 as [[[tokens' masked_positions] masked_labels] g2].
    inv_bind H. destruct a1 as [[[[? ?] ?] ?] ?].
    inv_bind H. discriminate. }
  split; [apply Hcore|].
  unfold __getitem__. destruct (py_index (samples_mapping self) idx) as [[[s e] l]|err];
    simpl; [|exists err; reflexivity].
  destruct (gather (indexed_dataset self) (py_range s e)) as [smp|err];
    simpl; [apply Hcore | exists err; reflexivity].
Qed.

(** *** Too few sentences (C9) *)

(** C9.  In binary-head mode a sample of fewer than two sentences makes
    sample construction fail on its first assertion, [len(sample) > 1];
    the splitter states the same precondition; and [__getitem__] hands
    the failure to its caller as it is. *)
Theorem too_few_sentences_rejected
        (sample : list (list Z)) (target_seq_length : Z) (np_rng : R) :
  binary_head self = true ->
  (length sample < 2)%nat ->
  create_training_sample self sample target_seq_length np_rng
  = Raise (AssertionError "len(sample) > 1")
  /\ create_random_sentence_pair sample np_rng
     = Raise (AssertionError "num_sentences > 1")
  /\ (forall idx start_idx end_idx seq_length,
        py_index (samples_mapping self) idx = Ok (start_idx, end_idx, seq_length) ->
        gather (indexed_dataset self) (py_range start_idx end_idx) = Ok sample ->
        __getitem__ (R := R) self idx = Raise (AssertionError "len(sample) > 1")).
Proof.
  intros Hbin Hlen.
  assert (Hfew : (1 <? len sample) = false) by (apply Z.ltb_ge; unfold len; lia).
  assert (Hcore : forall target (g : R),
             create_training_sample self sample target g
             = Raise (AssertionError "len(sample) > 1")).
  { intros target g. unfold create_training_sample. rewrite Hbin, Hfew. reflexivity. }
  split; [apply Hcore|]. split.
  - unfold create_random_sentence_pair, sentence_pair_locals. rewrite Hfew. reflexivity.
  - intros idx start_idx end_idx seq_length Hrow Hsample.
    unfold __getitem__. rewrite Hrow. simpl. rewrite Hsample. simpl. apply Hcore.
Qed.

End Construction.

(** ** Runs on the demo dataset *)

(** Evaluate a closed run of the builder. *)
Ltac run := vm_compute; reflexivity.

(** The planner masks both pieces of [play ##ing]: position 2 holds a
    continuation piece and follows the masked position 1. *)
Lemma whole_words_never_split_witness :
  continuation Demo.bert Demo.tokens 2 /\ 2%nat ∈ [1%nat; 2%nat].
Proof.
  assert (Hc : continuation Demo.bert Demo.tokens 2).
  { exists 102, "##ing"%string. repeat split; run. }
  assert (Hrun : create_masked_lm_predictions Demo.bert Demo.tokens Demo.tape_shorten
                                              3 true false false
                 = Ok ([1; 3; 3; 103; 2; 201; 202; 203; 204; 2], [1; 2]%nat,
                       [101; 102], [5])) by run.
  split; [exact Hc|].
  apply (proj1 (whole_words_never_split _ _ _ _ _ _ _ _ _ _ Hrun) 1%nat);
    [left | exact Hc].
Defined.

(** A word that straddles the separator is one group and is masked as
    one. *)
Example straddling_word_masked :
  cand_scan Demo.half true 0 Demo.straddling [] = Ok [[1; 3]; [4]]%nat
  /\ create_masked_lm_predictions Demo.half Demo.straddling [0; 0; 0; 0; 0; 0; 0; 0; 9]
                                  3 true false false
     = Ok ([1; 3; 2; 3; 3; 2], [1; 3; 4]%nat, [101; 102; 103], [0; 9]).
Proof. split; run. Qed.

(** With a budget of five the plan holds four distinct positions below
    the ten tokens.  On the way the turn at [the], taken once
    [play ##ing the] is committed, drew the 1-gram [the], found position
    3 covered and changed nothing but the random state. *)
Lemma masked_positions_disjoint_witness :
  let st := MaskState [1; 3; 3; 3; 2; 201; 202; 203; 204; 2]
                      [(1%nat, 101); (2%nat, 102); (3%nat, 103)]
                      (list_to_set [1; 2; 3]%nat) [0; 7] in
  let cis := [[[3]]; [[3]; [5; 6; 7]]; [[3]; [5; 6; 7]; [8]]]%nat in
  NoDup [1; 2; 3; 8]%nat
  /\ Forall (fun q => (q < length Demo.tokens)%nat) [1; 2; 3; 8]%nat
  /\ exists s,
      turn Demo.half 5 cis st (set_rng st [7]) 1 [7] 1 s
      /\ concat s = [3%nat]
      /\ overlaps (concat s) (covered_indexes st).
Proof.
  intros st cis.
  assert (Hrun : create_masked_lm_predictions Demo.half Demo.tokens Demo.tape_overlap
                                              3 true false false
                 = Ok ([1; 3; 3; 3; 2; 201; 202; 203; 204; 2], [1; 2; 3; 8]%nat,
                       [101; 102; 103; 204], [7])) by run.
  assert (Hturn : process_candidate Demo.half false 3 (ngrams_of 3) (pvals_of 3 false) 5
                                    cis st = Ok (set_rng st [7])) by run.
  assert (Hd : draw_n false 3 (ngrams_of 3) (pvals_of 3 false) cis (rng_state st)
               = Ok (1, [7])) by run.
  assert (Hne : cis <> []) by (unfold cis; discriminate).
  assert (Hlen : length cis = length (ngrams_of 3)) by reflexivity.
  destruct (masked_positions_disjoint _ _ _ _ _ _ _ _ _ _ _ Hrun)
    as (Hnd & Hrange & Hturns).
  split; [exact Hnd|]. split; [exact Hrange|].
  destruct (Hturns (pvals_of 3 false) 5 cis st (set_rng st [7]) Hne Hlen Hturn)
    as (N & g1 & M & s & Hdraw & Ht & _).
  rewrite Hd in Hdraw. injection Hdraw as <- <-.
  pose proof (turn_range _ _ _ _ _ _ _ _ _ Ht) as [HM _].
  assert (M = 1) by lia. subst M.
  pose proof (turn_span _ _ _ _ _ _ _ _ _ Ht) as Hspan.
  vm_compute in Hspan. injection Hspan as <-.
  exists [[3%nat]]. split; [exact Ht|]. split; [reflexivity|].
  exists 3%nat. split; [left | apply (bool_decide_eq_true_1 _); reflexivity].
Defined.

(** Ten tokens at probability 0.15 give a budget of two.  The first turn
    draws the 3-gram at [play]; it and the 2-gram exceed the budget, and
    the turn goes on with the 1-gram [play ##ing], which it commits. *)
Lemma masking_budget_respected_witness :
  let st := MaskState Demo.tokens [] ∅ [2; 0; 0; 5] in
  let st' := MaskState [1; 3; 3; 103; 2; 201; 202; 203; 204; 2]
                       [(1%nat, 101); (2%nat, 102)] (list_to_set [1; 2]%nat) [5] in
  let cis := [[[1; 2]]; [[1; 2]; [3]]; [[1; 2]; [3]; [5; 6; 7]]]%nat in
  (exists r,
      py_round (float_of_int (len Demo.tokens) * mask_lm_prob Demo.bert)%float = Ok r
      /\ num_to_predict Demo.bert Demo.tokens = Ok (Z.min 20 (Z.max 1 r))
      /\ len [1; 2]%nat <= Z.min 20 (Z.max 1 r))
  /\ exists s,
      turn Demo.bert 2 cis st st' 3 [0; 0; 5] 1 s
      /\ concat s = [1; 2]%nat
      /\ positions st' = positions st ++ concat s.
Proof.
  intros st st' cis.
  assert (Hrun : create_masked_lm_predictions Demo.bert Demo.tokens Demo.tape_shorten
                                              3 true false false
                 = Ok ([1; 3; 3; 103; 2; 201; 202; 203; 204; 2], [1; 2]%nat,
                       [101; 102], [5])) by run.
  assert (Hturn : process_candidate Demo.bert false 3 (ngrams_of 3) (pvals_of 3 false) 2
                                    cis st = Ok st') by run.
  assert (Hd : draw_n false 3 (ngrams_of 3) (pvals_of 3 false) cis (rng_state st)
               = Ok (3, [0; 0; 5])) by run.
  assert (Hne : cis <> []) by (unfold cis; discriminate).
  assert (Hlen : length cis = length (ngrams_of 3)) by reflexivity.
  destruct (masking_budget_respected _ _ _ _ _ _ _ _ _ _ _ Hrun) as [Hbudget Hturns].
  split.
  - destruct Hbudget as (r & Hround & Hnum & Hle & _).
    exists r. repeat split; [exact Hround | exact Hnum | apply Hle; simpl; lia].
  - destruct (Hturns (pvals_of 3 false) 2 cis st st' Hne Hlen Hturn)
      as (N & g1 & M & s & Hdraw & Ht & HM & Hspan & _ & _ & Hover & Hcommit & _).
    rewrite Hd in Hdraw. injection Hdraw as <- <-.
    assert (HM1 : M = 1).
    { assert (Hcases : M = 1 \/ M = 2 \/ M = 3) by lia.
      destruct Hcases as [->|[->| ->]]; [reflexivity | |];
        vm_compute in Hspan; injection Hspan as <-;
        apply Hover; vm_compute; reflexivity. }
    subst M. vm_compute in Hspan. injection Hspan as <-.
    exists [[1; 2]%nat]. split; [exact Ht|]. split; [reflexivity|].
    apply Hcommit.
    + vm_compute. discriminate.
    + intros (q & _ & Hq). revert Hq. apply not_elem_of_empty.
Defined.

Example demo_num_to_predict : num_to_predict Demo.bert Demo.tokens = Ok 2.
Proof. run. Qed.

(** With [the] and [now] masked, the other eight tokens are the input's,
    the separator at position 4 among them. *)
Lemma unmasked_tokens_unchanged_witness :
  let out := [1; 101; 102; 3; 2; 201; 202; 203; 3; 2] in
  length out = length Demo.tokens
  /\ out !! 1%nat = Demo.tokens !! 1%nat
  /\ (4%nat ∉ [3; 8]%nat) /\ (out !! 4%nat = Some 2).
Proof.
  intros out.
  assert (Hrun : create_masked_lm_predictions Demo.bert Demo.tokens Demo.tape
                                              3 true false false
                 = Ok (out, [3; 8]%nat, [103; 204], [200; 300])) by run.
  destruct (unmasked_tokens_unchanged _ _ _ _ _ _ _ _ _ _ _ Hrun) as (Hlen & Hframe & Hsp).
  split; [exact Hlen|]. split.
  - apply Hframe. intros Hin. repeat (apply elem_of_cons in Hin as [Hin|Hin]; [lia|]).
    inversion Hin.
  - apply (Hsp 4%nat 2); run.
Defined.

(** The design document's truncation scenario: eight and five tokens
    against a budget of ten. *)
Example truncation_scenario_raises :
  truncate_seq_pair [11; 12; 13; 14; 15; 16; 17; 18] [21; 22; 23; 24; 25] 10
                    Demo.tape
  = Raise (NameError "rng").
Proof. run. Qed.

(** The two-sentence document: on reaching the [return] the locals hold
    the swapped pair (the draw 1 stands for 0.001), and the call raises. *)
Lemma create_random_sentence_pair_unbound_flag_witness :
  sentence_pair_locals (indexed_dataset Demo.bert) Demo.tape
  = Ok ([201; 202; 203; 204], [101; 102; 103], true,
        [1; 2; 5; 1; 100; 900; 100; 2; 100; 200; 300])
  /\ create_random_sentence_pair (indexed_dataset Demo.bert) Demo.tape
     = Raise (NameError "is_random_next").
Proof.
  split; [run|].
  apply (create_random_sentence_pair_unbound_flag (indexed_dataset Demo.bert) Demo.tape).
  simpl. lia.
Defined.

(** The demo document under a masking probability of zero. *)
Lemma zero_mask_prob_unbound_output_witness :
  create_masked_lm_predictions (Demo.dataset true 0%float) Demo.tokens Demo.tape
                               3 true false false
  = Raise (UnboundLocalError "output_tokens").
Proof.
  apply (zero_mask_prob_unbound_output (Demo.dataset true 0%float)). run.
Defined.

(** Without the binary head the demo sample gets as far as the
    dictionary literal. *)
Example demo_sample_unbound_truncated :
  create_training_sample (Demo.dataset false Demo.f_0_15)
                         [[101; 102; 103]; [201; 202; 203; 204]] 10 Demo.tape_shorten
  = Raise (NameError "truncated").
Proof. run. Qed.

(** Row 1 of the demo mapping spans a single sentence. *)
Lemma too_few_sentences_rejected_witness :
  create_training_sample Demo.bert [[101; 102; 103]] 10 Demo.tape
  = Raise (AssertionError "len(sample) > 1")
  /\ __getitem__ (R := list Z) Demo.bert 1 = Raise (AssertionError "len(sample) > 1").
Proof.
  assert (Hbin : binary_head Demo.bert = true) by reflexivity.
  assert (Hfew : (length [[101; 102; 103]] < 2)%nat) by (simpl; lia).
  destruct (too_few_sentences_rejected Demo.bert [[101; 102; 103]] 10 Demo.tape Hbin Hfew)
    as (Hcore & _ & Hget).
  split; [exact Hcore|]. apply (Hget 1 0 1 10); run.
Defined.

(** The plan of the second demo run is ascending and carries the
    original ids. *)
Lemma plan_sorted_with_original_labels_witness :
  StronglySorted lt [1; 2; 3; 8]%nat
  /\ Demo.tokens !! 8%nat = Some 204.
Proof.
  assert (Hrun : create_masked_lm_predictions Demo.half Demo.tokens Demo.tape_overlap
                                              3 true false false
                 = Ok ([1; 3; 3; 3; 2; 201; 202; 203; 204; 2], [1; 2; 3; 8]%nat,
                       [101; 102; 103; 204], [7])) by run.
  destruct (plan_sorted_with_original_labels _ _ _ _ _ _ _ _ _ _ _ Hrun)
    as (Hsorted & _ & Hlabels).
  split; [exact Hsorted|]. apply (Hlabels 3%nat 8%nat 204); reflexivity.
Defined.

(** The assembled sequence of the design document's example. *)
Example demo_assembly :
  create_tokens_and_token_types Demo.bert [101; 102; 103] [201; 202; 203; 204]
  = (Demo.tokens, Demo.token_types).
Proof. run. Qed.

(** The three branches of [mask_token] at [play]: a draw below 0.8
    writes [mask_id]; otherwise a second draw below 0.5 keeps the token;
    otherwise the call stops at [np.rng].  The label is the original id
    in the branches that return. *)
Example mask_token_branches :
  mask_token Demo.bert 1 Demo.tokens [100; 7]
  = Ok ([1; 3; 102; 103; 2; 201; 202; 203; 204; 2], 101, [7])
  /\ mask_token Demo.bert 1 Demo.tokens [900; 100; 7] = Ok (Demo.tokens, 101, [7])
  /\ mask_token Demo.bert 1 Demo.tokens [900; 900; 7] = Raise (AttributeError "np" "rng").
Proof. repeat split; run. Qed.

(** [round] goes to the even neighbour on a tie, and [10 * 0.15] is the
    float 1.5. *)
Example py_round_ties :
  py_round 0x1.4p+1%float = Ok 2 /\ py_round 0x1.cp+1%float = Ok 4
  /\ py_round (float_of_int 10 * Demo.f_0_15)%float = Ok 2.
Proof. repeat split; run. Qed.

Example is_start_piece_marks :
  is_start_piece "play" = true /\ is_start_piece "##ing" = false.
Proof. split; reflexivity. Qed.

(** [__init__]'s default cap for 512 tokens at probability 0.15, and
    for a negative length, where [math.ceil(-0.075)] is 0. *)
Example demo_default_max_preds :
  default_max_preds_per_seq 512 Demo.f_0_15 = Ok 80
  /\ default_max_preds_per_seq (-5) Demo.f_0_15 = Ok 0
  /\ default_max_preds_per_seq (2 ^ 1024) Demo.f_0_15 = Raise OverflowError.
Proof. repeat split; run. Qed.

(** On the integers the module converts elsewhere, both conversions
    agree. *)
Example py_float_small :
  py_float 10 = Ok (float_of_int 10) /\ py_float 0 = Ok (float_of_int 0)
  /\ py_float (2 ^ 53 + 1) = Ok (float_of_int (2 ^ 53 + 1)).
Proof. repeat split; run. Qed.

(** The n-grams that start at [play], as the planner lists them. *)
Example demo_ngrams_at_play :
  nth 0 (ngram_indexes_of [[1; 2]; [3]; [5; 6; 7]; [8]]%nat (ngrams_of 3)) []
  = [[[1; 2]]; [[1; 2]; [3]]; [[1; 2]; [3]; [5; 6; 7]]]%nat.
Proof. run. Qed.

(** Against a budget of two the 3-gram at [play] (six positions) is cut
    to the 2-gram (three positions) and then to the 1-gram, which fits;
    against a budget of one even the 1-gram is too long and the loop
    stops at [n = 0]. *)
Example shorten_to_budget :
  let cis := [[[1; 2]]; [[1; 2]; [3]]; [[1; 2]; [3]; [5; 6; 7]]]%nat in
  shorten 5 cis 0 2 [1; 2; 3; 5; 6; 7]%nat 2 = Ok ([1; 2]%nat, 0)
  /\ shorten 5 cis 0 1 [1; 2; 3; 5; 6; 7]%nat 2 = Ok ([1; 2]%nat, 0)
  /\ shorten 5 cis 0 6 [1; 2; 3; 5; 6; 7]%nat 2 = Ok ([1; 2; 3; 5; 6; 7]%nat, 2).
Proof. repeat split; run. Qed.

(** A turn on the n-grams at [the] once [play ##ing the] is committed:
    the 1-gram drawn overlaps the covered set and nothing but the random
    state changes. *)
Example covered_candidate_skipped :
  let st := MaskState [1; 3; 3; 3; 2; 201; 202; 203; 204; 2]
                      [(1%nat, 101); (2%nat, 102); (3%nat, 103)]
                      (list_to_set [1; 2; 3]%nat) [0; 7] in
  process_candidate Demo.half false 3 (ngrams_of 3) (pvals_of 3 false) 5
                    [[[3]]; [[3]; [5; 6; 7]]; [[3]; [5; 6; 7]; [8]]]%nat st
  = Ok (set_rng st [7]).
Proof. run. Qed.

(** * Further properties *)

(** ** The scan of word groups *)

Section Scan.

Variable self : BertDataset.

(** One step of the scan, with the vocabulary lookup laid open. *)
Lemma cand_scan_cons (whole_word : bool) (i : nat) (token : Z) (rest : list Z)
      (c : list (list nat)) :
  cand_scan self whole_word i (token :: rest) c
  = if is_special self token then cand_scan self whole_word (S i) rest c
    else if whole_word && (1 <=? len c) then
      match vocab_id_to_token_dict self !! token with
      | None => Raise (KeyError token)
      | Some piece =>
          if is_start_piece piece then cand_scan self whole_word (S i) rest (c ++ [[i]])
          else match last c with
               | Some g => cand_scan self whole_word (S i) rest (removelast c ++ [g ++ [i]])
               | None => Raise IndexError
               end
      end
    else cand_scan self whole_word (S i) rest (c ++ [[i]]).
Proof.
  simpl. destruct (is_special self token); [reflexivity|].
  destruct (whole_word && (1 <=? len c)); [|reflexivity].
  unfold piece_of. destruct (vocab_id_to_token_dict self !! token) as [piece|];
    [|reflexivity].
  simpl. destruct (is_start_piece piece); simpl; [reflexivity|].
  unfold append_to_last. destruct (last c); reflexivity.
Qed.

(** Under the guard [len(cand_indexes) >= 1] the last group exists. *)
Lemma last_of_nonempty (c : list (list nat)) :
  (1 <=? len c) = true -> exists c1 g, c = c1 ++ [g] /\ last c = Some g.
Proof.
  intros Hlen. apply Z.leb_le in Hlen. unfold len in Hlen.
  destruct (last c) as [g|] eqn:Hl.
  - pose proof Hl as Hl'. apply last_Some in Hl' as [c1 ->]. eauto.
  - apply last_None in Hl. subst c. simpl in Hlen. lia.
Qed.

Lemma cand_scan_concat (whole_word : bool) :
  forall (rest : list Z) (i : nat) (c0 c : list (list nat)),
    cand_scan self whole_word i rest c0 = Ok c ->
    concat c = concat c0 ++ candidate_positions self i rest
    /\ (Forall (fun g => g <> []) c0 -> Forall (fun g => g <> []) c).
Proof.
  induction rest as [|token rest IH]; intros i c0 c H.
  - simpl in H. injection H as <-. simpl. rewrite app_nil_r. auto.
  - rewrite cand_scan_cons in H. simpl.
    destruct (is_special self token); [apply IH; exact H|].
    assert (Hnew : forall c',
               cand_scan self whole_word (S i) rest (c0 ++ [[i]]) = Ok c' ->
               concat c' = concat c0 ++ i :: candidate_positions self (S i) rest
               /\ (Forall (fun g => g <> []) c0 -> Forall (fun g => g <> []) c')).
    { intros c' H'. apply IH in H' as [Hcat Hne]. split.
      - rewrite Hcat, concat_app. simpl. rewrite <- app_assoc. reflexivity.
      - intros H0. apply Hne. apply Forall_app. split; [exact H0|].
        repeat constructor. discriminate. }
    destruct (whole_word && (1 <=? len c0)) eqn:Hcond; [|apply Hnew; exact H].
    destruct (vocab_id_to_token_dict self !! token) as [piece|]; [|discriminate].
    destruct (is_start_piece piece); [apply Hnew; exact H|].
    apply andb_prop in Hcond as [_ Hlen].
    destruct (last_of_nonempty c0 Hlen) as (c1 & g & -> & Hlast).
    rewrite Hlast, removelast_last in H. apply IH in H as [Hcat Hne]. split.
    + rewrite Hcat, !concat_app. simpl. rewrite !app_nil_r, <- !app_assoc. reflexivity.
    + intros H0. apply Hne. apply Forall_app in H0 as [H1 _].
      apply Forall_app. split; [exact H1|]. repeat constructor.
      intros Hnil. apply app_eq_nil in Hnil as [_ Hnil]. discriminate.
Qed.

Lemma candidate_positions_bounds :
  forall (tokens : list Z) (i q : nat),
    q ∈ candidate_positions self i tokens ->
    (i <= q)%nat
    /\ exists token, tokens !! (q - i)%nat = Some token /\ is_special self token = false.
Proof.
  induction tokens as [|token rest IH]; intros i q Hq; simpl in Hq; [inversion Hq|].
  destruct (is_special self token) eqn:Hsp.
  - apply IH in Hq as (Hle & tok & Hlook & Htok). split; [lia|].
    exists tok. replace (q - i)%nat with (S (q - S i)) by lia. auto.
  - apply elem_of_cons in Hq as [->|Hq].
    + split; [lia|]. exists token. rewrite Nat.sub_diag. auto.
    + apply IH in Hq as (Hle & tok & Hlook & Htok). split; [lia|].
      exists tok. replace (q - i)%nat with (S (q - S i)) by lia. auto.
Qed.

Lemma candidate_positions_complete :
  forall (tokens : list Z) (i k : nat) (token : Z),
    tokens !! k = Some token -> is_special self token = false ->
    (i + k)%nat ∈ candidate_positions self i tokens.
Proof.
  induction tokens as [|t rest IH]; intros i k token Hk Hsp; [inversion Hk|].
  simpl. destruct k as [|k]; simpl in Hk.
  - injection Hk as ->. rewrite Hsp, Nat.add_0_r. left.
  - replace (i + S k)%nat with (S i + k)%nat by lia.
    destruct (is_special self t); [|right]; eapply IH; eauto.
Qed.

Lemma candidate_positions_sorted :
  forall (tokens : list Z) (i : nat),
    StronglySorted lt (candidate_positions self i tokens).
Proof.
  induction tokens as [|token rest IH]; intros i; simpl; [constructor|].
  destruct (is_special self token); [apply IH|].
  constructor; [apply IH|]. apply Forall_forall. intros q Hq.
  apply candidate_positions_bounds in Hq as [Hle _]. lia.
Qed.

Lemma elem_of_candidate_positions (tokens : list Z) (q : nat) :
  q ∈ candidate_positions self 0 tokens <-> candidate_pos self tokens q.
Proof.
  split.
  - intros Hq. apply candidate_positions_bounds in Hq as (_ & token & Hlook & Hsp).
    rewrite Nat.sub_0_r in Hlook. exists token. auto.
  - intros (token & Hlook & Hsp).
    apply (candidate_positions_complete tokens 0 q token Hlook Hsp).
Qed.

(** X3.  The groups of a returned scan, read one after the other, are
    exactly the positions that hold neither [cls] nor [sep], in
    ascending order: every such position lies in a group, no other
    position does, and no group is empty. *)
Theorem groups_partition_candidates
        (whole_word : bool) (tokens : list Z) (c : list (list nat)) :
  cand_scan self whole_word 0 tokens [] = Ok c ->
  concat c = candidate_positions self 0 tokens
  /\ StronglySorted lt (concat c)
  /\ Forall (fun g => g <> []) c
  /\ (forall q, candidate_pos self tokens q <-> exists g, g ∈ c /\ q ∈ g).
Proof.
  intros H. apply cand_scan_concat in H as [Hcat Hne]. simpl in Hcat.
  split; [exact Hcat|]. split; [rewrite Hcat; apply candidate_positions_sorted|].
  split; [apply Hne; constructor|].
  intros q. rewrite <- elem_of_candidate_positions, <- Hcat. apply elem_of_concat.
Qed.

Lemma cand_scan_single_positions :
  forall (rest : list Z) (i : nat) (c0 : list (list nat)),
    cand_scan self false i rest c0
    = Ok (c0 ++ map (fun q => [q]) (candidate_positions self i rest)).
Proof.
  induction rest as [|token rest IH]; intros i c0.
  - simpl. rewrite app_nil_r. reflexivity.
  - rewrite cand_scan_cons. simpl.
    destruct (is_special self token); [apply IH|].
    rewrite IH. simpl. rewrite <- app_assoc. reflexivity.
Qed.

(** X4.  Without whole-word masking the scan always returns, never
    consulting the vocabulary: each position that holds neither [cls]
    nor [sep] is a group of its own. *)
Theorem scan_without_whole_words (tokens : list Z) :
  cand_scan self false 0 tokens []
  = Ok (map (fun q => [q]) (candidate_positions self 0 tokens)).
Proof. apply cand_scan_single_positions. Qed.

Lemma cand_scan_returns_nonempty :
  forall (rest : list Z) (i : nat) (c0 : list (list nat)),
    c0 <> [] ->
    (exists c, cand_scan self true i rest c0 = Ok c)
    <-> Forall (has_piece self) (candidate_tokens self rest).
Proof.
  induction rest as [|token rest IH]; intros i c0 Hne.
  - simpl. split; [constructor | eauto].
  - rewrite cand_scan_cons. unfold candidate_tokens. simpl.
    destruct (is_special self token); simpl; [apply IH; exact Hne|].
    assert (Hlen : (1 <=? len c0) = true).
    { apply Z.leb_le. unfold len. destruct c0; [congruence | simpl; lia]. }
    rewrite Hlen. simpl. fold (candidate_tokens self rest).
    destruct (vocab_id_to_token_dict self !! token) as [piece|] eqn:Hpiece.
    + assert (Hhas : has_piece self token) by (unfold has_piece; rewrite Hpiece; eauto).
      rewrite Forall_cons.
      destruct (is_start_piece piece).
      * rewrite IH; [tauto|]. intros Hnil. apply app_eq_nil in Hnil as [_ Hnil].
        discriminate.
      * destruct (last_of_nonempty c0 Hlen) as (c1 & g & -> & Hlast).
        rewrite Hlast. rewrite IH; [tauto|].
        intros Hnil. apply app_eq_nil in Hnil as [_ Hnil]. discriminate.
    + split; [intros [c Hc]; discriminate|].
      intros Hall. apply Forall_cons in Hall as [[piece Hhas] _].
      unfold has_piece in *. congruence.
Qed.

Lemma cand_scan_returns_empty :
  forall (rest : list Z) (i : nat),
    (exists c, cand_scan self true i rest [] = Ok c)
    <-> Forall (has_piece self) (tail (candidate_tokens self rest)).
Proof.
  induction rest as [|token rest IH]; intros i.
  - simpl. split; [constructor | eauto].
  - rewrite cand_scan_cons. unfold candidate_tokens. simpl.
    destruct (is_special self token); simpl; [apply IH|].
    apply cand_scan_returns_nonempty. discriminate.
Qed.

Lemma cand_scan_Raise (whole_word : bool) :
  forall (rest : list Z) (i : nat) (c0 : list (list nat)) (e : exn),
    cand_scan self whole_word i rest c0 = Raise e ->
    whole_word = true
    /\ exists token,
        e = KeyError token /\ token ∈ rest /\ is_special self token = false
        /\ vocab_id_to_token_dict self !! token = None.
Proof.
  induction rest as [|token rest IH]; intros i c0 e H; [discriminate|].
  rewrite cand_scan_cons in H.
  assert (Hlater : forall c',
             cand_scan self whole_word (S i) rest c' = Raise e ->
             whole_word = true
             /\ exists tok,
                 e = KeyError tok /\ tok ∈ token :: rest /\ is_special self tok = false
                 /\ vocab_id_to_token_dict self !! tok = None).
  { intros c' H'. apply IH in H' as (Hww & tok & He & Hin & Hsp & Hnone).
    split; [exact Hww|]. exists tok. repeat split; auto. right. exact Hin. }
  destruct (is_special self token) eqn:Hsp; [eapply Hlater; eauto|].
  destruct (whole_word && (1 <=? len c0)) eqn:Hcond; [|eapply Hlater; eauto].
  apply andb_prop in Hcond as [-> Hlen].
  destruct (vocab_id_to_token_dict self !! token) as [piece|] eqn:Hpiece.
  - destruct (is_start_piece piece); [eapply Hlater; eauto|].
    destruct (last_of_nonempty c0 Hlen) as (c1 & g & -> & Hlast).
    rewrite Hlast in H. eapply Hlater; eauto.
  - injection H as <-. split; [reflexivity|]. exists token.
    repeat split; auto. left.
Qed.

(** X5.  In whole-word mode the scan returns exactly when the
    vocabulary has a piece for every token other than [cls] and [sep]
    that follows the first such token (the first one opens a group
    without being looked up); when it does not return, it raises
    [KeyError] for a token of the input that the vocabulary lacks. *)
Theorem scan_returns_iff_pieces_known (tokens : list Z) :
  ((exists c, cand_scan self true 0 tokens [] = Ok c)
   <-> Forall (has_piece self) (tail (candidate_tokens self tokens)))
  /\ (forall e,
        cand_scan self true 0 tokens [] = Raise e ->
        exists token,
          e = KeyError token /\ token ∈ tokens /\ is_special self token = false
          /\ vocab_id_to_token_dict self !! token = None).
Proof.
  split; [apply cand_scan_returns_empty|].
  intros e H. apply cand_scan_Raise in H as [_ H]. exact H.
Qed.

Lemma cand_scan_word_groups (tokens : list Z) :
  forall (rest pre : list Z) (c0 c : list (list nat)),
    tokens = pre ++ rest ->
    Forall (word_group self tokens) c0 ->
    (forall q, (q < length pre)%nat -> candidate_pos self tokens q -> q ∈ concat c0) ->
    cand_scan self true (length pre) rest c0 = Ok c ->
    Forall (word_group self tokens) c.
Proof.
  induction rest as [|token rest IH]; intros pre c0 c Htok Hgr Hseen H.
  - simpl in H. injection H as <-. exact Hgr.
  - assert (Hi : tokens !! length pre = Some token).
    { subst tokens. rewrite lookup_app_r by lia. rewrite Nat.sub_diag. reflexivity. }
    assert (Htok' : tokens = (pre ++ [token]) ++ rest)
      by (rewrite <- app_assoc; exact Htok).
    assert (Hlen : length (pre ++ [token]) = S (length pre))
      by (rewrite length_app; simpl; lia).
    rewrite cand_scan_cons, <- Hlen in H.
    assert (Hseen' : forall c',
               (forall q, q ∈ concat c0 -> q ∈ concat c') ->
               (is_special self token = false -> length pre ∈ concat c') ->
               forall q, (q < length (pre ++ [token]))%nat ->
                         candidate_pos self tokens q -> q ∈ concat c').
    { intros c' Hsub Hnew q Hq Hcand. rewrite Hlen in Hq.
      destruct (decide (q = length pre)) as [->|Hne].
      - apply Hnew. destruct Hcand as (tok & Hlook & Hsp). congruence.
      - apply Hsub, Hseen; [lia | exact Hcand]. }
    destruct (is_special self token) eqn:Hsp.
    { eapply IH; [exact Htok' | exact Hgr | | exact H].
      apply Hseen'; [auto | discriminate]. }
    assert (Hopen : first_candidate self tokens (length pre)
                    \/ start_piece_at self tokens (length pre) ->
                    forall c', cand_scan self true (length (pre ++ [token])) rest
                                         (c0 ++ [[length pre]]) = Ok c' ->
                               Forall (word_group self tokens) c').
    { intros Hhead c' H'. eapply IH; [exact Htok' | | | exact H'].
      - apply Forall_app. split; [exact Hgr|]. repeat constructor.
        exists (length pre), []. repeat split; auto.
      - apply Hseen'.
        + intros q Hq. rewrite concat_app. apply elem_of_app. auto.
        + intros _. rewrite concat_app. apply elem_of_app. right. simpl. left. }
    simpl in H. destruct (1 <=? len c0) eqn:Hc0.
    + destruct (vocab_id_to_token_dict self !! token) as [piece|] eqn:Hpiece;
        [|discriminate].
      destruct (is_start_piece piece) eqn:Hstart.
      * apply Hopen; [right; exists token, piece; auto | exact H].
      * destruct (last_of_nonempty c0 Hc0) as (c1 & g & -> & Hlast).
        rewrite Hlast, removelast_last in H.
        eapply IH; [exact Htok' | | | exact H].
        -- apply Forall_app in Hgr as [Hc1 Hg]. apply Forall_app. split; [exact Hc1|].
           apply Forall_inv in Hg. destruct Hg as (h & tl & -> & Htl & Hhead).
           repeat constructor. exists h, (tl ++ [length pre]). repeat split; auto.
           apply Forall_app. split; [exact Htl|]. repeat constructor.
           exists token, piece. auto.
        -- apply Hseen'.
           ++ intros q Hq. rewrite concat_app in *. simpl in *. rewrite app_nil_r in *.
              apply elem_of_app in Hq as [Hq|Hq]; apply elem_of_app; [auto|].
              right. apply elem_of_app. auto.
           ++ intros _. rewrite concat_app. simpl. rewrite app_nil_r.
              apply elem_of_app. right. apply elem_of_app. right. left.
    + apply Hopen; [left | exact H].
      intros q Hq Hcand. apply Z.leb_gt in Hc0. unfold len in Hc0.
      destruct c0; [|simpl in Hc0; lia].
      specialize (Hseen q Hq Hcand). inversion Hseen.
Qed.

(** X6.  In whole-word mode every group of a returned scan is a word:
    its head holds a candidate token that is a start piece (or is the
    first candidate of the sequence, which opens a group whatever its
    piece), and every later member holds a continuation piece. *)
Theorem groups_are_words (tokens : list Z) (c : list (list nat)) :
  cand_scan self true 0 tokens [] = Ok c ->
  forall g, g ∈ c ->
    exists h tl,
      g = h :: tl
      /\ candidate_pos self tokens h
      /\ Forall (continuation self tokens) tl
      /\ (first_candidate self tokens h \/ start_piece_at self tokens h).
Proof.
  intros H g Hg.
  pose proof (cand_scan_concat _ _ _ _ _ H) as [Hcat _]. simpl in Hcat.
  assert (Hall : Forall (word_group self tokens) c).
  { apply (cand_scan_word_groups tokens tokens [] [] c); auto.
    intros q Hq. simpl in Hq. lia. }
  rewrite Forall_forall in Hall. destruct (Hall g Hg) as (h & tl & -> & Htl & Hhead).
  exists h, tl. repeat split; auto.
  apply elem_of_candidate_positions. rewrite <- Hcat.
  apply elem_of_concat. exists (h :: tl). split; [exact Hg | left].
Qed.

End Scan.

(** ** Reading raised exceptions *)

Lemma bind_Raise {A B : Type} (c : result A) (k : A -> result B) (e : exn) :
  bind c k = Raise e -> c = Raise e \/ exists a, c = Ok a /\ k a = Raise e.
Proof. destruct c as [a|e']; simpl; intros H; [eauto | left; congruence]. Qed.

Lemma py_index_in_range {A : Type} (l : list A) (i : Z) :
  - len l <= i < len l -> exists x, py_index l i = Ok x.
Proof.
  intros Hi. unfold py_index, norm_index.
  set (j := if i <? 0 then i + len l else i).
  assert (Hj : 0 <= j < len l) by (unfold j; destruct (i <? 0) eqn:Hneg; lia).
  replace ((0 <=? j) && (j <? len l)) with true
    by (symmetry; apply andb_true_intro; split; [apply Z.leb_le | apply Z.ltb_lt]; lia).
  destruct (l !! Z.to_nat j) as [x|] eqn:Hl; [eauto|].
  apply lookup_ge_None in Hl. unfold len in Hj. lia.
Qed.

Lemma py_index_out_of_range {A : Type} (l : list A) (i : Z) :
  ~ (- len l <= i < len l) -> py_index l i = Raise IndexError.
Proof.
  intros Hi. destruct (py_index l i) as [x|e] eqn:H.
  - apply py_index_bounds in H. contradiction.
  - unfold py_index in H. destruct (norm_index (len l) i) as [j|].
    + destruct (l !! j); congruence.
    + congruence.
Qed.

(** ** The planner: what is written, what is raised, edge cases *)

Section PlannerMore.

Context {R : Type} `{!RandomState R}.
Variable self : BertDataset.

(** The steps a returned call of the planner went through. *)
Lemma planner_steps (tokens : list Z) (g : R) (max_ngrams : Z)
      (whole_word favor_longer_ngram geometric_dist : bool)
      (out : list Z) (pos : list nat) (labs : list Z) (g' : R) :
  create_masked_lm_predictions self tokens g max_ngrams whole_word
                               favor_longer_ngram geometric_dist
  = Ok (out, pos, labs, g') ->
  (mask_lm_prob self =? 0)%float = false
  /\ exists c B shuffled g1 (st : mask_state (R := R)),
      cand_scan self whole_word 0 tokens [] = Ok c
      /\ num_to_predict self tokens = Ok B
      /\ shuffle (ngram_indexes_of c (ngrams_of max_ngrams)) g = (shuffled, g1)
      /\ mask_loop self geometric_dist max_ngrams (ngrams_of max_ngrams)
                   (if geometric_dist then [] else pvals_of max_ngrams favor_longer_ngram)
                   B shuffled (MaskState tokens [] ∅ g1) = Ok st
      /\ out = output_tokens st
      /\ pos = map fst (sorted_by_index (masked_lms st))
      /\ labs = map snd (sorted_by_index (masked_lms st))
      /\ g' = rng_state st.
Proof.
  unfold create_masked_lm_predictions. intros H.
  destruct (mask_lm_prob self =? 0)%float; [discriminate|].
  split; [reflexivity|].
  inv_bind H. rename a into c. inv_bind H. rename a into B.
  destruct (shuffle (ngram_indexes_of c (ngrams_of max_ngrams)) g) as [shuffled g1] eqn:Hsh.
  inv_bind H. rename a into st. injection H as <- <- <- <-.
  exists c, B, shuffled, g1, st. repeat split; auto.
Qed.

Lemma shuffled_entries (c : list (list nat)) (max_ngrams : Z) (g g1 : R)
      (shuffled : list (list (list (list nat)))) :
  shuffle (ngram_indexes_of c (ngrams_of max_ngrams)) g = (shuffled, g1) ->
  Permutation (ngram_indexes_of c (ngrams_of max_ngrams)) shuffled.
Proof.
  intros Hsh.
  pose proof (shuffle_perm _ (ngram_indexes_of c (ngrams_of max_ngrams)) g) as Hperm.
  rewrite Hsh in Hperm. exact Hperm.
Qed.

(** *** Properties every step of the loop preserves *)

Section Preservation.

Variable P : mask_state (R := R) -> Prop.

Hypothesis P_set_rng : forall st g, P st -> P (set_rng st g).

Hypothesis P_mask : forall st index toks label g,
    P st ->
    mask_token self index (output_tokens st) (rng_state st) = Ok (toks, label, g) ->
    P (MaskState toks (masked_lms st ++ [(index, label)])
                 ({[index]} ∪ covered_indexes st) g).

Lemma commit_preserves :
  forall (index_set : list nat) (st st' : mask_state),
    P st -> commit self index_set st = Ok st' -> P st'.
Proof.
  induction index_set as [|index rest IH]; intros st st' HP H.
  - simpl in H. injection H as <-. exact HP.
  - simpl in H. inv_bind H. destruct a as [[toks label] g'].
    eapply IH; [|exact H]. apply P_mask; assumption.
Qed.

Lemma process_candidate_preserves (geometric_dist : bool) (max_ngrams : Z)
      (ngrams : list Z) (pvals : list float) (B : Z)
      (cis : list (list (list nat))) (st st' : mask_state) :
  P st ->
  process_candidate self geometric_dist max_ngrams ngrams pvals B cis st = Ok st' ->
  P st'.
Proof.
  intros HP H. unfold process_candidate in H.
  destruct cis as [|s1 rest] eqn:Hcis; [injection H as <-; exact HP|].
  rewrite <- Hcis in *.
  inv_bind H. clear Ha a. inv_bind H. destruct a as [N g].
  inv_bind H. inv_bind H.
  pose proof (P_set_rng st g HP) as HP'.
  destruct (B <? _); [injection H as <-; exact HP'|].
  destruct (existsb _ _); [injection H as <-; exact HP'|].
  eapply commit_preserves; [exact HP' | exact H].
Qed.

Lemma mask_loop_preserves (geometric_dist : bool) (max_ngrams : Z)
      (ngrams : list Z) (pvals : list float) (B : Z) :
  forall (ngram_indexes : list (list (list (list nat)))) (st st' : mask_state),
    P st ->
    mask_loop self geometric_dist max_ngrams ngrams pvals B ngram_indexes st = Ok st' ->
    P st'.
Proof.
  induction ngram_indexes as [|cis rest IH]; intros st st' HP H.
  - simpl in H. injection H as <-. exact HP.
  - simpl in H. destruct (B <=? len (masked_lms st)).
    + injection H as <-. exact HP.
    + inv_bind H. eapply IH; [|exact H].
      eapply process_candidate_preserves; eauto.
Qed.

End Preservation.

(** *** What [mask_token] writes *)

Lemma mask_token_written (idx : nat) (tokens tokens' : list Z) (label : Z) (g g' : R) :
  mask_token self idx tokens g = Ok (tokens', label, g') ->
  tokens !! idx = Some label
  /\ (tokens' = <[idx := mask_id self]> tokens \/ tokens' = tokens).
Proof.
  unfold mask_token. intros H. inv_bind H. apply py_index_nat in Ha.
  destruct (random g) as [u g1]. inv_bind H. destruct a0 as [new_label g2].
  inv_bind H. apply py_setitem_nat in Ha1 as [-> _]. injection H as <- <- <-.
  split; [exact Ha|].
  destruct (u <? f_0_8)%float.
  - injection Ha0 as <- <-. left. reflexivity.
  - destruct (random g1) as [v g3]. destruct (v <? f_0_5)%float.
    + injection Ha0 as <- <-. right. apply list_insert_id. exact Ha.
    + simpl in Ha0. discriminate.
Qed.

Lemma mask_loop_written (tokens : list Z) (geometric_dist : bool) (max_ngrams : Z)
      (ngrams : list Z) (pvals : list float) (B : Z)
      (ngram_indexes : list (list (list (list nat)))) (st st' : mask_state) :
  written self tokens st ->
  mask_loop self geometric_dist max_ngrams ngrams pvals B ngram_indexes st = Ok st' ->
  written self tokens st'.
Proof.
  apply (mask_loop_preserves (written self tokens)).
  - intros st0 g0 H0. exact H0.
  - intros st0 index toks label g0 H0 Hm q.
    apply mask_token_written in Hm as [Hlab [-> | ->]]; cbn [output_tokens]; [|apply H0].
    destruct (decide (q = index)) as [->|Hne].
    + right. apply list_lookup_insert_eq. eapply lookup_lt_Some; eauto.
    + rewrite list_lookup_insert_ne by congruence. apply H0.
Qed.

(** X7.  Every token of the sequence the planner returns is the input
    token at that position or [mask_id]: [mask_token] writes [mask_id]
    or writes the original id back, and its third branch, the random
    vocabulary id, reads [np.rng] and raises instead of writing. *)
Theorem replacements_original_or_mask
        (tokens : list Z) (g : R) (max_ngrams : Z)
        (whole_word favor_longer_ngram geometric_dist : bool)
        (out : list Z) (pos : list nat) (labs : list Z) (g' : R) :
  create_masked_lm_predictions self tokens g max_ngrams whole_word
                               favor_longer_ngram geometric_dist
  = Ok (out, pos, labs, g') ->
  forall q, out !! q = tokens !! q \/ out !! q = Some (mask_id self).
Proof.
  intros H. apply planner_steps in H
    as (_ & c & B & shuffled & g1 & st & _ & _ & _ & Hloop & -> & _).
  eapply mask_loop_written; [|exact Hloop].
  intros q. left. reflexivity.
Qed.

(** *** What the planner can raise *)

Lemma mask_token_Raise (idx : nat) (tokens : list Z) (g : R) (e : exn) :
  (idx < length tokens)%nat ->
  mask_token self idx tokens g = Raise e ->
  e = AttributeError "np" "rng".
Proof.
  intros Hidx. unfold mask_token.
  destruct (lookup_lt_is_Some_2 tokens idx Hidx) as [label Hl].
  apply py_index_nat in Hl. rewrite Hl. cbn [bind].
  assert (Hset : forall v, py_setitem tokens (Z.of_nat idx) v = Ok (<[idx := v]> tokens)).
  { intros v. unfold py_setitem, len. rewrite norm_index_of_nat.
    replace (Z.of_nat idx <? Z.of_nat (length tokens)) with true
      by (symmetry; apply Z.ltb_lt; lia).
    reflexivity. }
  destruct (random g) as [u g1]. destruct (u <? f_0_8)%float.
  - cbn [bind]. rewrite Hset. discriminate.
  - destruct (random g1) as [v g2]. destruct (v <? f_0_5)%float.
    + cbn [bind]. rewrite Hset. discriminate.
    + unfold missing_attribute. cbn [bind]. intros [= <-]. reflexivity.
Qed.

Lemma commit_Raise :
  forall (index_set : list nat) (st : mask_state) (e : exn),
    Forall (fun q => (q < length (output_tokens st))%nat) index_set ->
    commit self index_set st = Raise e ->
    e = AttributeError "np" "rng".
Proof.
  induction index_set as [|index rest IH]; intros st e Hall H; [discriminate|].
  simpl in H. apply Forall_cons in Hall as [Hidx Hall].
  apply bind_Raise in H as [H|(m & Hm & H)].
  - eapply mask_token_Raise; eauto.
  - destruct m as [[toks label] g']. eapply IH; [|exact H].
    cbn [output_tokens]. apply mask_token_Ok in Hm as [_ [v ->]].
    rewrite length_insert. exact Hall.
Qed.

Lemma shorten_returns (cis : list (list (list nat))) (count B : Z) :
  forall (fuel : nat) (index_set : list nat) (n : Z),
    0 <= n <= len cis ->
    exists r, shorten fuel cis count B index_set n = Ok r.
Proof.
  induction fuel as [|fuel IH]; intros index_set n Hn; simpl;
    (destruct (B <? count + len index_set); [|eauto]);
    (destruct (n =? 0) eqn:Hz; [eauto|]); apply Z.eqb_neq in Hz;
    destruct (py_index_in_range cis (n - 1) ltac:(lia)) as [s Hs];
    rewrite Hs; cbn [bind]; [eauto | apply IH; lia].
Qed.

Lemma draw_n_returns (geometric_dist : bool) (max_ngrams : Z) (pvals : list float)
      (cis : list (list (list nat))) (g : R) :
  cis <> [] -> length cis = length (ngrams_of max_ngrams) ->
  exists d, draw_n geometric_dist max_ngrams (ngrams_of max_ngrams) pvals cis g = Ok d.
Proof.
  intros Hne Hlen. unfold draw_n. destruct geometric_dist; simpl.
  - destruct (geometric f_0_2 g) as [v g1]. eauto.
  - unfold py_choice.
    destruct (py_slice (ngrams_of max_ngrams) 0 (len cis)) as [|a0 a] eqn:Ha; [|eauto].
    exfalso. apply (f_equal length) in Ha. unfold py_slice, len in Ha.
    rewrite length_take, length_drop in Ha. simpl in Ha.
    destruct cis; [congruence|]. simpl in *. lia.
Qed.

Lemma process_candidate_Raise (geometric_dist : bool) (max_ngrams : Z)
      (pvals : list float) (B : Z) (cis : list (list (list nat)))
      (st : mask_state) (e : exn) :
  length cis = length (ngrams_of max_ngrams) ->
  (forall s, s ∈ cis -> Forall (fun q => (q < length (output_tokens st))%nat) (concat s)) ->
  process_candidate self geometric_dist max_ngrams (ngrams_of max_ngrams) pvals B cis st
  = Raise e ->
  e = AttributeError "np" "rng".
Proof.
  intros Hlen Hin H. unfold process_candidate in H.
  destruct cis as [|s1 rest] eqn:Hcis; [discriminate|]. rewrite <- Hcis in *.
  assert (Hne : cis <> []) by (subst cis; discriminate).
  assert (Hlen1 : 1 <= len cis) by (unfold len; subst cis; simpl; lia).
  clear Hcis s1 rest.
  apply bind_Raise in H as [H|(u & _ & H)].
  { exfalso. unfold scan_first_ngram in H.
    destruct (py_index_in_range cis 0 ltac:(lia)) as [x Hx].
    rewrite Hx in H. discriminate. }
  apply bind_Raise in H as [H|([N g] & Hd & H)].
  { exfalso.
    destruct (draw_n_returns geometric_dist max_ngrams pvals cis (rng_state st) Hne Hlen)
      as [d Hd].
    congruence. }
  pose proof (draw_n_range _ _ _ _ _ _ _ Hne Hlen Hd) as HN.
  apply bind_Raise in H as [H|(s0 & Hs0 & H)].
  { exfalso. destruct (py_index_in_range cis (N - 1) ltac:(lia)) as [x Hx]. congruence. }
  apply bind_Raise in H as [H|([index_set n'] & Hsh & H)].
  { exfalso.
    destruct (shorten_returns cis (len (masked_lms (set_rng st g))) B
                              (Z.to_nat (N - 1) + length cis) (concat s0) (N - 1)
                              ltac:(lia)) as [r Hr].
    congruence. }
  cbn [fst] in H.
  apply shorten_Ok in Hsh; [|lia|lia].
  destruct Hsh as (Hr & Hsame & Hshort & _).
  assert (Hs : exists s, py_index cis n' = Ok s /\ index_set = concat s).
  { destruct (Z.eq_dec n' (N - 1)) as [->|Hne']; [eauto | apply Hshort; lia]. }
  destruct Hs as (s & Hs & ->).
  destruct (B <? _); [discriminate|].
  destruct (existsb _ _); [discriminate|].
  eapply commit_Raise; [|exact H].
  change (output_tokens (set_rng st g)) with (output_tokens st).
  apply Hin. apply list_elem_of_In. eapply py_index_In; eauto.
Qed.

Lemma mask_loop_Raise (tokens : list Z) (c : list (list nat))
      (geometric_dist : bool) (max_ngrams : Z) (pvals : list float) (B : Z) :
  NoDup (concat c) ->
  Forall (fun q => (q < length tokens)%nat) (concat c) ->
  forall (ngram_indexes : list (list (list (list nat)))) (st : mask_state) (e : exn),
    (forall cis, cis ∈ ngram_indexes -> cis ∈ ngram_indexes_of c (ngrams_of max_ngrams)) ->
    loop_inv tokens c B st ->
    mask_loop self geometric_dist max_ngrams (ngrams_of max_ngrams) pvals B
              ngram_indexes st = Raise e ->
    e = AttributeError "np" "rng".
Proof.
  intros Hnd Hbelow.
  induction ngram_indexes as [|cis rest IH]; intros st e Hall Hinv H; [discriminate|].
  simpl in H. destruct (B <=? len (masked_lms st)); [discriminate|].
  assert (Hcis : cis ∈ ngram_indexes_of c (ngrams_of max_ngrams)) by (apply Hall; left).
  apply bind_Raise in H as [H|(st1 & Hst1 & H)].
  - eapply process_candidate_Raise; [eapply ngram_length; eauto | | exact H].
    intros s Hs. apply Forall_forall. intros q Hq.
    rewrite (plan_length _ _ _ (loop_plan _ _ _ _ Hinv)).
    rewrite Forall_forall in Hbelow. apply Hbelow.
    eapply span_elem; [eapply ngram_span; eauto | exact Hq].
  - eapply IH; [| |exact H].
    + intros cis' Hin. apply Hall. right. exact Hin.
    + eapply process_candidate_inv; eauto.
Qed.

Lemma loop_inv_start (tokens : list Z) (c : list (list nat)) (B : Z) (g : R) :
  loop_inv tokens c B (MaskState tokens [] ∅ g).
Proof.
  split.
  - split; cbn [output_tokens masked_lms covered_indexes positions]; simpl; auto.
    + constructor.
    + intros q. split; intros Hq; [inversion Hq | set_solver].
    + intros q Hq. inversion Hq.
    + intros p l Hq. inversion Hq.
  - unfold len. simpl. lia.
  - intros grp p q _ _ _ Hq. inversion Hq.
Qed.

Lemma num_to_predict_Raise (tokens : list Z) (e : exn) :
  num_to_predict self tokens = Raise e -> e = ValueError \/ e = OverflowError.
Proof.
  unfold num_to_predict, py_round. intros H.
  destruct (Prim2SF _); simpl in H; try discriminate; injection H as <-; auto.
Qed.

(** X8.  The planner ends in one of four exceptions and no other:
    [UnboundLocalError] on [output_tokens] when the mask probability is
    zero; [KeyError], in whole-word mode, for a token of the input other
    than [cls]/[sep] that the vocabulary lacks; [ValueError] or
    [OverflowError] from rounding [len(tokens) * mask_lm_prob] when that
    product is not a finite number; [AttributeError] on [np.rng] from
    [mask_token].  No subscript of the planner runs out of range. *)
Theorem planner_exceptions
        (tokens : list Z) (g : R) (max_ngrams : Z)
        (whole_word favor_longer_ngram geometric_dist : bool) (e : exn) :
  create_masked_lm_predictions self tokens g max_ngrams whole_word
                               favor_longer_ngram geometric_dist
  = Raise e ->
  ((mask_lm_prob self =? 0)%float = true /\ e = UnboundLocalError "output_tokens")
  \/ (whole_word = true
      /\ exists token,
          e = KeyError token /\ token ∈ tokens /\ is_special self token = false
          /\ vocab_id_to_token_dict self !! token = None)
  \/ (num_to_predict self tokens = Raise e /\ (e = ValueError \/ e = OverflowError))
  \/ e = AttributeError "np" "rng".
Proof.
  unfold create_masked_lm_predictions. intros H.
  destruct (mask_lm_prob self =? 0)%float.
  { left. split; [reflexivity|]. simpl in H. congruence. }
  right. apply bind_Raise in H as [H|(c & Hc & H)].
  { left. eapply cand_scan_Raise; eauto. }
  right. apply bind_Raise in H as [H|(B & HB & H)].
  { left. split; [exact H|]. eapply num_to_predict_Raise; eauto. }
  right.
  destruct (shuffle (ngram_indexes_of c (ngrams_of max_ngrams)) g) as [shuffled g1] eqn:Hsh.
  apply bind_Raise in H as [H|(st & _ & H)]; [|discriminate].
  pose proof (cand_scan_groups _ _ _ _ Hc) as [Hbelow _ Hnd _ _].
  eapply mask_loop_Raise; [exact Hnd | exact Hbelow | | apply loop_inv_start | exact H].
  intros cis Hin. rewrite (shuffled_entries _ _ _ _ _ Hsh). exact Hin.
Qed.

(** *** Calls that mask nothing *)

Lemma mask_loop_idle (geometric_dist : bool) (max_ngrams : Z) (ngrams : list Z)
      (pvals : list float) (B : Z) :
  forall (ngram_indexes : list (list (list (list nat)))) (st : mask_state),
    B <= len (masked_lms st) \/ Forall (fun cis => cis = []) ngram_indexes ->
    mask_loop self geometric_dist max_ngrams ngrams pvals B ngram_indexes st = Ok st.
Proof.
  induction ngram_indexes as [|cis rest IH]; intros st Hidle; [reflexivity|].
  simpl. destruct (B <=? len (masked_lms st)) eqn:HB; [reflexivity|].
  apply Z.leb_gt in HB. destruct Hidle as [Hidle|Hidle]; [lia|].
  apply Forall_cons in Hidle as [-> Hrest]. simpl. apply IH. right. exact Hrest.
Qed.

Lemma ngrams_of_nonpositive (max_ngrams : Z) : max_ngrams <= 0 -> ngrams_of max_ngrams = [].
Proof.
  intros Hm. unfold ngrams_of, py_range.
  replace (Z.to_nat (max_ngrams + 1 - 1)) with 0%nat by lia. reflexivity.
Qed.

(** X9.  When the mask probability is not zero and the scan and the
    rounding succeed, the planner returns the input tokens and an empty
    plan whenever there is nothing to mask with: no candidate group
    (every token is [cls] or [sep], or there is no token), or
    [max_ngrams] below one, or a budget that is zero or negative (which
    takes [max_preds_per_seq <= 0]).  Only the shuffle has then drawn
    from the random state. *)
Theorem nothing_to_mask
        (tokens : list Z) (g : R) (max_ngrams : Z)
        (whole_word favor_longer_ngram geometric_dist : bool)
        (c : list (list nat)) (B : Z) :
  (mask_lm_prob self =? 0)%float = false ->
  cand_scan self whole_word 0 tokens [] = Ok c ->
  num_to_predict self tokens = Ok B ->
  c = [] \/ max_ngrams <= 0 \/ B <= 0 ->
  create_masked_lm_predictions self tokens g max_ngrams whole_word
                               favor_longer_ngram geometric_dist
  = Ok (tokens, [], [], snd (shuffle (ngram_indexes_of c (ngrams_of max_ngrams)) g)).
Proof.
  intros Hprob Hc HB Hidle. unfold create_masked_lm_predictions.
  rewrite Hprob, Hc, HB. cbn [bind].
  destruct (shuffle (ngram_indexes_of c (ngrams_of max_ngrams)) g) as [shuffled g1] eqn:Hsh.
  rewrite mask_loop_idle; [reflexivity|].
  cbn [masked_lms]. destruct Hidle as [->|[Hm|HB0]].
  - right. apply shuffled_entries in Hsh. unfold ngram_indexes_of in Hsh. simpl in Hsh.
    apply Permutation_nil in Hsh. subst shuffled. constructor.
  - right. apply shuffled_entries in Hsh. rewrite ngrams_of_nonpositive in Hsh by exact Hm.
    apply Forall_forall. intros cis Hcis. rewrite <- Hsh in Hcis.
    unfold ngram_indexes_of in Hcis. apply list_elem_of_fmap in Hcis as (idx & -> & _).
    reflexivity.
  - left. unfold len. simpl. lia.
Qed.

(** *** Calls that mask something *)

Lemma ngram_entry (c : list (list nat)) (max_ngrams : Z)
      (cis : list (list (list nat))) :
  cis ∈ ngram_indexes_of c (ngrams_of max_ngrams) ->
  exists idx,
    (idx < length c)%nat
    /\ forall M s, 1 <= M -> py_index cis (M - 1) = Ok s ->
                   s = take (Z.to_nat M) (drop idx c).
Proof.
  unfold ngram_indexes_of. intros H. apply list_elem_of_fmap in H as (i & -> & Hi).
  apply elem_of_py_range in Hi. unfold len in Hi.
  exists (Z.to_nat i). split; [lia|]. intros M s HM Hs.
  replace (M - 1) with (Z.of_nat (Z.to_nat (M - 1))) in Hs by lia.
  apply py_index_nat in Hs.
  change (map ?f ?l) with (f <$> l) in Hs. rewrite list_lookup_fmap in Hs.
  destruct (ngrams_of max_ngrams !! Z.to_nat (M - 1)) as [n|] eqn:Hn; [|discriminate].
  simpl in Hs. injection Hs as <-.
  unfold ngrams_of, py_range in Hn.
  change (map ?f ?l) with (f <$> l) in Hn. rewrite list_lookup_fmap in Hn.
  destruct (seq 0 (Z.to_nat (max_ngrams + 1 - 1)) !! Z.to_nat (M - 1)) as [k|] eqn:Hk;
    [|discriminate].
  apply lookup_seq in Hk as [-> _]. simpl in Hn. injection Hn as <-.
  unfold py_slice. f_equal. lia.
Qed.

Lemma mask_loop_grows (geometric_dist : bool) (max_ngrams : Z) (ngrams : list Z)
      (pvals : list float) (B : Z) (base : list nat)
      (ngram_indexes : list (list (list (list nat)))) (st st' : mask_state) :
  (exists more, positions st = base ++ more) ->
  mask_loop self geometric_dist max_ngrams ngrams pvals B ngram_indexes st = Ok st' ->
  exists more, positions st' = base ++ more.
Proof.
  apply (mask_loop_preserves (fun st => exists more, positions st = base ++ more)).
  - intros st0 g0 H0. exact H0.
  - intros st0 index toks label g0 [more H0] _. exists (more ++ [index]).
    unfold positions in *. cbn [masked_lms]. rewrite map_app, H0, <- app_assoc.
    reflexivity.
Qed.

(** X10.  A returned call masks at least one position when there is a
    candidate group, [max_ngrams] is at least one and every group fits
    the budget: the first candidate the shuffle puts forward is then
    committed, shortened to a single word if the drawn n-gram is too
    long. *)
Theorem plan_not_empty
        (tokens : list Z) (g : R) (max_ngrams : Z)
        (whole_word favor_longer_ngram geometric_dist : bool)
        (out : list Z) (pos : list nat) (labs : list Z) (g' : R)
        (c : list (list nat)) (B : Z) :
  create_masked_lm_predictions self tokens g max_ngrams whole_word
                               favor_longer_ngram geometric_dist
  = Ok (out, pos, labs, g') ->
  cand_scan self whole_word 0 tokens [] = Ok c ->
  num_to_predict self tokens = Ok B ->
  c <> [] ->
  1 <= max_ngrams ->
  (forall grp, grp ∈ c -> len grp <= B) ->
  pos <> [].
Proof.
  intros H Hc HB Hne Hmax Hfit.
  apply planner_steps in H
    as (_ & c' & B' & shuffled & g1 & st & Hc' & HB' & Hsh & Hloop & _ & -> & _).
  rewrite Hc in Hc'. injection Hc' as <-. rewrite HB in HB'. injection HB' as <-.
  pose proof (cand_scan_concat _ _ _ _ _ _ Hc) as [_ Hnonempty].
  specialize (Hnonempty ltac:(constructor)). rewrite Forall_forall in Hnonempty.
  pose proof (shuffled_entries _ _ _ _ _ Hsh) as Hperm.
  assert (Hpos : positions st <> []).
  { destruct shuffled as [|cis rest].
    { apply Permutation_sym, Permutation_nil in Hperm.
      apply (f_equal length) in Hperm. unfold ngram_indexes_of, py_range, len in Hperm.
      rewrite !length_map, length_seq in Hperm. destruct c; [congruence|].
      simpl in Hperm. lia. }
    assert (Hcis : cis ∈ ngram_indexes_of c (ngrams_of max_ngrams))
      by (rewrite Hperm; left).
    assert (HB1 : 1 <= B).
    { destruct c as [|g0 c0]; [congruence|].
      assert (Hg0 : g0 ∈ g0 :: c0) by left.
      pose proof (Hfit g0 Hg0) as Hle. pose proof (Hnonempty g0 Hg0) as Hnil.
      unfold len in Hle. destruct g0; [congruence|]. simpl in Hle. lia. }
    simpl in Hloop.
    replace (B <=? len (masked_lms (MaskState tokens [] ∅ g1))) with false in Hloop
      by (symmetry; apply Z.leb_gt; unfold len; simpl; lia).
    inv_bind Hloop. rename a into st1.
    pose proof (ngram_length _ _ _ Hcis) as Hlen.
    assert (Hcne : cis <> []).
    { intros ->. rewrite length_ngrams_of in Hlen. simpl in Hlen. lia. }
    apply process_candidate_Ok in Ha; [|exact Hcne|exact Hlen].
    destruct Ha as (N & g2 & M & s & _ & [HM Hspan _ Hlast _ Hcommit]).
    destruct (ngram_entry _ _ _ Hcis) as (idx & Hidx & Hentry).
    pose proof (Hentry M s ltac:(lia) Hspan) as Hs.
    destruct (drop idx c) as [|grp tl] eqn:Hdrop.
    { apply (f_equal length) in Hdrop. rewrite length_drop in Hdrop. simpl in Hdrop. lia. }
    assert (Hgrp : grp ∈ c).
    { apply (subseteq_drop idx c). rewrite Hdrop. left. }
    cbn [masked_lms covered_indexes] in *.
    assert (Hfits : ~ B < len (@nil (nat * Z)) + len (concat s)).
    { intros Hover. pose proof (Hlast Hover) as ->. rewrite Hs in Hover.
      simpl in Hover. rewrite app_nil_r in Hover. pose proof (Hfit grp Hgrp).
      unfold len in *. simpl in Hover. lia. }
    assert (Hfree : ~ overlaps (concat s) ∅).
    { intros (q & _ & Hq). set_solver. }
    specialize (Hcommit Hfits Hfree). apply commit_positions in Hcommit.
    change (positions (set_rng (MaskState tokens [] ∅ g1) g2)) with (@nil nat) in Hcommit.
    simpl in Hcommit.
    assert (Hbase : exists more, positions st1 = concat s ++ more)
      by (exists []; rewrite Hcommit, app_nil_r; reflexivity).
    destruct (mask_loop_grows _ _ _ _ _ _ _ _ _ Hbase Hloop) as [more Hmore].
    rewrite Hmore, Hs. destruct (Z.to_nat M) as [|m] eqn:HMn; [lia|].
    simpl. pose proof (Hnonempty grp Hgrp). destruct grp; [congruence|]. discriminate. }
  intros Hnil. apply Hpos. unfold positions.
  apply (f_equal length) in Hnil. rewrite length_map in Hnil.
  pose proof (Permutation_length (sorted_by_index_perm (masked_lms st))) as Hl.
  destruct (masked_lms st); [reflexivity|]. simpl in *. lia.
Qed.

(** X17.  When the mask probability is not zero, the scan returns and
    the rounding succeeds, the planner either returns a plan or raises
    [AttributeError] on [np.rng] from [mask_token]: no loop of the
    planner fails to end and nothing else is raised. *)
Theorem planner_returns_or_stops_at_np_rng
        (tokens : list Z) (g : R) (max_ngrams : Z)
        (whole_word favor_longer_ngram geometric_dist : bool)
        (c : list (list nat)) (B : Z) :
  (mask_lm_prob self =? 0)%float = false ->
  cand_scan self whole_word 0 tokens [] = Ok c ->
  num_to_predict self tokens = Ok B ->
  (exists out pos labs g',
      create_masked_lm_predictions self tokens g max_ngrams whole_word
                                   favor_longer_ngram geometric_dist
      = Ok (out, pos, labs, g'))
  \/ create_masked_lm_predictions self tokens g max_ngrams whole_word
                                  favor_longer_ngram geometric_dist
     = Raise (AttributeError "np" "rng").
Proof.
  intros Hprob Hc HB. unfold create_masked_lm_predictions.
  rewrite Hprob, Hc, HB. cbn [bind].
  destruct (shuffle (ngram_indexes_of c (ngrams_of max_ngrams)) g) as [shuffled g1] eqn:Hsh.
  destruct (mask_loop self geometric_dist max_ngrams (ngrams_of max_ngrams) _ B shuffled _)
    as [st|e] eqn:Hloop.
  - left. cbn [bind]. eauto.
  - right. cbn [bind]. f_equal.
    pose proof (cand_scan_groups _ _ _ _ Hc) as [Hbelow _ Hnd _ _].
    eapply mask_loop_Raise; [exact Hnd | exact Hbelow | | apply loop_inv_start | exact Hloop].
    intros cis Hin. rewrite (shuffled_entries _ _ _ _ _ Hsh). exact Hin.
Qed.

End PlannerMore.

(** ** The serializer: contents and the conditions under which it returns *)

Lemma norm_index_in_range (n i : Z) :
  - n <= i < n -> exists j, norm_index n i = Some j /\ Z.of_nat j < n.
Proof.
  intros Hi. unfold norm_index.
  set (j := if i <? 0 then i + n else i).
  assert (Hj : 0 <= j < n) by (unfold j; destruct (i <? 0) eqn:Hneg; lia).
  replace ((0 <=? j) && (j <? n)) with true
    by (symmetry; apply andb_true_intro; split; [apply Z.leb_le | apply Z.ltb_lt]; lia).
  exists (Z.to_nat j). split; [reflexivity | lia].
Qed.

Lemma np_array_int64_fits (l : list Z) :
  Forall (fun v => fits_int64 v = true) l -> np_array_int64 l = Ok l.
Proof.
  intros Hl. unfold np_array_int64.
  replace (forallb fits_int64 l) with true; [reflexivity|].
  symmetry. apply forallb_forall. intros v Hv. rewrite Forall_forall in Hl.
  apply Hl, list_elem_of_In, Hv.
Qed.

Lemma count_ones_insert :
  forall (l : list Z) (p : nat) (v : Z),
    l !! p = Some v -> v <> 1 -> count_ones (<[p := 1]> l) = S (count_ones l).
Proof.
  induction l as [|x l IH]; intros [|p] v Hp Hv; simpl in *; try discriminate.
  - injection Hp as ->. apply Z.eqb_neq in Hv. rewrite Hv. reflexivity.
  - rewrite (IH p v Hp Hv). destruct (x =? 1); reflexivity.
Qed.

Lemma count_ones_replicate (n : nat) : count_ones (replicate n 0) = 0%nat.
Proof. induction n; simpl; auto. Qed.

Lemma Forall_zip_fst {A B : Type} (P : A -> Prop) :
  forall (a : list A) (b : list B), Forall P a -> Forall (fun p => P (fst p)) (zip a b).
Proof.
  induction a as [|x a IH]; intros [|y b] Ha; simpl; try constructor.
  - apply Forall_cons in Ha as [Hx _]. exact Hx.
  - apply Forall_cons in Ha as [_ Ha]. apply IH, Ha.
Qed.

Lemma Forall_zip_snd {A B : Type} (P : B -> Prop) :
  forall (a : list A) (b : list B), Forall P b -> Forall (fun p => P (snd p)) (zip a b).
Proof.
  induction a as [|x a IH]; intros [|y b] Hb; simpl; try constructor.
  - apply Forall_cons in Hb as [Hy _]. exact Hy.
  - apply Forall_cons in Hb as [_ Hb]. apply IH, Hb.
Qed.

(** The loop of lines 316-319 over distinct positions. *)
Lemma fill_labels_contents (N : Z) :
  forall (pos : list nat) (labs labels loss labels' loss' : list Z),
    NoDup pos -> length labs = length pos -> length labels = length loss ->
    fill_labels N (zip (map Z.of_nat pos) labs) labels loss = Ok (labels', loss') ->
    Forall (fun p => Z.of_nat p < N /\ (p < length labels)%nat) pos
    /\ length labels' = length labels /\ length loss' = length loss
    /\ (forall i p l, pos !! i = Some p -> labs !! i = Some l ->
                      labels' !! p = Some l /\ loss' !! p = Some 1)
    /\ (forall q, q ∉ pos -> labels' !! q = labels !! q /\ loss' !! q = loss !! q)
    /\ ((forall p, p ∈ pos -> loss !! p = Some 0) ->
        count_ones loss' = (count_ones loss + length pos)%nat).
Proof.
  induction pos as [|p pos IH]; intros labs labels loss labels' loss' Hnd Hlen Hll H.
  - simpl in H. injection H as <- <-.
    repeat split; auto; try (intros; discriminate); try (intros _; simpl; lia).
  - destruct labs as [|l labs]; [discriminate|]. simpl in H.
    inv_bind H. apply py_assert_Ok, Z.ltb_lt in Ha.
    inv_bind H. apply py_setitem_nat in Ha0 as [-> Hp].
    inv_bind H. apply py_setitem_nat in Ha0 as [-> Hp'].
    apply NoDup_cons in Hnd as [Hnotin Hnd].
    apply IH in H; [| exact Hnd | simpl in Hlen; lia | rewrite !length_insert; exact Hll].
    destruct H as (Hall & Hl1 & Hl2 & Hat & Hother & Hcount).
    rewrite length_insert in Hl1, Hl2.
    split.
    { constructor; [split; assumption|]. eapply Forall_impl; [exact Hall|].
      simpl. intros q [Hq1 Hq2]. rewrite length_insert in Hq2. auto. }
    split; [exact Hl1|]. split; [exact Hl2|]. split.
    { intros [|i] p0 l0 Hp0 Hl0; simpl in Hp0, Hl0.
      - injection Hp0 as <-. injection Hl0 as <-.
        destruct (Hother p Hnotin) as [-> ->].
        split; apply list_lookup_insert_eq; assumption.
      - eapply Hat; eauto. }
    split.
    { intros q Hq. destruct (Hother q) as [-> ->].
      - intros Hin. apply Hq. right. exact Hin.
      - assert (p <> q) by (intros ->; apply Hq; left).
        rewrite !list_lookup_insert_ne by assumption. auto. }
    intros Hzero. rewrite Hcount.
    + rewrite (count_ones_insert loss p 0); [simpl; lia | apply Hzero; left | lia].
    + intros q Hq. rewrite list_lookup_insert_ne; [apply Hzero; right; exact Hq|].
      intros ->. contradiction.
Qed.

(** The loop returns when every subscript denotes a position of the
    arrays and lies below [num_tokens]; it keeps any property of the
    entries that the written values have. *)
Lemma fill_labels_returns (Q : Z -> Prop) (N : Z) :
  Q 1 ->
  forall (pairs : list (Z * Z)) (labels loss : list Z),
    length labels = length loss ->
    Forall (fun p => - len labels <= fst p < N /\ fst p < len labels) pairs ->
    Forall (fun p => Q (snd p)) pairs ->
    Forall Q labels -> Forall Q loss ->
    exists labels' loss',
      fill_labels N pairs labels loss = Ok (labels', loss')
      /\ Forall Q labels' /\ Forall Q loss'.
Proof.
  intros Hone.
  induction pairs as [|[idx label] rest IH]; intros labels loss Hll Hidx Hlab HQ1 HQ2.
  - simpl. eauto.
  - apply Forall_cons in Hidx as [[Hlo Hhi] Hidx]. apply Forall_cons in Hlab as [Hl Hlab].
    simpl in Hlo, Hhi, Hl. simpl.
    replace (idx <? N) with true by (symmetry; apply Z.ltb_lt; lia). cbn [py_assert bind].
    destruct (norm_index_in_range (len labels) idx ltac:(lia)) as (j & Hj & Hjlt).
    unfold py_setitem. rewrite Hj. cbn [bind].
    replace (len loss) with (len labels) by (unfold len; rewrite Hll; reflexivity).
    rewrite Hj. cbn [bind].
    apply IH.
    + rewrite !length_insert. exact Hll.
    + eapply Forall_impl; [exact Hidx|]. simpl. unfold len. intros p Hp.
      rewrite length_insert. exact Hp.
    + exact Hlab.
    + apply Forall_insert; assumption.
    + apply Forall_insert; assumption.
Qed.

Section SerializerMore.

Variable self : BertDataset.

(** The steps a returned call of the serializer went through. *)
Lemma serializer_steps
      (tokens token_types masked_positions masked_labels : list Z)
      (tokens_np token_types_np labels_np padding_mask_np loss_mask_np : list Z) :
  pad_and_convert_to_numpy self tokens token_types masked_positions masked_labels
  = Ok (tokens_np, token_types_np, labels_np, padding_mask_np, loss_mask_np) ->
  let num_pad := max_seq_length self - len tokens in
  0 <= num_pad
  /\ len token_types = len tokens
  /\ len masked_positions = len masked_labels
  /\ tokens_np = tokens ++ py_repeat (pad_id self) num_pad
  /\ token_types_np = token_types ++ py_repeat (pad_id self) num_pad
  /\ padding_mask_np = py_repeat 1 (len tokens) ++ py_repeat 0 num_pad
  /\ fill_labels (len tokens) (zip masked_positions masked_labels)
                 (py_repeat (-1) (max_seq_length self)) (py_repeat 0 (max_seq_length self))
     = Ok (labels_np, loss_mask_np).
Proof.
  intros H. unfold pad_and_convert_to_numpy in H.
  inv_bind H. apply py_assert_Ok, Z.leb_le in Ha.
  inv_bind H. apply py_assert_Ok, Z.eqb_eq in Ha0.
  inv_bind H. apply py_assert_Ok, Z.eqb_eq in Ha1.
  inv_bind H. apply np_array_int64_Ok in Ha2. subst a2.
  inv_bind H. apply np_array_int64_Ok in Ha2. subst a2.
  inv_bind H. apply np_array_int64_Ok in Ha2. subst a2.
  inv_bind H. destruct a2 as [labels loss_mask].
  inv_bind H. apply np_array_int64_Ok in Ha3. subst a2.
  inv_bind H. apply np_array_int64_Ok in Ha3. subst a2.
  injection H as <- <- <- <- <-.
  repeat split; auto.
Qed.

(** The serializer returns once its assertions hold, the loop returns
    and every entry fits 64 signed bits. *)
Lemma serializer_assembles
      (tokens token_types masked_positions masked_labels labels' loss' : list Z) :
  let num_pad := max_seq_length self - len tokens in
  0 <= num_pad ->
  len token_types = len tokens ->
  len masked_positions = len masked_labels ->
  Forall (fun v => fits_int64 v = true) tokens ->
  Forall (fun v => fits_int64 v = true) token_types ->
  fits_int64 (pad_id self) = true ->
  fill_labels (len tokens) (zip masked_positions masked_labels)
              (py_repeat (-1) (max_seq_length self)) (py_repeat 0 (max_seq_length self))
  = Ok (labels', loss') ->
  Forall (fun v => fits_int64 v = true) labels' ->
  Forall (fun v => fits_int64 v = true) loss' ->
  pad_and_convert_to_numpy self tokens token_types masked_positions masked_labels
  = Ok (tokens ++ py_repeat (pad_id self) num_pad,
        token_types ++ py_repeat (pad_id self) num_pad,
        labels',
        py_repeat 1 (len tokens) ++ py_repeat 0 num_pad,
        loss').
Proof.
  intros num_pad Hpad Htypes Hlens Htok Hty Hfit Hfill Hl1 Hl2.
  unfold pad_and_convert_to_numpy. fold num_pad.
  replace (0 <=? num_pad) with true by (symmetry; apply Z.leb_le; exact Hpad).
  replace (len token_types =? len tokens) with true
    by (symmetry; apply Z.eqb_eq; exact Htypes).
  replace (len masked_positions =? len masked_labels) with true
    by (symmetry; apply Z.eqb_eq; exact Hlens).
  cbn [py_assert bind].
  assert (Hfiller : Forall (fun v => fits_int64 v = true) (py_repeat (pad_id self) num_pad)).
  { apply Forall_forall. intros v Hv. unfold py_repeat in Hv.
    apply elem_of_replicate in Hv as [-> _]. exact Hfit. }
  rewrite (np_array_int64_fits (tokens ++ _)) by (apply Forall_app; auto). cbn [bind].
  rewrite (np_array_int64_fits (token_types ++ _)) by (apply Forall_app; auto). cbn [bind].
  rewrite (np_array_int64_fits (py_repeat 1 _ ++ _)).
  2:{ apply Forall_app. split; apply Forall_forall; intros v Hv; unfold py_repeat in Hv;
      apply elem_of_replicate in Hv as [-> _]; reflexivity. }
  cbn [bind]. rewrite Hfill. cbn [bind].
  rewrite (np_array_int64_fits labels') by exact Hl1. cbn [bind].
  rewrite (np_array_int64_fits loss') by exact Hl2. reflexivity.
Qed.

(** X11.  What a returned call of the serializer holds, for distinct
    masked positions: the token types are the given types followed by
    [pad_id] (the filler of the tokens, not zeros); every masked
    position lies among the real tokens; the label array holds each
    given label at its position and -1 everywhere else, the loss mask 1
    there and 0 everywhere else; so the loss mask counts exactly the
    masked positions. *)
Theorem serializer_contents
        (tokens token_types : list Z) (pos : list nat) (labs : list Z)
        (tokens_np token_types_np labels_np padding_mask_np loss_mask_np : list Z) :
  pad_and_convert_to_numpy self tokens token_types (map Z.of_nat pos) labs
  = Ok (tokens_np, token_types_np, labels_np, padding_mask_np, loss_mask_np) ->
  NoDup pos ->
  let L := Z.to_nat (max_seq_length self) in
  token_types_np = token_types ++ replicate (L - length tokens) (pad_id self)
  /\ Forall (fun p => (p < length tokens)%nat) pos
  /\ (forall i p l, pos !! i = Some p -> labs !! i = Some l ->
                    labels_np !! p = Some l /\ loss_mask_np !! p = Some 1)
  /\ (forall q, (q < L)%nat -> q ∉ pos ->
                labels_np !! q = Some (-1) /\ loss_mask_np !! q = Some 0)
  /\ count_ones loss_mask_np = length pos.
Proof.
  intros H Hnd L.
  apply serializer_steps in H as (Hpad & _ & Hlens & _ & -> & _ & Hfill).
  unfold len, py_repeat in *. rewrite length_map in Hlens.
  apply fill_labels_contents in Hfill;
    [| exact Hnd | lia | rewrite !length_replicate; reflexivity].
  destruct Hfill as (Hall & _ & _ & Hat & Hother & Hcount).
  split; [f_equal; f_equal; subst L; lia|].
  split; [eapply Forall_impl; [exact Hall|]; simpl; lia|].
  split; [exact Hat|]. split.
  - intros q Hq Hnotin. destruct (Hother q Hnotin) as [-> ->].
    split; apply lookup_replicate; auto.
  - rewrite Hcount, count_ones_replicate; [reflexivity|].
    intros p Hp. apply lookup_replicate. split; [reflexivity|].
    rewrite Forall_forall in Hall. destruct (Hall p Hp) as [_ Hlt].
    rewrite length_replicate in Hlt. exact Hlt.
Qed.

(** X12.  The serializer returns, padding tokens and types with
    [pad_id], whenever the tokens fit [max_seq_length], there is one
    type per token and one label per masked position, every masked
    subscript denotes a position and lies below the number of tokens
    (a negative subscript counts from the end of the padded arrays),
    and every value fits 64 signed bits. *)
Theorem serializer_returns
        (tokens token_types masked_positions masked_labels : list Z) :
  len tokens <= max_seq_length self ->
  len token_types = len tokens ->
  len masked_positions = len masked_labels ->
  Forall (fun idx => - max_seq_length self <= idx < len tokens) masked_positions ->
  Forall (fun v => fits_int64 v = true) tokens ->
  Forall (fun v => fits_int64 v = true) token_types ->
  Forall (fun v => fits_int64 v = true) masked_labels ->
  fits_int64 (pad_id self) = true ->
  let num_pad := max_seq_length self - len tokens in
  exists labels_np loss_mask_np,
    pad_and_convert_to_numpy self tokens token_types masked_positions masked_labels
    = Ok (tokens ++ py_repeat (pad_id self) num_pad,
          token_types ++ py_repeat (pad_id self) num_pad,
          labels_np,
          py_repeat 1 (len tokens) ++ py_repeat 0 num_pad,
          loss_mask_np).
Proof.
  intros Hfit Htypes Hlens Hpos Htok Hty Hlab Hpadfit num_pad.
  assert (Hmax : 0 <= max_seq_length self) by (unfold len in Hfit; lia).
  destruct (fill_labels_returns (fun v => fits_int64 v = true) (len tokens) eq_refl
              (zip masked_positions masked_labels)
              (py_repeat (-1) (max_seq_length self)) (py_repeat 0 (max_seq_length self)))
    as (labels' & loss' & Hfill & Hl1 & Hl2).
  - unfold py_repeat. rewrite !length_replicate. reflexivity.
  - apply (Forall_zip_fst
             (fun idx => - len (py_repeat (-1) (max_seq_length self)) <= idx < len tokens
                         /\ idx < len (py_repeat (-1) (max_seq_length self)))).
    eapply Forall_impl; [exact Hpos|]. simpl.
    unfold len, py_repeat. rewrite length_replicate. intros idx Hidx.
    unfold len in *. lia.
  - apply (Forall_zip_snd (fun v => fits_int64 v = true)). exact Hlab.
  - apply Forall_forall. intros v Hv. unfold py_repeat in Hv.
    apply elem_of_replicate in Hv as [-> _]. reflexivity.
  - apply Forall_forall. intros v Hv. unfold py_repeat in Hv.
    apply elem_of_replicate in Hv as [-> _]. reflexivity.
  - exists labels', loss'. apply serializer_assembles; auto. unfold num_pad. lia.
Qed.

End SerializerMore.

(** ** From the planner to the serializer, and the whole construction *)

Section Pipeline.

Context {R : Type} `{!RandomState R}.
Variable self : BertDataset.

(** X13.  A returned plan always serializes: given tokens that fit
    [max_seq_length], one type per token and values that fit 64 signed
    bits, the serializer's assertions all hold of the planner's output
    (the masked positions are distinct positions of the real tokens,
    one label each, and the output holds input tokens or [mask_id]),
    and the loss mask then counts exactly the masked positions, which
    the budget bounds. *)
Theorem plan_serializes
        (tokens token_types : list Z) (g : R) (max_ngrams : Z)
        (whole_word favor_longer_ngram geometric_dist : bool)
        (out : list Z) (pos : list nat) (labs : list Z) (g' : R) :
  create_masked_lm_predictions self tokens g max_ngrams whole_word
                               favor_longer_ngram geometric_dist
  = Ok (out, pos, labs, g') ->
  len tokens <= max_seq_length self ->
  len token_types = len tokens ->
  Forall (fun v => fits_int64 v = true) tokens ->
  Forall (fun v => fits_int64 v = true) token_types ->
  fits_int64 (mask_id self) = true ->
  fits_int64 (pad_id self) = true ->
  let num_pad := max_seq_length self - len tokens in
  exists labels_np loss_mask_np,
    pad_and_convert_to_numpy self out token_types (map Z.of_nat pos) labs
    = Ok (out ++ py_repeat (pad_id self) num_pad,
          token_types ++ py_repeat (pad_id self) num_pad,
          labels_np,
          py_repeat 1 (len tokens) ++ py_repeat 0 num_pad,
          loss_mask_np)
    /\ count_ones loss_mask_np = length pos
    /\ (forall B, num_to_predict self tokens = Ok B ->
                  Z.of_nat (count_ones loss_mask_np) <= Z.max 0 B).
Proof.
  intros H Hfit Htypes Htok Hty Hmask Hpad num_pad.
  pose proof (planner_steps _ _ _ _ _ _ _ _ _ _ _ H)
    as (_ & c0 & B0 & shuffled & g1 & st0 & _ & _ & _ & Hloop & Hout0 & _).
  assert (Hwritten : forall q, out !! q = tokens !! q \/ out !! q = Some (mask_id self)).
  { rewrite Hout0. eapply mask_loop_written; [|exact Hloop]. intros q. left. reflexivity. }
  clear c0 B0 shuffled g1 st0 Hloop Hout0.
  apply planner_Ok in H
    as (c & B & st & Hc & HB & [Hplan Hbudget _] & Hout & Hperm & _ & Hpos & Hlabs).
  destruct Hplan as [Hlen _ Hnodup _ Hgroups Hlabels].
  pose proof (cand_scan_groups _ _ _ _ Hc) as [Hbelow _ _ _ _].
  assert (Hlenout : len out = len tokens) by (unfold len; rewrite Hout, Hlen; reflexivity).
  assert (Hnd : NoDup pos) by (rewrite Hperm; exact Hnodup).
  assert (Hlens : length labs = length pos)
    by (rewrite Hpos, Hlabs, !length_map; reflexivity).
  assert (Hin : Forall (fun p => (p < length tokens)%nat) pos).
  { apply Forall_forall. intros p Hp. rewrite Hperm in Hp.
    rewrite Forall_forall in Hbelow. apply Hbelow, Hgroups, Hp. }
  assert (Hlabfit : Forall (fun v => fits_int64 v = true) labs).
  { apply Forall_forall. intros l Hl. rewrite Hlabs in Hl.
    apply list_elem_of_fmap in Hl as ([p l'] & -> & Hpl).
    rewrite sorted_by_index_perm in Hpl. apply Hlabels in Hpl. simpl.
    rewrite Forall_forall in Htok. apply Htok. eapply list_elem_of_lookup_2; eauto. }
  assert (Houtfit : Forall (fun v => fits_int64 v = true) out).
  { apply Forall_lookup. intros q v Hq. destruct (Hwritten q) as [Hw|Hw].
    - rewrite Hw in Hq. rewrite Forall_forall in Htok. apply Htok.
      eapply list_elem_of_lookup_2; eauto.
    - congruence. }
  destruct (fill_labels_returns (fun v => fits_int64 v = true) (len out) eq_refl
              (zip (map Z.of_nat pos) labs)
              (py_repeat (-1) (max_seq_length self)) (py_repeat 0 (max_seq_length self)))
    as (labels' & loss' & Hfill & Hl1 & Hl2).
  { unfold py_repeat. rewrite !length_replicate. reflexivity. }
  { apply (Forall_zip_fst
             (fun idx => - len (py_repeat (-1) (max_seq_length self)) <= idx < len out
                         /\ idx < len (py_repeat (-1) (max_seq_length self)))).
    apply Forall_forall. intros idx Hidx.
    apply list_elem_of_fmap in Hidx as (p & -> & Hp).
    rewrite Forall_forall in Hin. specialize (Hin p Hp).
    unfold len, py_repeat in *. rewrite length_replicate. lia. }
  { apply (Forall_zip_snd (fun v => fits_int64 v = true)). exact Hlabfit. }
  { apply Forall_forall. intros v Hv. unfold py_repeat in Hv.
    apply elem_of_replicate in Hv as [-> _]. reflexivity. }
  { apply Forall_forall. intros v Hv. unfold py_repeat in Hv.
    apply elem_of_replicate in Hv as [-> _]. reflexivity. }
  assert (Hcount : count_ones loss' = length pos).
  { pose proof Hfill as Hfill'.
    apply fill_labels_contents in Hfill';
      [| exact Hnd | exact Hlens | unfold py_repeat; rewrite !length_replicate; reflexivity].
    destruct Hfill' as (Hall & _ & _ & _ & _ & Hcount).
    unfold py_repeat in *. rewrite Hcount, count_ones_replicate; [reflexivity|].
    intros p Hp. apply lookup_replicate. split; [reflexivity|].
    rewrite Forall_forall in Hall. destruct (Hall p Hp) as [_ Hlt].
    rewrite length_replicate in Hlt. exact Hlt. }
  exists labels', loss'. split; [|split; [exact Hcount|]].
  - unfold num_pad. rewrite <- Hlenout.
    apply serializer_assembles; auto; try lia.
    unfold len. rewrite length_map, Hlens. reflexivity.
  - intros B' HB'. rewrite HB in HB'. injection HB' as <-.
    rewrite Hcount. rewrite len_masked_lms in Hbudget. unfold len in Hbudget.
    rewrite <- (Permutation_length Hperm) in Hbudget. exact Hbudget.
Qed.

Lemma extend_from_all (sample : list (list Z)) :
  extend_from sample (py_range 0 (len sample)) [] = Ok (concat sample).
Proof.
  unfold len. change 0 with (Z.of_nat 0).
  rewrite (py_range_nat 0 (length sample)), Nat.sub_0_r.
  rewrite extend_from_seq by (simpl; lia).
  simpl. rewrite firstn_all. reflexivity.
Qed.

(** X14.  How [create_training_sample] ends, case by case.  With the
    binary head: [AssertionError] below two sentences, [AssertionError]
    when the target length exceeds [max_seq_length], and otherwise
    [NameError] on [is_random_next], whatever the sample.  Without it:
    [AssertionError] on the target length; [NameError] on [rng] when
    the sentences, joined, exceed the target length; and otherwise
    whatever the planner or the serializer raise on
    [[CLS] sentences [SEP] [SEP]], or [NameError] on [truncated] when
    both return. *)
Theorem create_training_sample_outcome
        (sample : list (list Z)) (target_seq_length : Z) (np_rng : R) :
  create_training_sample self sample target_seq_length np_rng
  = if binary_head self && negb (1 <? len sample)
    then Raise (AssertionError "len(sample) > 1")
    else if negb (target_seq_length <=? max_seq_length self)
    then Raise (AssertionError "target_seq_length <= self.max_seq_length")
    else if binary_head self then Raise (NameError "is_random_next")
    else if negb (len (concat sample) <=? target_seq_length)
    then Raise (NameError "rng")
    else
      let '(tokens, token_types) :=
        create_tokens_and_token_types self (concat sample) [] in
      m <- create_masked_lm_predictions self tokens np_rng 3 true false false ;;
      let '(out, masked_positions, masked_labels, _) := m in
      _ <- pad_and_convert_to_numpy self out token_types
                                    (map Z.of_nat masked_positions) masked_labels ;;
      Raise (NameError "truncated").
Proof.
  unfold create_training_sample. destruct (binary_head self); cbn [andb].
  - destruct (1 <? len sample) eqn:Hlen; cbn [negb py_assert bind]; [|reflexivity].
    destruct (target_seq_length <=? max_seq_length self); cbn [negb py_assert bind];
      [|reflexivity].
    apply Z.ltb_lt in Hlen. unfold len in Hlen.
    unfold create_random_sentence_pair.
    destruct (sentence_pair_locals_Ok sample np_rng ltac:(lia))
      as (a_end & g1 & g2 & u & _ & _ & _ & Heq).
    rewrite Heq. destruct (u <? f_0_5)%float; reflexivity.
  - cbn [bind].
    destruct (target_seq_length <=? max_seq_length self); cbn [negb py_assert bind];
      [|reflexivity].
    rewrite extend_from_all. cbn [bind].
    unfold truncate_seq_pair. rewrite truncate_loop_eq.
    replace (len (concat sample) + len (@nil Z)) with (len (concat sample))
      by (unfold len; simpl; lia).
    destruct (len (concat sample) <=? target_seq_length); cbn [negb bind]; [|reflexivity].
    destruct (create_tokens_and_token_types self (concat sample) []) as [tokens token_types].
    destruct (create_masked_lm_predictions self tokens np_rng 3 true false false)
      as [[[[out pos] labs] g']|e]; cbn [bind]; [|reflexivity].
    destruct (pad_and_convert_to_numpy self out token_types (map Z.of_nat pos) labs)
      as [[[[[a1 a2] a3] a4] a5]|e]; reflexivity.
Qed.

Lemma gather_seq (dataset : list (list Z)) :
  forall (n a : nat),
    (a + n <= length dataset)%nat ->
    gather dataset (map Z.of_nat (seq a n)) = Ok (take n (drop a dataset)).
Proof.
  induction n as [|n IH]; intros a Hle; [reflexivity|].
  simpl. destruct (lookup_lt_is_Some_2 dataset a ltac:(lia)) as [s Hs].
  rewrite (proj2 (py_index_nat dataset a s) Hs). cbn [bind].
  rewrite IH by lia. cbn [bind].
  rewrite (drop_S _ _ _ Hs). reflexivity.
Qed.

(** X15.  [__getitem__] raises [IndexError] for an ordinal outside
    [-len(self), len(self)); for a row [(start, end, length)] of the
    mapping whose range lies in the dataset it builds the sample from
    the sentences [start .. end-1] (none when [end <= start]), the
    row's target length and a random state seeded with
    [(seed + idx) mod 2^32]. *)
Theorem getitem_reads_row (idx : Z) :
  (~ (- __len__ self <= idx < __len__ self) ->
   __getitem__ (R := R) self idx = Raise IndexError)
  /\ (forall start_idx end_idx seq_length,
        py_index (samples_mapping self) idx = Ok (start_idx, end_idx, seq_length) ->
        0 <= start_idx -> end_idx <= len (indexed_dataset self) ->
        - __len__ self <= idx < __len__ self
        /\ __getitem__ self idx
           = create_training_sample
               self (py_slice (indexed_dataset self) start_idx end_idx) seq_length
               (seed_state (R := R) ((seed self + idx) mod 2 ^ 32))).
Proof.
  split.
  - intros Hout. unfold __getitem__, __len__ in *.
    rewrite py_index_out_of_range by exact Hout. reflexivity.
  - intros start_idx end_idx seq_length Hrow Hstart Hend.
    split; [unfold __len__; eapply py_index_bounds; eauto|].
    unfold __getitem__. rewrite Hrow. cbn [bind].
    assert (Hgather : gather (indexed_dataset self) (py_range start_idx end_idx)
                      = Ok (py_slice (indexed_dataset self) start_idx end_idx)).
    { unfold py_slice. destruct (Z_lt_le_dec end_idx start_idx) as [Hlt|Hle].
      - unfold py_range. replace (Z.to_nat (end_idx - start_idx)) with 0%nat by lia.
        reflexivity.
      - replace start_idx with (Z.of_nat (Z.to_nat start_idx)) at 1 by lia.
        replace end_idx with (Z.of_nat (Z.to_nat end_idx)) at 1 by lia.
        rewrite py_range_nat. unfold len in Hend.
        rewrite gather_seq by lia. do 2 f_equal. lia. }
    rewrite Hgather. reflexivity.
Qed.

(** X18.  The lines of [create_random_sentence_pair] above its [return]
    run to the end exactly for samples of two sentences or more, and
    then split the sample at a sentence boundary with at least one
    sentence on each side: segment A holds the first sentences and B the
    rest, the two swapped exactly when the flag is set, so that no token
    is lost or repeated. *)
Theorem sentence_split_keeps_all_tokens
        (sample : list (list Z)) (np_rng : R)
        (tokens_a tokens_b : list Z) (is_next_random : bool) (g' : R) :
  sentence_pair_locals sample np_rng = Ok (tokens_a, tokens_b, is_next_random, g') ->
  exists a_end,
    (1 <= a_end < length sample)%nat
    /\ (if is_next_random then (tokens_b, tokens_a) else (tokens_a, tokens_b))
       = (concat (take a_end sample), concat (drop a_end sample))
    /\ (if is_next_random then tokens_b ++ tokens_a else tokens_a ++ tokens_b)
       = concat sample.
Proof.
  intros H.
  assert (Hlen : (2 <= length sample)%nat).
  { unfold sentence_pair_locals in H. inv_bind H.
    apply py_assert_Ok, Z.ltb_lt in Ha. unfold len in Ha. lia. }
  destruct (sentence_pair_locals_Ok sample np_rng Hlen)
    as (a_end & g1 & g2 & u & Hrange & _ & _ & Heq).
  rewrite Heq in H. exists a_end. split; [exact Hrange|].
  destruct (u <? f_0_5)%float; injection H as <- <- <- <-;
    (split; [reflexivity|]); rewrite <- concat_app, take_drop; reflexivity.
Qed.

End Pipeline.

(** ** Further runs on the demo dataset *)

(** The groups of the demo sequence list its seven candidate positions
    in order, and position 6 ([##tar]) lies in one of them. *)
Lemma groups_partition_candidates_witness :
  concat [[1; 2]; [3]; [5; 6; 7]; [8]]%nat = [1; 2; 3; 5; 6; 7; 8]%nat
  /\ exists g, g ∈ [[1; 2]; [3]; [5; 6; 7]; [8]]%nat /\ 6%nat ∈ g.
Proof.
  assert (Hrun : cand_scan Demo.bert true 0 Demo.tokens []
                 = Ok [[1; 2]; [3]; [5; 6; 7]; [8]]%nat) by run.
  destruct (groups_partition_candidates Demo.bert true Demo.tokens _ Hrun)
    as (Hcat & _ & _ & Hin).
  split; [exact Hcat|]. apply Hin. exists 202. split; run.
Defined.

(** Without whole-word masking the demo sequence has seven groups. *)
Example demo_single_positions :
  cand_scan Demo.bert false 0 Demo.tokens []
  = Ok [[1]; [2]; [3]; [5]; [6]; [7]; [8]]%nat.
Proof. run. Qed.

(** The scan of the demo sequence returns, every piece being known; an
    unknown id after the first candidate raises [KeyError], and the same
    id as the first candidate is not looked up. *)
Lemma scan_returns_iff_pieces_known_witness :
  (exists c, cand_scan Demo.bert true 0 Demo.tokens [] = Ok c)
  /\ (exists token,
         KeyError 999 = KeyError token /\ token ∈ [1; 101; 999; 2]
         /\ is_special Demo.bert token = false
         /\ vocab_id_to_token_dict Demo.bert !! token = None).
Proof.
  split.
  - apply (proj1 (scan_returns_iff_pieces_known Demo.bert Demo.tokens)).
    repeat constructor; eexists; run.
  - assert (Hrun : cand_scan Demo.bert true 0 [1; 101; 999; 2] [] = Raise (KeyError 999))
      by run.
    exact (proj2 (scan_returns_iff_pieces_known Demo.bert [1; 101; 999; 2]) _ Hrun).
Defined.

Example first_candidate_not_looked_up :
  cand_scan Demo.bert true 0 [1; 999; 101; 2] [] = Ok [[1]; [2]]%nat.
Proof. run. Qed.

(** The group [gui ##tar ##s] of the demo sequence: a start piece
    followed by two continuation pieces. *)
Lemma groups_are_words_witness :
  exists h tl,
    [5; 6; 7]%nat = h :: tl
    /\ candidate_pos Demo.bert Demo.tokens h
    /\ Forall (continuation Demo.bert Demo.tokens) tl
    /\ (first_candidate Demo.bert Demo.tokens h \/ start_piece_at Demo.bert Demo.tokens h).
Proof.
  assert (Hrun : cand_scan Demo.bert true 0 Demo.tokens []
                 = Ok [[1; 2]; [3]; [5; 6; 7]; [8]]%nat) by run.
  apply (groups_are_words Demo.bert Demo.tokens _ Hrun).
  right. right. left.
Defined.

(** The second demo run wrote [mask_id] at three positions and the
    original id at the fourth. *)
Lemma replacements_original_or_mask_witness :
  ([1; 3; 3; 3; 2; 201; 202; 203; 204; 2] !! 1%nat = Demo.tokens !! 1%nat
   \/ [1; 3; 3; 3; 2; 201; 202; 203; 204; 2] !! 1%nat = Some 3)
  /\ ([1; 3; 3; 3; 2; 201; 202; 203; 204; 2] !! 8%nat = Demo.tokens !! 8%nat
      \/ [1; 3; 3; 3; 2; 201; 202; 203; 204; 2] !! 8%nat = Some 3).
Proof.
  assert (Hrun : create_masked_lm_predictions Demo.half Demo.tokens Demo.tape_overlap
                                              3 true false false
                 = Ok ([1; 3; 3; 3; 2; 201; 202; 203; 204; 2], [1; 2; 3; 8]%nat,
                       [101; 102; 103; 204], [7])) by run.
  split; apply (replacements_original_or_mask _ _ _ _ _ _ _ _ _ _ _ Hrun).
Defined.

(** A run that reaches the third branch of [mask_token]. *)
Lemma planner_exceptions_witness :
  ((mask_lm_prob Demo.bert =? 0)%float = true
   /\ AttributeError "np" "rng" = UnboundLocalError "output_tokens")
  \/ (true = true
      /\ exists token,
          AttributeError "np" "rng" = KeyError token /\ token ∈ Demo.tokens
          /\ is_special Demo.bert token = false
          /\ vocab_id_to_token_dict Demo.bert !! token = None)
  \/ (num_to_predict Demo.bert Demo.tokens = Raise (AttributeError "np" "rng")
      /\ (AttributeError "np" "rng" = ValueError
          \/ AttributeError "np" "rng" = OverflowError))
  \/ AttributeError "np" "rng" = AttributeError "np" "rng".
Proof.
  assert (Hrun : create_masked_lm_predictions Demo.bert Demo.tokens
                                              [0; 0; 0; 0; 0; 900; 700] 3 true false false
                 = Raise (AttributeError "np" "rng")) by run.
  exact (planner_exceptions _ _ _ _ _ _ _ _ Hrun).
Defined.

Example unknown_token_raises_key_error :
  create_masked_lm_predictions Demo.bert [1; 101; 999; 2] [0; 0; 0] 3 true false false
  = Raise (KeyError 999).
Proof. run. Qed.

(** A sequence of [cls] and [sep] alone comes back unmasked. *)
Lemma nothing_to_mask_witness :
  create_masked_lm_predictions Demo.bert [1; 2] [5] 3 true false false
  = Ok ([1; 2], [], [], [5]).
Proof.
  assert (Hprob : (mask_lm_prob Demo.bert =? 0)%float = false) by run.
  assert (Hscan : cand_scan Demo.bert true 0 [1; 2] [] = Ok []) by run.
  assert (Hnum : num_to_predict Demo.bert [1; 2] = Ok 1) by run.
  exact (nothing_to_mask Demo.bert [1; 2] [5] 3 true false false [] 1
                         Hprob Hscan Hnum (or_introl eq_refl)).
Defined.

Example no_ngrams_nothing_masked :
  create_masked_lm_predictions Demo.bert Demo.tokens [5] 0 true false false
  = Ok (Demo.tokens, [], [], []).
Proof. run. Qed.

(** With a budget of five every group of the demo sequence fits, and
    the plan is not empty. *)
Lemma plan_not_empty_witness : [1; 2; 3; 8]%nat <> [].
Proof.
  assert (Hrun : create_masked_lm_predictions Demo.half Demo.tokens Demo.tape_overlap
                                              3 true false false
                 = Ok ([1; 3; 3; 3; 2; 201; 202; 203; 204; 2], [1; 2; 3; 8]%nat,
                       [101; 102; 103; 204], [7])) by run.
  assert (Hscan : cand_scan Demo.half true 0 Demo.tokens []
                  = Ok [[1; 2]; [3]; [5; 6; 7]; [8]]%nat) by run.
  assert (Hnum : num_to_predict Demo.half Demo.tokens = Ok 5) by run.
  apply (plan_not_empty _ _ _ _ _ _ _ _ _ _ _ _ _ Hrun Hscan Hnum).
  - discriminate.
  - lia.
  - intros grp Hgrp.
    repeat (apply elem_of_cons in Hgrp as [->|Hgrp]; [unfold len; simpl; lia|]).
    inversion Hgrp.
Defined.

(** The serialized demo sample with [the] and [now] masked: the label
    of [now] sits at position 8, position 0 carries no label, and the
    loss mask counts two positions. *)
Lemma serializer_contents_witness :
  let labels_np := [-1; -1; -1; 103; -1; -1; -1; -1; 204; -1; -1; -1; -1; -1; -1; -1; -1; -1; -1; -1] in
  let loss_mask_np := [0; 0; 0; 1; 0; 0; 0; 0; 1; 0; 0; 0; 0; 0; 0; 0; 0; 0; 0; 0] in
  (labels_np !! 8%nat = Some 204 /\ loss_mask_np !! 8%nat = Some 1)
  /\ (labels_np !! 0%nat = Some (-1) /\ loss_mask_np !! 0%nat = Some 0)
  /\ count_ones loss_mask_np = 2%nat.
Proof.
  intros labels_np loss_mask_np.
  assert (Hrun : pad_and_convert_to_numpy
                   Demo.bert [1; 101; 102; 3; 2; 201; 202; 203; 3; 2] Demo.token_types
                   (map Z.of_nat [3; 8]%nat) [103; 204]
                 = Ok ([1; 101; 102; 3; 2; 201; 202; 203; 3; 2; 0; 0; 0; 0; 0; 0; 0; 0; 0; 0],
                       [0; 0; 0; 0; 0; 1; 1; 1; 1; 1; 0; 0; 0; 0; 0; 0; 0; 0; 0; 0],
                       labels_np,
                       [1; 1; 1; 1; 1; 1; 1; 1; 1; 1; 0; 0; 0; 0; 0; 0; 0; 0; 0; 0],
                       loss_mask_np)) by run.
  assert (Hnd : NoDup [3; 8]%nat) by (apply (bool_decide_eq_true_1 _); reflexivity).
  destruct (serializer_contents Demo.bert _ _ _ _ _ _ _ _ _ Hrun Hnd)
    as (_ & _ & Hat & Hother & Hcount).
  split; [apply (Hat 1%nat 8%nat 204); reflexivity|].
  split; [apply (Hother 0%nat); [simpl; lia | apply (bool_decide_eq_true_1 _); reflexivity]|].
  exact Hcount.
Defined.

(** The serializer returns on the demo sample; the subscript -12 counts
    from the end of the padded arrays. *)
Lemma serializer_returns_witness :
  exists labels_np loss_mask_np,
    pad_and_convert_to_numpy Demo.bert Demo.tokens Demo.token_types [3; -12] [103; 204]
    = Ok (Demo.tokens ++ py_repeat 0 10, Demo.token_types ++ py_repeat 0 10,
          labels_np, py_repeat 1 10 ++ py_repeat 0 10, loss_mask_np).
Proof.
  apply (serializer_returns Demo.bert Demo.tokens Demo.token_types [3; -12] [103; 204]).
  - unfold len; simpl; lia.
  - reflexivity.
  - reflexivity.
  - repeat constructor; unfold len; simpl; lia.
  - repeat constructor.
  - repeat constructor.
  - repeat constructor.
  - reflexivity.
Defined.

Example negative_subscript_wraps :
  pad_and_convert_to_numpy Demo.bert Demo.tokens Demo.token_types [3; -12] [103; 204]
  = Ok ([1; 101; 102; 103; 2; 201; 202; 203; 204; 2; 0; 0; 0; 0; 0; 0; 0; 0; 0; 0],
        [0; 0; 0; 0; 0; 1; 1; 1; 1; 1; 0; 0; 0; 0; 0; 0; 0; 0; 0; 0],
        [-1; -1; -1; 103; -1; -1; -1; -1; 204; -1; -1; -1; -1; -1; -1; -1; -1; -1; -1; -1],
        [1; 1; 1; 1; 1; 1; 1; 1; 1; 1; 0; 0; 0; 0; 0; 0; 0; 0; 0; 0],
        [0; 0; 0; 1; 0; 0; 0; 0; 1; 0; 0; 0; 0; 0; 0; 0; 0; 0; 0; 0]).
Proof. run. Qed.

(** The plan of the second demo run serializes, and its loss mask
    counts the four masked positions, within the budget of five. *)
Lemma plan_serializes_witness :
  exists labels_np loss_mask_np,
    pad_and_convert_to_numpy Demo.half [1; 3; 3; 3; 2; 201; 202; 203; 204; 2]
                             Demo.token_types (map Z.of_nat [1; 2; 3; 8]%nat)
                             [101; 102; 103; 204]
    = Ok ([1; 3; 3; 3; 2; 201; 202; 203; 204; 2] ++ py_repeat 0 10,
          Demo.token_types ++ py_repeat 0 10,
          labels_np, py_repeat 1 10 ++ py_repeat 0 10, loss_mask_np)
    /\ count_ones loss_mask_np = 4%nat
    /\ Z.of_nat (count_ones loss_mask_np) <= 5.
Proof.
  assert (Hrun : create_masked_lm_predictions Demo.half Demo.tokens Demo.tape_overlap
                                              3 true false false
                 = Ok ([1; 3; 3; 3; 2; 201; 202; 203; 204; 2], [1; 2; 3; 8]%nat,
                       [101; 102; 103; 204], [7])) by run.
  assert (Hnum : num_to_predict Demo.half Demo.tokens = Ok 5) by run.
  assert (Hfit : len Demo.tokens <= max_seq_length Demo.half) by (unfold len; simpl; lia).
  assert (Htypes : len Demo.token_types = len Demo.tokens) by reflexivity.
  assert (Htok : Forall (fun v => fits_int64 v = true) Demo.tokens) by repeat constructor.
  assert (Hty : Forall (fun v => fits_int64 v = true) Demo.token_types)
    by repeat constructor.
  destruct (plan_serializes Demo.half Demo.tokens Demo.token_types _ _ _ _ _ _ _ _ _
                            Hrun Hfit Htypes Htok Hty eq_refl eq_refl)
    as (labels_np & loss_mask_np & Hser & Hcount & Hbudget).
  exists labels_np, loss_mask_np.
  split; [exact Hser|]. split; [exact Hcount|]. exact (Hbudget 5 Hnum).
Defined.

(** Without the binary head the demo document reaches the last line of
    [create_training_sample] when it fits the target length, and stops
    in the truncation when it does not. *)
Example demo_sample_without_binary_head :
  create_training_sample (Demo.dataset false Demo.f_0_15)
                         [[101; 102; 103]; [201; 202; 203; 204]] 10 Demo.tape
  = Raise (NameError "truncated")
  /\ create_training_sample (Demo.dataset false Demo.f_0_15)
                            [[101; 102; 103]; [201; 202; 203; 204]] 6 Demo.tape
     = Raise (NameError "rng").
Proof. split; run. Qed.

(** Ordinal 5 is outside the two rows of the demo mapping; ordinal 0
    reads both sentences of the document. *)
Lemma getitem_reads_row_witness :
  __getitem__ (R := list Z) Demo.bert 5 = Raise IndexError
  /\ __getitem__ (R := list Z) Demo.bert 0
     = create_training_sample Demo.bert [[101; 102; 103]; [201; 202; 203; 204]] 10
                              (seed_state 1234).
Proof.
  split.
  - apply (proj1 (getitem_reads_row (R := list Z) Demo.bert 5)).
    unfold __len__, len. simpl. lia.
  - assert (Hrow : py_index (samples_mapping Demo.bert) 0 = Ok (0, 2, 10)) by run.
    apply (proj2 (getitem_reads_row (R := list Z) Demo.bert 0) 0 2 10 Hrow).
    + lia.
    + unfold len. simpl. lia.
Defined.

(** A position past the end of the demo sequence. *)
Example mask_token_out_of_range :
  mask_token Demo.bert 10 Demo.tokens [100; 7] = Raise IndexError.
Proof. run. Qed.

(** The second demo run is one of the two outcomes. *)
Lemma planner_returns_or_stops_at_np_rng_witness :
  (exists out pos labs g',
      create_masked_lm_predictions Demo.half Demo.tokens Demo.tape_overlap
                                   3 true false false
      = Ok (out, pos, labs, g'))
  \/ create_masked_lm_predictions Demo.half Demo.tokens Demo.tape_overlap
                                  3 true false false
     = Raise (AttributeError "np" "rng").
Proof.
  assert (Hprob : (mask_lm_prob Demo.half =? 0)%float = false) by run.
  assert (Hscan : cand_scan Demo.half true 0 Demo.tokens []
                  = Ok [[1; 2]; [3]; [5; 6; 7]; [8]]%nat) by run.
  assert (Hnum : num_to_predict Demo.half Demo.tokens = Ok 5) by run.
  exact (planner_returns_or_stops_at_np_rng Demo.half Demo.tokens Demo.tape_overlap
           3 true false false _ 5 Hprob Hscan Hnum).
Defined.

(** Three sentences split after the second, and swapped: B and A joined
    are the whole sample. *)
Lemma sentence_split_keeps_all_tokens_witness :
  exists a_end,
    (1 <= a_end < 3)%nat
    /\ ([101; 102; 103; 201; 202], [203; 204])
       = (concat (take a_end [[101; 102; 103]; [201; 202]; [203; 204]]),
          concat (drop a_end [[101; 102; 103]; [201; 202]; [203; 204]]))
    /\ [101; 102; 103; 201; 202] ++ [203; 204] = [101; 102; 103; 201; 202; 203; 204].
Proof.
  assert (Hrun : sentence_pair_locals [[101; 102; 103]; [201; 202]; [203; 204]] [1; 100; 7]
                 = Ok ([203; 204], [101; 102; 103; 201; 202], true, [7])) by run.
  exact (sentence_split_keeps_all_tokens _ _ _ _ _ _ Hrun).
Defined.
